(** * alerta-ilo-web: the client-side resilience layer

    A shallow embedding of three services of the repository,

      - [src/services/CacheService.ts]          (the Cache Store),
      - [src/services/OfflineQueueService.ts]   (the Operation Queue),
      - [src/services/BackgroundSyncService.ts] (the Sync Coordinator),

    together with the part of the browser platform they call
    ([JSON.stringify] / [JSON.parse], [localStorage], IndexedDB, [Date.now])
    and of [AuthService.updateProfile], the only backend write they reach.

    Conventions.
      - JavaScript numbers that the services handle (timestamps, sizes,
        counters) are integers and are modelled as [Z].
      - A JavaScript object used as a table ([Record<string, T>]) is an
        association list in insertion order, because [Object.entries] and the
        stable [Array.prototype.sort] make that order observable.
      - [localStorage] and the IndexedDB object store are finite maps.
      - A method is a function from the state it runs on to an outcome, a
        value or an exception, and the state it leaves; [try], [catch] and
        [finally] are combinators on such functions.
      - [Date.now()] is a parameter [now] of each call.
      - An [async] method is modelled as running to completion: the awaited
        calls are oracles of a [Backend] record, and no other event runs
        in between.  Where a caller does not await it, the moment the
        caller gets the control back is modelled apart
        ([processQueue_begins], [addToQueue_returns]).
      - [well_formed] says which texts are JSON; the reader [JSON.parse] of
        the model reads the compact texts with integer numbers among them,
        and [faithful] says on which texts it reads what the platform
        reads.

    The file has three parts: the embedding of the platform and of the
    services; the vocabulary of the statements; the facts. *)

From Stdlib Require Import ZArith Ascii String Decimal DecimalN DecimalPos.
From stdpp Require Import base strings list gmap.

Local Open Scope string_scope.
Local Open Scope Z_scope.

(** ** The platform: exceptions and state

    A method runs on a state [S] (the fields it can reach and the stores of
    the platform) and either returns a value or throws; the state it leaves
    is kept in both cases, so that [catch] and [finally] see the writes made
    before the exception. *)

Record Exn := mkExn { exn_name : string; exn_message : string }.

Inductive result (A : Type) : Type :=
| Ok (a : A)
| Throw (e : Exn).
Arguments Ok {A} a.
Arguments Throw {A} e.

Definition M (S A : Type) : Type := S -> result A * S.

Definition ret {S A} (a : A) : M S A := fun s => (Ok a, s).
Definition throw {S A} (e : Exn) : M S A := fun s => (Throw e, s).

Definition bind {S A B} (m : M S A) (k : A -> M S B) : M S B :=
  fun s => match m s with
           | (Ok a, s') => k a s'
           | (Throw e, s') => (Throw e, s')
           end.

Notation "x <~ m ;; k" := (bind m (fun x => k))
  (at level 100, m at next level, right associativity).
Notation "m ;;; k" := (bind m (fun _ => k))
  (at level 100, right associativity).

Definition get {S} : M S S := fun s => (Ok s, s).
Definition gets {S A} (f : S -> A) : M S A := fun s => (Ok (f s), s).
Definition modify {S} (f : S -> S) : M S unit := fun s => (Ok tt, f s).

(** [try { body } catch (e) { handler e }] *)
Definition try_catch {S A} (body : M S A) (handler : Exn -> M S A) : M S A :=
  fun s => match body s with
           | (Ok a, s') => (Ok a, s')
           | (Throw e, s') => handler e s'
           end.

(** [try { body } finally { final }]: [final] runs on every exit of [body],
    a [return] included, and the outcome of [body] stands unless [final]
    throws. *)
Definition try_finally {S A} (body : M S A) (final : M S unit) : M S A :=
  fun s => match body s with
           | (r, s') => match final s' with
                        | (Ok _, s'') => (r, s'')
                        | (Throw e, s'') => (Throw e, s'')
                        end
           end.

(** [for (const x of l) { body x }] *)
Fixpoint for_each {S A} (l : list A) (body : A -> M S unit) : M S unit :=
  match l with
  | [] => ret tt
  | x :: l' => body x ;;; for_each l' body
  end.

(** A callee with a state of its own (a field of the caller's state). *)
Definition zoom {S T A} (proj : S -> T) (inj : T -> S -> S) (m : M T A) : M S A :=
  fun s => match m (proj s) with (r, t') => (r, inj t' s) end.

(** A call that is not awaited ([this.processQueue()] in a method that
    goes on): its rejection reaches nobody. *)
Definition detached {S} (m : M S unit) : M S unit :=
  try_catch m (fun _ => ret tt).

Definition TypeError (msg : string) : Exn := mkExn "TypeError" msg.
Definition SyntaxError (msg : string) : Exn := mkExn "SyntaxError" msg.
Definition Error (msg : string) : Exn := mkExn "Error" msg.

(** [`${error}`]: the string conversion of an [Error] object. *)
Definition exn_to_string (e : Exn) : string :=
  exn_name e +:+ ": " +:+ exn_message e.

(** ** The platform: JSON

    The JSON values, the text [JSON.stringify] writes for them and the
    reader [JSON.parse].  Numbers are the integers; the text is the compact
    one (no white space) and a string escapes the quote and the backslash.
    The reader reads what the writer writes (and little more: no white
    space, no other escape; an object that repeats a key keeps every
    member, where [JSON.parse] keeps the last). *)

Module JSON.

#[local] Set Warnings "-register-all".

Inductive Json : Type :=
| JNull
| JBool (b : bool)
| JNum (z : Z)
| JStr (s : string)
| JArr (l : list Json)
| JObj (m : list (string * Json)).

(** *** Writing *)

Fixpoint emit_uint (d : Decimal.uint) (k : string) : string :=
  match d with
  | Nil => k
  | D0 d => String "0"%char (emit_uint d k)
  | D1 d => String "1"%char (emit_uint d k)
  | D2 d => String "2"%char (emit_uint d k)
  | D3 d => String "3"%char (emit_uint d k)
  | D4 d => String "4"%char (emit_uint d k)
  | D5 d => String "5"%char (emit_uint d k)
  | D6 d => String "6"%char (emit_uint d k)
  | D7 d => String "7"%char (emit_uint d k)
  | D8 d => String "8"%char (emit_uint d k)
  | D9 d => String "9"%char (emit_uint d k)
  end.

Definition emit_Z (z : Z) (k : string) : string :=
  if z <? 0 then String "-"%char (emit_uint (N.to_uint (Z.to_N (- z))) k)
  else emit_uint (N.to_uint (Z.to_N z)) k.

(** The double quote, character 34. *)
Definition dquote : ascii := Ascii.ascii_of_nat 34.

Definition is_quote (c : ascii) : bool := Ascii.eqb c dquote.
Definition is_backslash (c : ascii) : bool := Ascii.eqb c "\"%char.

Fixpoint emit_chars (s : string) (k : string) : string :=
  match s with
  | EmptyString => String dquote k
  | String c s' =>
      if is_quote c || is_backslash c
      then String "\"%char (String c (emit_chars s' k))
      else String c (emit_chars s' k)
  end.

Definition emit_string (s : string) (k : string) : string :=
  String dquote (emit_chars s k).

(** What follows the first element of an array, and the first member of an
  object, given the writer of one value. *)
Section Tails.
Variable emit : Json -> string -> string.

Fixpoint emit_elements (l : list Json) (k : string) : string :=
  match l with
  | [] => String "]"%char k
  | y :: l' => String ","%char (emit y (emit_elements l' k))
  end.

Fixpoint emit_members (m : list (string * Json)) (k : string) : string :=
  match m with
  | [] => String "}"%char k
  | (key, y) :: m' =>
      String ","%char (emit_string key (String ":"%char (emit y (emit_members m' k))))
  end.
End Tails.

(** [emit j k] is the text of [j] followed by [k]. *)
Fixpoint emit (j : Json) (k : string) : string :=
  match j with
  | JNull => String "n"%char (String "u"%char (String "l"%char (String "l"%char (k))))
  | JBool true => String "t"%char (String "r"%char (String "u"%char (String "e"%char (k))))
  | JBool false => String "f"%char (String "a"%char (String "l"%char (String "s"%char (String "e"%char (k)))))
  | JNum z => emit_Z z k
  | JStr s => emit_string s k
  | JArr l =>
      String "["%char
        match l with
        | [] => String "]"%char k
        | x :: l' => emit x (emit_elements emit l' k)
        end
  | JObj m =>
      String "{"%char
        match m with
        | [] => String "}"%char k
        | (key, x) :: m' =>
            emit_string key (String ":"%char (emit x (emit_members emit m' k)))
        end
  end.

Definition stringify (j : Json) : string := emit j EmptyString.

(** *** Reading *)

Definition digit_of (c : ascii) : option (Decimal.uint -> Decimal.uint) :=
  if Ascii.eqb c "0"%char then Some D0 else
  if Ascii.eqb c "1"%char then Some D1 else
  if Ascii.eqb c "2"%char then Some D2 else
  if Ascii.eqb c "3"%char then Some D3 else
  if Ascii.eqb c "4"%char then Some D4 else
  if Ascii.eqb c "5"%char then Some D5 else
  if Ascii.eqb c "6"%char then Some D6 else
  if Ascii.eqb c "7"%char then Some D7 else
  if Ascii.eqb c "8"%char then Some D8 else
  if Ascii.eqb c "9"%char then Some D9 else None.

Definition starts_with_digit (s : string) : bool :=
  match s with
  | String c _ => match digit_of c with Some _ => true | None => false end
  | EmptyString => false
  end.

Fixpoint parse_digits (s : string) : Decimal.uint * string :=
  match s with
  | EmptyString => (Nil, EmptyString)
  | String c r =>
      match digit_of c with
      | Some mk => let '(d, r') := parse_digits r in (mk d, r')
      | None => (Nil, s)
      end
  end.

(** The digits of a natural number: at least one. *)
Definition parse_N (s : string) : option (N * string) :=
  if starts_with_digit s
  then let '(d, r) := parse_digits s in Some (N.of_uint d, r)
  else None.

(** The characters of a string, after its opening quote. *)
Fixpoint parse_chars (s : string) : option (string * string) :=
  match s with
  | EmptyString => None
  | String c r =>
      if is_quote c then Some (EmptyString, r)
      else if is_backslash c then
        match r with
        | String d r' =>
            if is_quote d || is_backslash d
            then match parse_chars r' with
                 | Some (str, rest) => Some (String d str, rest)
                 | None => None
                 end
            else None
        | EmptyString => None
        end
      else match parse_chars r with
           | Some (str, rest) => Some (String c str, rest)
           | None => None
           end
  end.

Fixpoint strip (p s : string) : option string :=
  match p, s with
  | EmptyString, _ => Some s
  | String a p', String b s' => if Ascii.eqb a b then strip p' s' else None
  | String _ _, EmptyString => None
  end.

(** A key of an object: a string and the colon. *)
Definition parse_key (s : string) : option (string * string) :=
  match s with
  | String c r =>
      if is_quote c then
        match parse_chars r with
        | Some (key, String c' r') =>
            if Ascii.eqb c' ":"%char then Some (key, r') else None
        | _ => None
        end
      else None
  | EmptyString => None
  end.

Fixpoint parse_value (fuel : nat) (s : string) : option (Json * string) :=
  match fuel with
  | O => None
  | S fuel =>
      match s with
      | EmptyString => None
      | String c r =>
          if Ascii.eqb c "n"%char then
            match strip "ull" r with Some r' => Some (JNull, r') | None => None end
          else if Ascii.eqb c "t"%char then
            match strip "rue" r with Some r' => Some (JBool true, r') | None => None end
          else if Ascii.eqb c "f"%char then
            match strip "alse" r with Some r' => Some (JBool false, r') | None => None end
          else if is_quote c then
            match parse_chars r with
            | Some (str, r') => Some (JStr str, r')
            | None => None
            end
          else if Ascii.eqb c "["%char then
            match strip "]" r with
            | Some r' => Some (JArr [], r')
            | None =>
                match parse_value fuel r with
                | Some (x, r1) =>
                    match parse_elements fuel r1 with
                    | Some (l, r2) => Some (JArr (x :: l), r2)
                    | None => None
                    end
                | None => None
                end
            end
          else if Ascii.eqb c "{"%char then
            match strip "}" r with
            | Some r' => Some (JObj [], r')
            | None =>
                match parse_key r with
                | Some (key, r0) =>
                    match parse_value fuel r0 with
                    | Some (x, r1) =>
                        match parse_members fuel r1 with
                        | Some (m, r2) => Some (JObj ((key, x) :: m), r2)
                        | None => None
                        end
                    | None => None
                    end
                | None => None
                end
            end
          else if Ascii.eqb c "-"%char then
            match parse_N r with
            | Some (n, r') => Some (JNum (- Z.of_N n), r')
            | None => None
            end
          else
            match parse_N s with
            | Some (n, r') => Some (JNum (Z.of_N n), r')
            | None => None
            end
      end
  end

(** What follows an element of an array: the end, or a comma and more. *)
with parse_elements (fuel : nat) (s : string) : option (list Json * string) :=
  match fuel with
  | O => None
  | S fuel =>
      match s with
      | EmptyString => None
      | String c r =>
          if Ascii.eqb c "]"%char then Some ([], r)
          else if Ascii.eqb c ","%char then
            match parse_value fuel r with
            | Some (x, r1) =>
                match parse_elements fuel r1 with
                | Some (l, r2) => Some (x :: l, r2)
                | None => None
                end
            | None => None
            end
          else None
      end
  end

(** What follows a member of an object. *)
with parse_members (fuel : nat) (s : string) : option (list (string * Json) * string) :=
  match fuel with
  | O => None
  | S fuel =>
      match s with
      | EmptyString => None
      | String c r =>
          if Ascii.eqb c "}"%char then Some ([], r)
          else if Ascii.eqb c ","%char then
            match parse_key r with
            | Some (key, r0) =>
                match parse_value fuel r0 with
                | Some (x, r1) =>
                    match parse_members fuel r1 with
                    | Some (m, r2) => Some ((key, x) :: m, r2)
                    | None => None
                    end
                | None => None
                end
            | None => None
            end
          else None
      end
  end.

(** [JSON.parse]: the whole text is one value; [None] is a [SyntaxError]. *)
Definition parse (s : string) : option Json :=
  match parse_value (S (String.length s)) s with
  | Some (j, EmptyString) => Some j
  | _ => None
  end.

(** *** The texts that are JSON

    [well_formed] follows the grammar of JSON, all of it: white space
    around every token, numbers with a fraction and an exponent, every
    escape of a string.  It takes two liberties, both on the side of
    accepting: a number may begin with zeros, and a string may hold a
    control character.  So a text that [well_formed] refuses is a text on
    which [JSON.parse] throws a [SyntaxError]; the reader above reads none
    of them. *)

Definition is_space (c : ascii) : bool :=
  Ascii.eqb c " "%char || Ascii.eqb c (Ascii.ascii_of_nat 9)
  || Ascii.eqb c (Ascii.ascii_of_nat 10) || Ascii.eqb c (Ascii.ascii_of_nat 13).

Fixpoint skip_space (s : string) : string :=
  match s with
  | EmptyString => EmptyString
  | String c r => if is_space c then skip_space r else s
  end.

Definition is_hex (c : ascii) : bool :=
  match digit_of c with
  | Some _ => true
  | None =>
      Ascii.eqb c "a"%char || Ascii.eqb c "b"%char || Ascii.eqb c "c"%char
      || Ascii.eqb c "d"%char || Ascii.eqb c "e"%char || Ascii.eqb c "f"%char
      || Ascii.eqb c "A"%char || Ascii.eqb c "B"%char || Ascii.eqb c "C"%char
      || Ascii.eqb c "D"%char || Ascii.eqb c "E"%char || Ascii.eqb c "F"%char
  end.

(** The characters that a backslash escapes on their own; [u] takes four
    hexadecimal digits. *)
Definition is_escape (c : ascii) : bool :=
  is_quote c || is_backslash c || Ascii.eqb c "/"%char
  || Ascii.eqb c "b"%char || Ascii.eqb c "f"%char || Ascii.eqb c "n"%char
  || Ascii.eqb c "r"%char || Ascii.eqb c "t"%char.

(** What follows a string, after its opening quote. *)
Fixpoint scan_chars (s : string) : option string :=
  match s with
  | EmptyString => None
  | String c r =>
      if is_quote c then Some r
      else if is_backslash c then
        match r with
        | String d r' =>
            if is_escape d then scan_chars r'
            else if Ascii.eqb d "u"%char then
              match r' with
              | String h1 (String h2 (String h3 (String h4 r''))) =>
                  if is_hex h1 && is_hex h2 && is_hex h3 && is_hex h4
                  then scan_chars r''
                  else None
              | _ => None
              end
            else None
        | EmptyString => None
        end
      else scan_chars r
  end.

(** What follows the digits of a number: at least one digit. *)
Definition scan_digits (s : string) : option string :=
  match parse_N s with
  | Some (_, r) => Some r
  | None => None
  end.

Definition scan_fraction (s : string) : option string :=
  match s with
  | String c r => if Ascii.eqb c "."%char then scan_digits r else Some s
  | EmptyString => Some s
  end.

Definition scan_exponent (s : string) : option string :=
  match s with
  | String c r =>
      if Ascii.eqb c "e"%char || Ascii.eqb c "E"%char then
        match r with
        | String d r' =>
            if Ascii.eqb d "+"%char || Ascii.eqb d "-"%char
            then scan_digits r'
            else scan_digits r
        | EmptyString => None
        end
      else Some s
  | EmptyString => Some s
  end.

(** What follows a number, after its sign. *)
Definition scan_number (s : string) : option string :=
  match scan_digits s with
  | Some r =>
      match scan_fraction r with
      | Some r' => scan_exponent r'
      | None => None
      end
  | None => None
  end.

(** What follows a key of an object and its colon. *)
Definition scan_key (s : string) : option string :=
  match skip_space s with
  | String c r =>
      if is_quote c then
        match scan_chars r with
        | Some r' =>
            match skip_space r' with
            | String c' r'' => if Ascii.eqb c' ":"%char then Some r'' else None
            | EmptyString => None
            end
        | None => None
        end
      else None
  | EmptyString => None
  end.

Fixpoint scan_value (fuel : nat) (s : string) : option string :=
  match fuel with
  | O => None
  | S fuel =>
      match skip_space s with
      | EmptyString => None
      | String c r =>
          if Ascii.eqb c "n"%char then strip "ull" r
          else if Ascii.eqb c "t"%char then strip "rue" r
          else if Ascii.eqb c "f"%char then strip "alse" r
          else if is_quote c then scan_chars r
          else if Ascii.eqb c "["%char then
            match strip "]" (skip_space r) with
            | Some r' => Some r'
            | None =>
                match scan_value fuel r with
                | Some r1 => scan_elements fuel r1
                | None => None
                end
            end
          else if Ascii.eqb c "{"%char then
            match strip "}" (skip_space r) with
            | Some r' => Some r'
            | None =>
                match scan_key r with
                | Some r0 =>
                    match scan_value fuel r0 with
                    | Some r1 => scan_members fuel r1
                    | None => None
                    end
                | None => None
                end
            end
          else if Ascii.eqb c "-"%char then scan_number r
          else scan_number (String c r)
      end
  end

with scan_elements (fuel : nat) (s : string) : option string :=
  match fuel with
  | O => None
  | S fuel =>
      match skip_space s with
      | EmptyString => None
      | String c r =>
          if Ascii.eqb c "]"%char then Some r
          else if Ascii.eqb c ","%char then
            match scan_value fuel r with
            | Some r1 => scan_elements fuel r1
            | None => None
            end
          else None
      end
  end

with scan_members (fuel : nat) (s : string) : option string :=
  match fuel with
  | O => None
  | S fuel =>
      match skip_space s with
      | EmptyString => None
      | String c r =>
          if Ascii.eqb c "}"%char then Some r
          else if Ascii.eqb c ","%char then
            match scan_key r with
            | Some r0 =>
                match scan_value fuel r0 with
                | Some r1 => scan_members fuel r1
                | None => None
                end
            | None => None
            end
          else None
      end
  end.

(** One value, with white space around it, and nothing else.  Every call
    of the three functions above is on a shorter text, so the length of the
    text is fuel enough. *)
Definition well_formed (s : string) : bool :=
  match scan_value (S (String.length s)) s with
  | Some r => match skip_space r with EmptyString => true | String _ _ => false end
  | None => false
  end.

(** *** The texts that the reader reads as [JSON.parse] does

    A value is [plain] when its numbers are integers that a double holds
    exactly, its strings have no control character (which the writer of
    the platform escapes), and its objects have keys of their own, none
    beginning with a digit (an index, which the platform lists first).
    [faithful] holds of the compact text of a plain value: on such a text
    [JSON.parse] gives the value that the reader gives. *)

Definition MAX_SAFE_INTEGER : Z := 9007199254740991.

Definition is_control (c : ascii) : bool := (Ascii.nat_of_ascii c <? 32)%nat.

Fixpoint plain_string (s : string) : bool :=
  match s with
  | EmptyString => true
  | String c r => negb (is_control c) && plain_string r
  end.

Definition plain_key (s : string) : bool :=
  plain_string s && negb (starts_with_digit s).

Fixpoint plain (j : Json) : bool :=
  match j with
  | JNull | JBool _ => true
  | JNum z => Z.abs z <=? MAX_SAFE_INTEGER
  | JStr s => plain_string s
  | JArr l => forallb plain l
  | JObj m =>
      bool_decide (NoDup (map fst m))
      && forallb (fun kv => plain_key (fst kv) && plain (snd kv)) m
  end.

Definition faithful (s : string) : bool :=
  match parse s with
  | Some j => plain j && String.eqb (stringify j) s
  | None => false
  end.

(** *** Reading a value: property access and truthiness *)

(** [o.name]; [None] is [undefined]. *)
Fixpoint assoc {A} (name : string) (m : list (string * A)) : option A :=
  match m with
  | [] => None
  | (k, v) :: m' => if String.eqb k name then Some v else assoc name m'
  end.

Definition field (name : string) (j : Json) : option Json :=
  match j with
  | JObj m => assoc name m
  | _ => None
  end.

End JSON.
Import JSON.


(** ** The platform: values read back from JSON

    TypeScript casts what [JSON.parse] returns to the type the caller
    expects and checks nothing.  [Encodable T] is the JSON shape of [T];
    a value read back is [Typed] when it has that shape and [Untyped]
    otherwise.  The services use an untyped value as it is: in the model
    its first use as a [T] is a [TypeError], which is what the source does
    when the value is not an object (or, for the queue, not iterable); an
    object or array with a member of another shape is outside the model. *)

Class Encodable (T : Type) : Type := {
  to_json : T -> Json;
  of_json : Json -> option T
}.

Inductive Dyn (T : Type) : Type :=
| Typed (t : T)
| Untyped (j : Json).
Arguments Typed {T} t.
Arguments Untyped {T} j.

Definition revive {T} `{Encodable T} (j : Json) : Dyn T :=
  match of_json j with
  | Some t => Typed t
  | None => Untyped j
  end.

(** The use of a value read back as a [T]; [complaint] is the message of
    the [TypeError] of that use. *)
Definition use {S T} (complaint : string) (d : Dyn T) : M S T :=
  match d with
  | Typed t => ret t
  | Untyped _ => throw (TypeError complaint)
  end.

(** A JavaScript object used as a table, in insertion order (the keys of
    the services are not array indices, which JavaScript would list
    first, nor names that every object inherits, such as [__proto__]). *)
Definition Table (T : Type) : Type := list (string * T).

(** [cache[key] = value]: in place when the key is there, appended
    otherwise. *)
Fixpoint table_set {T} (key : string) (value : T) (cache : Table T) : Table T :=
  match cache with
  | [] => [(key, value)]
  | (k, v) :: cache' =>
      if String.eqb k key then (k, value) :: cache'
      else (k, v) :: table_set key value cache'
  end.

(** [delete cache[key]] *)
Definition table_delete {T} (key : string) (cache : Table T) : Table T :=
  List.filter (fun kv => negb (String.eqb (fst kv) key)) cache.

(** All or nothing: the values of a list of options. *)
Fixpoint sequence {A} (l : list (option A)) : option (list A) :=
  match l with
  | [] => Some []
  | Some a :: l' => match sequence l' with Some r => Some (a :: r) | None => None end
  | None :: _ => None
  end.

Definition json_of_list {T} `{Encodable T} (l : list T) : Json :=
  JArr (map to_json l).

Definition list_of_json {T} `{Encodable T} (j : Json) : option (list T) :=
  match j with
  | JArr l => sequence (map of_json l)
  | _ => None
  end.

Definition json_of_table {T} `{Encodable T} (t : Table T) : Json :=
  JObj (map (fun kv => (fst kv, to_json (snd kv))) t).

Definition table_of_json {T} `{Encodable T} (j : Json) : option (Table T) :=
  match j with
  | JObj m =>
      sequence (map (fun kv => match of_json (snd kv) with
                               | Some v => Some (fst kv, v)
                               | None => None
                               end) m)
  | _ => None
  end.

#[export] Instance Encodable_list {T} `{Encodable T} : Encodable (list T) :=
  {| to_json := json_of_list; of_json := list_of_json |}.

#[export] Instance Encodable_table {T} `{Encodable T} : Encodable (Table T) :=
  {| to_json := json_of_table; of_json := table_of_json |}.

(** A payload the services never look into (a post, a profile update). *)
#[export] Instance Encodable_json : Encodable Json :=
  {| to_json := fun j => j; of_json := Some |}.

(** ** The platform: [localStorage]

    A map from keys to texts.  The store may refuse a call: [readFault]
    makes [getItem] throw (storage disabled) and [writeFault] makes
    [setItem] throw (quota exceeded). *)

Record LocalStorage := mkLocalStorage {
  items : gmap string string;
  readFault : bool;
  writeFault : bool
}.

Definition getItem (key : string) : M LocalStorage (option string) :=
  fun ls => if readFault ls
            then (Throw (mkExn "SecurityError" "localStorage is not available"), ls)
            else (Ok (items ls !! key), ls).

Definition setItem (key value : string) : M LocalStorage unit :=
  fun ls => if writeFault ls
            then (Throw (mkExn "QuotaExceededError" "localStorage is full"), ls)
            else (Ok tt, mkLocalStorage (<[key := value]> (items ls))
                           (readFault ls) (writeFault ls)).

(** [removeItem] has no quota to exceed: it throws only when the storage
    is disabled. *)
Definition removeItem (key : string) : M LocalStorage unit :=
  fun ls => if readFault ls
            then (Throw (mkExn "SecurityError" "localStorage is not available"), ls)
            else (Ok tt, mkLocalStorage (delete key (items ls))
                           (readFault ls) (writeFault ls)).

(** [text ? JSON.parse(text) : fallback]: the empty text is falsy. *)
Definition truthy_text (text : option string) : option string :=
  match text with
  | Some EmptyString => None
  | other => other
  end.

(** [JSON.parse(text)], throwing [SyntaxError] on a text that is not JSON. *)
Definition JSON_parse {S} (text : string) : M S Json :=
  match JSON.parse text with
  | Some j => ret j
  | None => throw (SyntaxError "Unexpected token in JSON")
  end.

(** [if (value)] on a property that may be missing. *)
Definition truthy (v : option Json) : bool :=
  match v with
  | None | Some JNull | Some (JBool false) | Some (JNum 0) | Some (JStr EmptyString) => false
  | Some _ => true
  end.

(** ** The backend: [AuthService.updateProfile]

    What the awaited calls of a drain do is given by a [Backend]: whether
    the lazily imported [AuthService] module loads, whether a user is signed
    in, and the outcome of the two Firebase writes. *)

Record Backend := mkBackend {
  authModuleLoads : bool;
  currentUser : bool;
  firebaseUpdateProfile : option Json -> option Json -> option Exn;
  setDoc : option Json -> Json -> option Exn
}.

Definition await {S} (outcome : option Exn) : M S unit :=
  match outcome with
  | None => ret tt
  | Some e => throw e
  end.

(** [const { AuthService } = await import('./AuthService')] *)
Definition import_AuthService {S} (b : Backend) : M S unit :=
  if authModuleLoads b then ret tt
  else throw (mkExn "ChunkLoadError" "Loading chunk failed").

Module AuthService.

Definition updateProfile {S} (b : Backend) (userId updates : option Json) : M S unit :=
  if negb (currentUser b) then throw (Error "No hay usuario autenticado")
  else
    match updates with
    | None | Some JNull =>
        throw (TypeError "Cannot read properties of undefined (reading 'displayName')")
    | Some u =>
        (if truthy (field "displayName" u) || truthy (field "photoURL" u)
         then await (firebaseUpdateProfile b (field "displayName" u) (field "photoURL" u))
         else ret tt) ;;;
        await (setDoc b userId u)
    end.

End AuthService.

(** [const { a, b } = value]: throws on [null]. *)
Definition destructure {S} (value : Json) (name : string) : M S (option Json) :=
  match value with
  | JNull => throw (TypeError "Cannot destructure property of null")
  | _ => ret (field name value)
  end.

(** ** OfflineQueueService.ts *)

Module QueuedOperation.
Record t := mk {
  id : string;
  type : string;
  data : Json;
  timestamp : Z;
  retryCount : Z
}.

Definition encode (op : t) : Json :=
  JObj [("id", JStr (id op)); ("type", JStr (type op)); ("data", data op);
        ("timestamp", JNum (timestamp op)); ("retryCount", JNum (retryCount op))].

Definition decode (j : Json) : option t :=
  match field "id" j, field "type" j, field "data" j,
        field "timestamp" j, field "retryCount" j with
  | Some (JStr i), Some (JStr ty), Some d, Some (JNum ts), Some (JNum rc) =>
      Some (mk i ty d ts rc)
  | _, _, _, _, _ => None
  end.

#[export] Instance encodable : Encodable t := {| to_json := encode; of_json := decode |}.

(** [queuedOperation.retryCount++] *)
Definition incrementRetryCount (op : t) : t :=
  mk (id op) (type op) (data op) (timestamp op) (retryCount op + 1).
End QueuedOperation.
Export (hints) QueuedOperation.

Module OfflineStatus.
Record t := mk {
  isOnline : bool;
  lastOnlineTime : option Z;
  (** [this.queue.length]; [None] is [undefined], the length of a queue
      that is not an array. *)
  queuedOperations : option Z
}.
End OfflineStatus.

Module OfflineQueueService.

Definition STORAGE_KEY : string := "alerta_ilo_offline_queue".
Definition MAX_RETRY_COUNT : Z := 3.

(** [executeOperation] does not touch the fields of the service: it is
    stated on any state. *)
Definition executeOperation {S} (b : Backend) (operation : QueuedOperation.t) : M S unit :=
  import_AuthService b ;;;
  if String.eqb (QueuedOperation.type operation) "CREATE_REPORT" then ret tt
  else if String.eqb (QueuedOperation.type operation) "UPDATE_PROFILE" then
    userId <~ destructure (QueuedOperation.data operation) "userId" ;;
    updates <~ destructure (QueuedOperation.data operation) "updates" ;;
    AuthService.updateProfile b userId updates
  else if String.eqb (QueuedOperation.type operation) "DELETE_REPORT" then ret tt
  else throw (Error ("Tipo de operación no soportado: " +:+ QueuedOperation.type operation)).

Section Service.
(** What the subscribed listeners hold, and what calling each of them
    with a status does to it (a listener that throws is caught and
    skipped by [notifyListeners]). *)
Context {L : Type}.
Variable listeners : OfflineStatus.t -> L -> L.

Record State := mkState {
  queue : Dyn (list QueuedOperation.t);
  isOnline : bool;
  processingQueue : bool;
  localStorage : LocalStorage;
  subscribers : L
}.

Definition set_queue (q : Dyn (list QueuedOperation.t)) : M State unit :=
  modify (fun st => mkState q (isOnline st) (processingQueue st)
                      (localStorage st) (subscribers st)).

Definition set_processingQueue (b : bool) : M State unit :=
  modify (fun st => mkState (queue st) (isOnline st) b
                      (localStorage st) (subscribers st)).

Definition set_localStorage (ls : LocalStorage) (st : State) : State :=
  mkState (queue st) (isOnline st) (processingQueue st) ls (subscribers st).

Definition set_subscribers (l : L) (st : State) : State :=
  mkState (queue st) (isOnline st) (processingQueue st) (localStorage st) l.

(** [this.queue.length] *)
Definition queue_length (q : Dyn (list QueuedOperation.t)) : M State (option Z) :=
  match q with
  | Typed ops => ret (Some (Z.of_nat (length ops)))
  | Untyped JNull => throw (TypeError "Cannot read properties of null (reading 'length')")
  | Untyped _ => ret None
  end.

Definition length_or_undefined (q : Dyn (list QueuedOperation.t)) : option Z :=
  match q with
  | Typed ops => Some (Z.of_nat (length ops))
  | Untyped _ => None
  end.

(** [JSON.stringify(this.queue)] *)
Definition queue_text (q : Dyn (list QueuedOperation.t)) : string :=
  match q with
  | Typed ops => JSON.stringify (to_json ops)
  | Untyped j => JSON.stringify j
  end.

Definition loadQueueFromStorage : M State unit :=
  try_catch
    (storedQueue <~ zoom localStorage set_localStorage (getItem STORAGE_KEY) ;;
     match truthy_text storedQueue with
     | Some text =>
         j <~ JSON_parse text ;;
         set_queue (revive j) ;;;
         _ <~ queue_length (revive j) ;;
         ret tt
     | None => ret tt
     end)
    (fun error => set_queue (Typed [])).

Definition saveQueueToStorage : M State unit :=
  try_catch
    (q <~ gets queue ;;
     zoom localStorage set_localStorage (setItem STORAGE_KEY (queue_text q)))
    (fun error => ret tt).

(** [new OfflineQueueService()]: the field initialisers, then the
    constructor body ([initializeOfflineDetection] only registers
    handlers). *)
Definition new (navigator_onLine : bool) (ls : LocalStorage) (subs : L)
  : result unit * State :=
  loadQueueFromStorage (mkState (Typed []) navigator_onLine false ls subs).

Definition getStatus (now : Z) (st : State) : OfflineStatus.t :=
  OfflineStatus.mk (isOnline st)
    (if isOnline st then Some now else None)
    (length_or_undefined (queue st)).

Definition notifyListeners (now : Z) : M State unit :=
  modify (fun st => set_subscribers (listeners (getStatus now st) (subscribers st)) st).

Definition has_id (i : string) (op : QueuedOperation.t) : bool :=
  String.eqb (QueuedOperation.id op) i.

(** [this.queue.filter(op => op.id !== id)] *)
Definition without (i : string) (ops : list QueuedOperation.t) : list QueuedOperation.t :=
  List.filter (fun op => negb (has_id i op)) ops.

(** [this.queue.find(op => op.id === id)] *)
Definition find_op (i : string) (ops : list QueuedOperation.t) : option QueuedOperation.t :=
  List.find (has_id i) ops.

(** The object [find] returned is the one in the queue: incrementing
    its counter changes the first entry with that id, in place. *)
Fixpoint increment_found (i : string) (ops : list QueuedOperation.t)
  : list QueuedOperation.t :=
  match ops with
  | [] => []
  | op :: ops' =>
      if has_id i op then QueuedOperation.incrementRetryCount op :: ops'
      else op :: increment_found i ops'
  end.

(** The body of the loop of [processQueue], for one operation. *)
Definition processOne (b : Backend) (operation : QueuedOperation.t) : M State unit :=
  try_catch
    (executeOperation b operation ;;;
     q <~ gets queue ;; ops <~ use "this.queue.filter is not a function" q ;;
     set_queue (Typed (without (QueuedOperation.id operation) ops)))
    (fun error =>
       q <~ gets queue ;; ops <~ use "this.queue.find is not a function" q ;;
       match find_op (QueuedOperation.id operation) ops with
       | Some queuedOperation =>
           set_queue (Typed (increment_found (QueuedOperation.id operation) ops)) ;;;
           if QueuedOperation.retryCount queuedOperation + 1 >=? MAX_RETRY_COUNT
           then set_queue (Typed (without (QueuedOperation.id operation)
                                    (increment_found (QueuedOperation.id operation) ops)))
           else ret tt
       | None => ret tt
       end).

(** The queue in memory is never [null] ([loadQueueFromStorage] replaces
    a [null] by the empty queue), so [this.queue.length] does not throw
    here nor in [getStatus]. *)
Definition processQueue (b : Backend) (now : Z) : M State unit :=
  st <~ get ;;
  if negb (isOnline st) || processingQueue st
     || bool_decide (length_or_undefined (queue st) = Some 0)
  then ret tt
  else
    set_processingQueue true ;;;
    q <~ gets queue ;; operationsToProcess <~ use "this.queue is not iterable" q ;;
    for_each operationsToProcess (processOne b) ;;;
    saveQueueToStorage ;;;
    notifyListeners now ;;;
    set_processingQueue false.

(** [addToQueue] and the drain it starts when online, run to its end;
    [random] is [Math.random().toString(36).substr(2, 9)].  The call itself
    returns before that drain has made its first backend call: that
    moment is [addToQueue_returns] below. *)
Definition addToQueue (type : string) (data : Json) (random : string) (b : Backend) (now : Z)
  : M State string :=
  let operation :=
    QueuedOperation.mk (JSON.emit_Z now EmptyString +:+ "_" +:+ random) type data now 0 in
  q <~ gets queue ;; ops <~ use "this.queue.push is not a function" q ;;
  set_queue (Typed (ops ++ [operation])%list) ;;;
  saveQueueToStorage ;;;
  notifyListeners now ;;;
  st <~ get ;;
  (if isOnline st then processQueue b now else ret tt) ;;;
  ret (QueuedOperation.id operation).

(** What a caller that does not await [processQueue] finds when the call
    returns.  An [async] method runs up to its first [await], here the one
    of [executeOperation] for the first operation: the guard has been
    tested, the flag is set and the queue has been copied.  An exception
    of that stretch rejects a promise that nobody holds. *)
Definition processQueue_begins : M State unit :=
  detached
    (st <~ get ;;
     if negb (isOnline st) || processingQueue st
        || bool_decide (length_or_undefined (queue st) = Some 0)
     then ret tt
     else
       set_processingQueue true ;;;
       q <~ gets queue ;; _ <~ use "this.queue is not iterable" q ;;
       ret tt).

(** The rest of that drain, on the operations it copied, when nothing
    else has run on the service in between. *)
Definition processQueue_resumes (b : Backend) (now : Z)
    (operationsToProcess : list QueuedOperation.t) : M State unit :=
  for_each operationsToProcess (processOne b) ;;;
  saveQueueToStorage ;;;
  notifyListeners now ;;;
  set_processingQueue false.

(** [addToQueue] up to its [return]. *)
Definition addToQueue_returns (type : string) (data : Json) (random : string) (now : Z)
  : M State string :=
  let operation :=
    QueuedOperation.mk (JSON.emit_Z now EmptyString +:+ "_" +:+ random) type data now 0 in
  q <~ gets queue ;; ops <~ use "this.queue.push is not a function" q ;;
  set_queue (Typed (ops ++ [operation])%list) ;;;
  saveQueueToStorage ;;;
  notifyListeners now ;;;
  st <~ get ;;
  (if isOnline st then processQueue_begins else ret tt) ;;;
  ret (QueuedOperation.id operation).

Definition clearQueue (now : Z) : M State unit :=
  set_queue (Typed []) ;;;
  saveQueueToStorage ;;;
  notifyListeners now.

(** The handlers [initializeOfflineDetection] registers for the events
    [online] and [offline] of the window. *)
Definition onOnline (b : Backend) (now : Z) : M State unit :=
  modify (fun st => mkState (queue st) true (processingQueue st)
                      (localStorage st) (subscribers st)) ;;;
  notifyListeners now ;;;
  processQueue b now.

Definition onOffline (now : Z) : M State unit :=
  modify (fun st => mkState (queue st) false (processingQueue st)
                      (localStorage st) (subscribers st)) ;;;
  notifyListeners now.

Definition getPendingOperations : M State (list QueuedOperation.t) :=
  q <~ gets queue ;; use "this.queue is not iterable" q.

Definition removeFromQueue (operationId : string) (now : Z) : M State bool :=
  q <~ gets queue ;; ops <~ use "this.queue.filter is not a function" q ;;
  set_queue (Typed (without operationId ops)) ;;;
  if (length (without operationId ops) <? length ops)%nat
  then saveQueueToStorage ;;; notifyListeners now ;;; ret true
  else ret false.

Definition forceProcessQueue (b : Backend) (now : Z) : M State unit :=
  st <~ get ;;
  if isOnline st then processQueue b now else ret tt.

(** [checkConnectionStatus], which a timer calls every 30 seconds;
    [probe] is the outcome of the [fetch] of the favicon. *)
Definition checkConnectionStatus (probe : option Exn) (b : Backend) (now : Z) : M State unit :=
  try_catch
    (await probe ;;;
     st <~ get ;;
     let wasOffline := negb (isOnline st) in
     modify (fun st => mkState (queue st) true (processingQueue st)
                         (localStorage st) (subscribers st)) ;;;
     if wasOffline then
       notifyListeners now ;;;
       detached (processQueue b now)
     else ret tt)
    (fun error =>
       st <~ get ;;
       if isOnline st then
         modify (fun st => mkState (queue st) false (processingQueue st)
                             (localStorage st) (subscribers st)) ;;;
         notifyListeners now
       else ret tt).

End Service.
Arguments State : clear implicits.

End OfflineQueueService.

(** ** CacheService.ts *)

(** [Array.prototype.sort(compare)]: stable, ascending by [compare]. *)
Fixpoint insert_sorted {A} (compare : A -> A -> Z) (x : A) (l : list A) : list A :=
  match l with
  | [] => [x]
  | y :: l' => if compare x y <=? 0 then x :: y :: l' else y :: insert_sorted compare x l'
  end.

Definition sort {A} (compare : A -> A -> Z) (l : list A) : list A :=
  foldr (insert_sorted compare) [] l.

(** [value || 0] on a number. *)
Definition or_zero (value : Z) : Z := if value =? 0 then 0 else value.

(** The entries with a [timestamp] property. *)
Class Timestamped (T : Type) : Type := timestamp_of : T -> Z.

Module CacheEntry.
Record t := mk {
  data : list Json;
  timestamp : Z;
  expiresAt : Z;
  version : string
}.

Definition encode (e : t) : Json :=
  JObj [("data", JArr (data e)); ("timestamp", JNum (timestamp e));
        ("expiresAt", JNum (expiresAt e)); ("version", JStr (version e))].

Definition decode (j : Json) : option t :=
  match field "data" j, field "timestamp" j, field "expiresAt" j, field "version" j with
  | Some (JArr d), Some (JNum ts), Some (JNum ex), Some (JStr v) => Some (mk d ts ex v)
  | _, _, _, _ => None
  end.

#[export] Instance encodable : Encodable t := {| to_json := encode; of_json := decode |}.
#[export] Instance timestamped : Timestamped t := timestamp.
End CacheEntry.
Export (hints) CacheEntry.

Module QueryCache.
Record t := mk {
  key : string;
  posts : list Json;
  bounds : option Json;
  timestamp : Z;
  expiresAt : Z
}.

(** [JSON.stringify] leaves out a property that is [undefined]. *)
Definition encode (e : t) : Json :=
  JObj ([("key", JStr (key e)); ("posts", JArr (posts e))]
        ++ match bounds e with Some b => [("bounds", b)] | None => [] end
        ++ [("timestamp", JNum (timestamp e)); ("expiresAt", JNum (expiresAt e))]).

Definition decode (j : Json) : option t :=
  match field "key" j, field "posts" j, field "timestamp" j, field "expiresAt" j with
  | Some (JStr k), Some (JArr p), Some (JNum ts), Some (JNum ex) =>
      Some (mk k p (field "bounds" j) ts ex)
  | _, _, _, _ => None
  end.

#[export] Instance encodable : Encodable t := {| to_json := encode; of_json := decode |}.
#[export] Instance timestamped : Timestamped t := timestamp.
End QueryCache.
Export (hints) QueryCache.

Module Blob.
(** A [Blob] of some size, or the empty object that [JSON.parse] gives
    back for a [Blob] that went through [JSON.stringify]. *)
Inductive t := Data (size : Z) | Revived.
End Blob.

Module ImageCacheEntry.
Record t := mk {
  url : string;
  blob : Blob.t;
  timestamp : Z;
  size : Z
}.

Definition encode (e : t) : Json :=
  JObj [("url", JStr (url e)); ("blob", JObj []);
        ("timestamp", JNum (timestamp e)); ("size", JNum (size e))].

Definition decode (j : Json) : option t :=
  match field "url" j, field "blob" j, field "timestamp" j, field "size" j with
  | Some (JStr u), Some _, Some (JNum ts), Some (JNum sz) => Some (mk u Blob.Revived ts sz)
  | _, _, _, _ => None
  end.

#[export] Instance encodable : Encodable t := {| to_json := encode; of_json := decode |}.
End ImageCacheEntry.
Export (hints) ImageCacheEntry.

(** The IndexedDB object store [images], keyed by [url]; [openFault] makes
    [indexedDB.open] throw. *)
Record IndexedDB := mkIndexedDB {
  images : gmap string ImageCacheEntry.t;
  openFault : bool
}.

(** [fetch(url)]: the request may be rejected, and so may reading the body
    ([response.blob()]), which is a [Blob] of some size otherwise. *)
Record Response := mkResponse {
  ok : bool;
  status : Z;
  body : result Z
}.

Definition Network : Type := string -> result Response.

Module CacheService.

Definition POSTS_CACHE_KEY : string := "spotshare_posts_cache".
Definition IMAGES_CACHE_KEY : string := "spotshare_images_cache".
Definition QUERIES_CACHE_KEY : string := "spotshare_queries_cache".
Definition USER_POSTS_CACHE_KEY : string := "spotshare_user_posts_cache".

Record CacheConfig := mkCacheConfig {
  maxAge : Z;
  maxSize : Z;
  version : string
}.

Definition DEFAULT_CACHE_CONFIG : CacheConfig := mkCacheConfig (5 * 60 * 1000) 1000 "1.0.0".
Definition POSTS_CONFIG : CacheConfig := mkCacheConfig (2 * 60 * 1000) 500 "1.0.0".
Definition QUERIES_CONFIG : CacheConfig := mkCacheConfig (1 * 60 * 1000) 50 "1.0.0".

Module IMAGES_CONFIG.
Definition maxAge : Z := 24 * 60 * 60 * 1000.
Definition maxSize : Z := 50 * 1024 * 1024.
Definition maxEntries : Z := 100.
End IMAGES_CONFIG.

Record State := mkState {
  localStorage : LocalStorage;
  indexedDB : IndexedDB
}.

Definition set_localStorage (ls : LocalStorage) (st : State) : State :=
  mkState ls (indexedDB st).

Definition localStorage_getItem (key : string) : M State (option string) :=
  zoom localStorage set_localStorage (getItem key).

Definition localStorage_setItem (key value : string) : M State unit :=
  zoom localStorage set_localStorage (setItem key value).

(** *** Private utilities *)

(** [getPostsCache], [getImagesCache] and [getQueriesCache] are one
    function up to the key and the type of the entries. *)
Definition getCache {T} `{Encodable T} (storageKey : string) : M State (Dyn (Table T)) :=
  try_catch
    (cached <~ localStorage_getItem storageKey ;;
     match truthy_text cached with
     | Some text => j <~ JSON_parse text ;; ret (revive j)
     | None => ret (Typed [])
     end)
    (fun _ => ret (Typed [])).

Definition getPostsCache : M State (Dyn (Table CacheEntry.t)) := getCache POSTS_CACHE_KEY.
Definition getImagesCache : M State (Dyn (Table ImageCacheEntry.t)) := getCache IMAGES_CACHE_KEY.
Definition getQueriesCache : M State (Dyn (Table QueryCache.t)) := getCache QUERIES_CACHE_KEY.

Definition limitCacheSize {T} `{Timestamped T} (cache : Table T) (maxSize : Z) : Table T :=
  let entries := cache in
  if Z.of_nat (length entries) >? maxSize then
    let sortedEntries :=
      sort (fun a b => or_zero (timestamp_of (snd a)) - or_zero (timestamp_of (snd b)))
           entries in
    let toRemove := take (Z.to_nat (Z.of_nat (length entries) - maxSize)) sortedEntries in
    foldl (fun cache kv => table_delete (fst kv) cache) cache toRemove
  else cache.

Definition deleteImageFromIndexedDB (url : string) : M State unit :=
  modify (fun st =>
    if openFault (indexedDB st) then st
    else mkState (localStorage st)
           (mkIndexedDB (delete url (images (indexedDB st))) (openFault (indexedDB st)))).

Definition saveImageToIndexedDB (url : string) (entry : ImageCacheEntry.t) : M State unit :=
  modify (fun st =>
    if openFault (indexedDB st) then st
    else mkState (localStorage st)
           (mkIndexedDB (<[ImageCacheEntry.url entry := entry]> (images (indexedDB st)))
                        (openFault (indexedDB st)))).

(** The loop of [limitImageCacheSize]. *)
Fixpoint evictOldest (sortedEntries : list ImageCacheEntry.t) (currentSize currentCount : Z)
    (cache : Table ImageCacheEntry.t) : M State (Table ImageCacheEntry.t) :=
  match sortedEntries with
  | [] => ret cache
  | entry :: rest =>
      if (currentSize <=? IMAGES_CONFIG.maxSize) && (currentCount <=? IMAGES_CONFIG.maxEntries)
      then ret cache
      else
        deleteImageFromIndexedDB (ImageCacheEntry.url entry) ;;;
        evictOldest rest (currentSize - ImageCacheEntry.size entry) (currentCount - 1)
          (table_delete (ImageCacheEntry.url entry) cache)
  end.

Definition limitImageCacheSize (cache : Table ImageCacheEntry.t)
  : M State (Table ImageCacheEntry.t) :=
  let entries := map snd cache in
  let totalSize := foldl (fun sum entry => sum + ImageCacheEntry.size entry) 0 entries in
  if (totalSize >? IMAGES_CONFIG.maxSize)
     || (Z.of_nat (length entries) >? IMAGES_CONFIG.maxEntries)
  then
    let sortedEntries :=
      sort (fun a b => ImageCacheEntry.timestamp a - ImageCacheEntry.timestamp b) entries in
    evictOldest sortedEntries totalSize (Z.of_nat (length entries)) cache
  else ret cache.

(** *** Posts *)

Definition cachePosts (posts : list Json) (cacheKey : string) (now : Z) : M State unit :=
  try_catch
    (let cacheEntry :=
       CacheEntry.mk posts now (now + maxAge POSTS_CONFIG) (version POSTS_CONFIG) in
     stored <~ getPostsCache ;; cache <~ use "Cannot read properties of null" stored ;;
     let cache := table_set cacheKey cacheEntry cache in
     let cache := limitCacheSize cache (maxSize POSTS_CONFIG) in
     localStorage_setItem POSTS_CACHE_KEY (JSON.stringify (to_json cache)))
    (fun error => ret tt).

Definition getCachedPosts (cacheKey : string) (now : Z) : M State (option (list Json)) :=
  try_catch
    (stored <~ getPostsCache ;; cache <~ use "Cannot read properties of null" stored ;;
     match assoc cacheKey cache with
     | None => ret None
     | Some entry =>
         if now >? CacheEntry.expiresAt entry then
           localStorage_setItem POSTS_CACHE_KEY
             (JSON.stringify (to_json (table_delete cacheKey cache))) ;;;
           ret None
         else if negb (String.eqb (CacheEntry.version entry) (version POSTS_CONFIG)) then
           localStorage_setItem POSTS_CACHE_KEY
             (JSON.stringify (to_json (table_delete cacheKey cache))) ;;;
           ret None
         else ret (Some (CacheEntry.data entry))
     end)
    (fun error => ret None).

Definition default_cacheKey : string := "all_posts".

Definition cacheUserPosts (userId : string) (posts : list Json) (now : Z) : M State unit :=
  cachePosts posts ("user_" +:+ userId) now.

Definition getCachedUserPosts (userId : string) (now : Z) : M State (option (list Json)) :=
  getCachedPosts ("user_" +:+ userId) now.

(** *** Images *)

Definition getCachedImageBlob (url : string) (now : Z) : M State (option Blob.t) :=
  try_catch
    (stored <~ getImagesCache ;; cache <~ use "Cannot read properties of null" stored ;;
     match assoc url cache with
     | None => ret None
     | Some entry =>
         if now - ImageCacheEntry.timestamp entry >? IMAGES_CONFIG.maxAge then
           deleteImageFromIndexedDB url ;;; ret None
         else ret (Some (ImageCacheEntry.blob entry))
     end)
    (fun error => ret None).

Definition fetch (net : Network) (url : string) : M State Response :=
  match net url with
  | Ok response => ret response
  | Throw e => throw e
  end.

Definition response_blob (response : Response) : M State Blob.t :=
  match body response with
  | Ok size => ret (Blob.Data size)
  | Throw e => throw e
  end.

(** [blob.size] *)
Definition blob_size (blob : Blob.t) : Z :=
  match blob with
  | Blob.Data size => size
  | Blob.Revived => 0
  end.

Definition cacheImage (net : Network) (url : string) (now : Z) : M State unit :=
  try_catch
    (if String.prefix "blob:" url then ret tt
     else
       cached <~ getCachedImageBlob url now ;;
       match cached with
       | Some _ => ret tt
       | None =>
           response <~ fetch net url ;;
           (if ok response then ret tt
            else throw (Error ("HTTP " +:+ JSON.emit_Z (status response) EmptyString))) ;;;
           blob <~ response_blob response ;;
           let imageEntry := ImageCacheEntry.mk url blob now (blob_size blob) in
           stored <~ getImagesCache ;; cache <~ use "Cannot read properties of null" stored ;;
           let cache := table_set url imageEntry cache in
           _ <~ limitImageCacheSize cache ;;
           saveImageToIndexedDB url imageEntry
       end)
    (fun error => ret tt).

(** *** Queries *)

Definition cacheQuery (queryKey : string) (posts : list Json) (bounds : option Json)
    (now : Z) : M State unit :=
  try_catch
    (let queryEntry :=
       QueryCache.mk queryKey posts bounds now (now + maxAge QUERIES_CONFIG) in
     stored <~ getQueriesCache ;; cache <~ use "Cannot read properties of null" stored ;;
     let cache := table_set queryKey queryEntry cache in
     let cache := limitCacheSize cache (maxSize QUERIES_CONFIG) in
     localStorage_setItem QUERIES_CACHE_KEY (JSON.stringify (to_json cache)))
    (fun error => ret tt).

Definition getCachedQuery (queryKey : string) (now : Z) : M State (option (list Json)) :=
  try_catch
    (stored <~ getQueriesCache ;; cache <~ use "Cannot read properties of null" stored ;;
     match assoc queryKey cache with
     | None => ret None
     | Some entry =>
         if now >? QueryCache.expiresAt entry then
           localStorage_setItem QUERIES_CACHE_KEY
             (JSON.stringify (to_json (table_delete queryKey cache))) ;;;
           ret None
         else ret (Some (QueryCache.posts entry))
     end)
    (fun error => ret None).

(** *** Invalidation, sweep and statistics *)

Definition localStorage_removeItem (key : string) : M State unit :=
  zoom localStorage set_localStorage (removeItem key).

(** [invalidatePostsCache(cacheKey?)]; [if (cacheKey)] takes the empty key
    for a missing one. *)
Definition invalidatePostsCache (cacheKey : option string) : M State unit :=
  try_catch
    (match truthy_text cacheKey with
     | Some cacheKey =>
         stored <~ getPostsCache ;; cache <~ use "Cannot convert null to object" stored ;;
         localStorage_setItem POSTS_CACHE_KEY
           (JSON.stringify (to_json (table_delete cacheKey cache)))
     | None => localStorage_removeItem POSTS_CACHE_KEY
     end)
    (fun error => ret tt).

(** [URL.createObjectURL(blob)]: [made] is the address it makes for a
    [Blob]; what [JSON.parse] gives back for a blob is not one. *)
Definition createObjectURL (made : string) (blob : Blob.t) : M State string :=
  match blob with
  | Blob.Data _ => ret made
  | Blob.Revived =>
      throw (TypeError "Failed to execute 'createObjectURL' on 'URL': Overload resolution failed.")
  end.

Definition getCachedImageUrl (made : string) (url : string) (now : Z)
  : M State (option string) :=
  blob <~ getCachedImageBlob url now ;;
  match blob with
  | None => ret None
  | Some blob => address <~ createObjectURL made blob ;; ret (Some address)
  end.

(** [Object.keys(cache).forEach(key => { if (expired(cache[key])) {
    delete cache[key]; dropped(key) } })] *)
Fixpoint sweep {T} (expired : T -> bool) (dropped : string -> M State unit)
    (keys : list string) (cache : Table T) : M State (Table T) :=
  match keys with
  | [] => ret cache
  | key :: keys' =>
      match assoc key cache with
      | Some entry =>
          if expired entry then
            dropped key ;;;
            sweep expired dropped keys' (table_delete key cache)
          else sweep expired dropped keys' cache
      | None => throw (TypeError "Cannot read properties of undefined")
      end
  end.

(** [cleanExpiredEntries]: no [try] around it. *)
Definition cleanExpiredEntries (now : Z) : M State unit :=
  stored <~ getPostsCache ;;
  postsCache <~ use "Cannot convert undefined or null to object" stored ;;
  postsCache <~ sweep (fun entry => now >? CacheEntry.expiresAt entry)
                  (fun key => ret tt) (map fst postsCache) postsCache ;;
  localStorage_setItem POSTS_CACHE_KEY (JSON.stringify (to_json postsCache)) ;;;
  stored <~ getImagesCache ;;
  imagesCache <~ use "Cannot convert undefined or null to object" stored ;;
  imagesCache <~ sweep (fun entry => now - ImageCacheEntry.timestamp entry
                                     >? IMAGES_CONFIG.maxAge)
                   deleteImageFromIndexedDB (map fst imagesCache) imagesCache ;;
  localStorage_setItem IMAGES_CACHE_KEY (JSON.stringify (to_json imagesCache)) ;;;
  stored <~ getQueriesCache ;;
  queriesCache <~ use "Cannot convert undefined or null to object" stored ;;
  queriesCache <~ sweep (fun entry => now >? QueryCache.expiresAt entry)
                    (fun key => ret tt) (map fst queriesCache) queriesCache ;;
  localStorage_setItem QUERIES_CACHE_KEY (JSON.stringify (to_json queriesCache)).

(** [new CacheService()]: [initializeCache] sweeps once and sets the
    timer of the later sweeps. *)
Definition new (ls : LocalStorage) (db : IndexedDB) (now : Z) : result unit * State :=
  cleanExpiredEntries now (mkState ls db).

(** [indexedDB.deleteDatabase(name)]; the images are in the database
    [AlertaIloImageCache], the one [saveImageToIndexedDB] and
    [deleteImageFromIndexedDB] open. *)
Definition IMAGE_DATABASE : string := "AlertaIloImageCache".

Definition indexedDB_deleteDatabase (name : string) : M State unit :=
  fun st =>
    if openFault (indexedDB st)
    then (Throw (mkExn "SecurityError" "IndexedDB is not available"), st)
    else if String.eqb name IMAGE_DATABASE
    then (Ok tt, mkState (localStorage st) (mkIndexedDB ∅ (openFault (indexedDB st))))
    else (Ok tt, st).

(** [clearAllCache]: no [try] around it either. *)
Definition clearAllCache : M State unit :=
  localStorage_removeItem POSTS_CACHE_KEY ;;;
  localStorage_removeItem IMAGES_CACHE_KEY ;;;
  localStorage_removeItem QUERIES_CACHE_KEY ;;;
  localStorage_removeItem USER_POSTS_CACHE_KEY ;;;
  indexedDB_deleteDatabase "SpotShareImageCache".

End CacheService.

(** ** BackgroundSyncService.ts *)

Module SyncStatus.
Record t := mk {
  isActive : bool;
  lastSyncTime : option Z;
  pendingOperations : option Z;
  syncInProgress : bool;
  errors : list string
}.
End SyncStatus.

Module SyncResult.
Record t := mk {
  success : bool;
  syncedOperations : Z;
  failedOperations : Z;
  errors : list string
}.
End SyncResult.

(** [{ success: boolean; error?: string }] *)
Module SyncOutcome.
Record t := mk {
  success : bool;
  error : option string
}.
End SyncOutcome.

(** What [getSyncMetrics] returns. *)
Module SyncMetrics.
Record t := mk {
  totalOperations : Z;
  successRate : Z;
  averageSyncTime : Z;
  lastErrors : list string
}.
End SyncMetrics.

(** [Promise.allSettled(batch.map(f))]: no call rejects the whole, and in
    the model the calls run one after the other, in the order of the batch. *)
Fixpoint allSettled {S A B} (f : A -> M S B) (batch : list A) : M S (list (result B)) :=
  match batch with
  | [] => ret []
  | x :: batch' =>
      r <~ (fun s => match f x s with (r, s') => (Ok r, s') end) ;;
      rs <~ allSettled f batch' ;;
      ret (r :: rs)
  end.

(** The slices [pendingOperations.slice(i, i + batchSize)] for
    [i = 0, batchSize, 2 * batchSize, ...]. *)
Fixpoint batches {A} (fuel : nat) (batchSize : nat) (l : list A) : list (list A) :=
  match fuel with
  | O => []
  | S fuel =>
      match l with
      | [] => []
      | _ => take batchSize l :: batches fuel batchSize (drop batchSize l)
      end
  end.

Module BackgroundSyncService.

Definition SYNC_INTERVAL : Z := 30 * 1000.
Definition MAX_RETRY_ATTEMPTS : Z := 3.
Definition RETRY_DELAY : Z := 5 * 1000.

(** The handle [setInterval] returns. *)
Inductive Timeout := timeout.

(** The fields of the service, and what its own listeners have received
    so far (the latest status last). *)
Record Fields := mkFields {
  syncInProgress : bool;
  syncInterval : option Timeout;
  lastSyncTime : option Z;
  errors : list string;
  received : list SyncStatus.t
}.

Definition startAutoSync (bs : Fields) : Fields :=
  mkFields (syncInProgress bs) (Some timeout) (lastSyncTime bs) (errors bs) (received bs).

Definition stopAutoSync (bs : Fields) : Fields :=
  mkFields (syncInProgress bs) None (lastSyncTime bs) (errors bs) (received bs).

(** [getStatus], given the status of the queue it asks for. *)
Definition status_of (offlineStatus : OfflineStatus.t) (bs : Fields) : SyncStatus.t :=
  SyncStatus.mk (bool_decide (syncInterval bs <> None)) (lastSyncTime bs)
    (OfflineStatus.queuedOperations offlineStatus) (syncInProgress bs) (errors bs).

Definition notify (offlineStatus : OfflineStatus.t) (bs : Fields) : Fields :=
  mkFields (syncInProgress bs) (syncInterval bs) (lastSyncTime bs) (errors bs)
    (received bs ++ [status_of offlineStatus bs]).

Definition positive_count (n : option Z) : bool :=
  match n with
  | Some n => n >? 0
  | None => false
  end.

(** The listener [initializeBackgroundSync] subscribes to the queue. *)
Definition onOfflineStatus (offlineStatus : OfflineStatus.t) (bs : Fields) : Fields :=
  notify offlineStatus
    (if OfflineStatus.isOnline offlineStatus
        && positive_count (OfflineStatus.queuedOperations offlineStatus)
     then startAutoSync bs
     else if negb (OfflineStatus.isOnline offlineStatus) then stopAutoSync bs
     else bs).

(** The two singletons: the queue, with the coordinator as the state its
    listener holds. *)
Definition World : Type := OfflineQueueService.State Fields.

Definition fields (w : World) : Fields := OfflineQueueService.subscribers w.

Definition update (f : Fields -> Fields) : M World unit :=
  modify (fun w => OfflineQueueService.set_subscribers (f (fields w)) w).

Definition set_syncInProgress (b : bool) : M World unit :=
  update (fun bs => mkFields b (syncInterval bs) (lastSyncTime bs) (errors bs) (received bs)).

Definition set_lastSyncTime (t : Z) : M World unit :=
  update (fun bs => mkFields (syncInProgress bs) (syncInterval bs) (Some t) (errors bs)
                      (received bs)).

Definition set_errors (errs : list string) : M World unit :=
  update (fun bs => mkFields (syncInProgress bs) (syncInterval bs) (lastSyncTime bs) errs
                      (received bs)).

Definition offlineQueue_getStatus (now : Z) (w : World) : OfflineStatus.t :=
  OfflineQueueService.getStatus now w.

Definition offlineQueue_getPendingOperations : M World (list QueuedOperation.t) :=
  OfflineQueueService.getPendingOperations.

Definition offlineQueue_removeFromQueue (operationId : string) (now : Z) : M World bool :=
  OfflineQueueService.removeFromQueue onOfflineStatus operationId now.

(** The drain of the queue itself, with the coordinator listening. *)
Definition offlineQueue_processQueue (b : Backend) (now : Z) : M World unit :=
  OfflineQueueService.processQueue onOfflineStatus b now.

Definition getStatus (now : Z) (w : World) : SyncStatus.t :=
  status_of (offlineQueue_getStatus now w) (fields w).

Definition notifyListeners (now : Z) : M World unit :=
  modify (fun w =>
    OfflineQueueService.set_subscribers (notify (offlineQueue_getStatus now w) (fields w)) w).

Definition syncCreatePost {S} (operation : QueuedOperation.t) : M S unit := ret tt.

Definition syncUpdateProfile {S} (b : Backend) (operation : QueuedOperation.t) : M S unit :=
  import_AuthService b ;;;
  userId <~ destructure (QueuedOperation.data operation) "userId" ;;
  updates <~ destructure (QueuedOperation.data operation) "updates" ;;
  AuthService.updateProfile b userId updates.

Definition syncDeletePost {S} (operation : QueuedOperation.t) : M S unit :=
  postId <~ destructure (QueuedOperation.data operation) "postId" ;;
  ret tt.

(** The [switch] of [syncOperation]; like the three methods it calls, it
    does not touch the fields of the service. *)
Definition syncByType {S} (b : Backend) (operation : QueuedOperation.t) : M S unit :=
  if String.eqb (QueuedOperation.type operation) "CREATE_REPORT" then syncCreatePost operation
  else if String.eqb (QueuedOperation.type operation) "UPDATE_PROFILE"
  then syncUpdateProfile b operation
  else if String.eqb (QueuedOperation.type operation) "DELETE_REPORT"
  then syncDeletePost operation
  else throw (Error ("Tipo de operación no soportado: " +:+ QueuedOperation.type operation)).

Definition syncOperation (b : Backend) (now : Z) (operation : QueuedOperation.t)
  : M World SyncOutcome.t :=
  try_catch
    (syncByType b operation ;;;
     _ <~ offlineQueue_removeFromQueue (QueuedOperation.id operation) now ;;
     ret (SyncOutcome.mk true None))
    (fun error => ret (SyncOutcome.mk false (Some (exn_message error)))).

(** [syncedCount], [failedCount] and [syncErrors]. *)
Record Tally := mkTally {
  syncedCount : Z;
  failedCount : Z;
  syncErrors : list string
}.

Definition text_of (error : option string) : string :=
  match error with
  | Some message => message
  | None => "undefined"
  end.

(** The inner loop over [batchResults]. *)
Fixpoint tally (batch : list QueuedOperation.t) (batchResults : list (result SyncOutcome.t))
    (acc : Tally) : Tally :=
  match batch, batchResults with
  | operation :: batch', result :: batchResults' =>
      tally batch' batchResults'
        match result with
        | Ok (SyncOutcome.mk true _) =>
            mkTally (syncedCount acc + 1) (failedCount acc) (syncErrors acc)
        | Ok (SyncOutcome.mk false error) =>
            mkTally (syncedCount acc) (failedCount acc + 1)
              (syncErrors acc ++
               ["Operación " +:+ QueuedOperation.id operation +:+ ": " +:+ text_of error])
        | Throw reason =>
            mkTally (syncedCount acc) (failedCount acc + 1)
              (syncErrors acc ++
               ["Operación " +:+ QueuedOperation.id operation +:+ ": "
                +:+ exn_to_string reason])
        end
  | _, _ => acc
  end.

(** The outer loop, over the batches (the pause of one second between two
    batches is not modelled). *)
Fixpoint syncBatches (b : Backend) (now : Z) (todo : list (list QueuedOperation.t))
    (acc : Tally) : M World Tally :=
  match todo with
  | [] => ret acc
  | batch :: todo' =>
      batchResults <~ allSettled (syncOperation b now) batch ;;
      syncBatches b now todo' (tally batch batchResults acc)
  end.

Definition batchSize : nat := 5.

(** The three blocks of [performSync]: [try], [catch] and [finally]. *)
Definition drain (b : Backend) (now : Z) : M World SyncResult.t :=
  pendingOperations <~ offlineQueue_getPendingOperations ;;
  if bool_decide (length pendingOperations = 0%nat) then
    set_lastSyncTime now ;;;
    ret (SyncResult.mk true 0 0 [])
  else
    counts <~ syncBatches b now
                (batches (length pendingOperations) batchSize pendingOperations)
                (mkTally 0 0 []) ;;
    set_lastSyncTime now ;;;
    set_errors (syncErrors counts) ;;;
    ret (SyncResult.mk (failedCount counts =? 0) (syncedCount counts)
           (failedCount counts) (syncErrors counts)).

Definition drainFailed (error : Exn) : M World SyncResult.t :=
  set_errors ["Error general de sincronización: " +:+ exn_to_string error] ;;;
  w <~ get ;;
  ret (SyncResult.mk false 0 0 (errors (fields w))).

Definition drainEnded (now : Z) : M World unit :=
  set_syncInProgress false ;;;
  notifyListeners now.

(** The statements of [performSync] before its [try]. *)
Definition drainStarted (now : Z) : M World unit :=
  set_syncInProgress true ;;;
  set_errors [] ;;;
  notifyListeners now.

Definition performSync (force : bool) (b : Backend) (now : Z) : M World SyncResult.t :=
  w <~ get ;;
  if syncInProgress (fields w) && negb force then
    ret (SyncResult.mk false 0 0 ["Sincronización ya en progreso"])
  else
    drainStarted now ;;;
    try_finally (try_catch (drain b now) drainFailed) (drainEnded now).

Definition forceSyncNow (b : Backend) (now : Z) : M World SyncResult.t :=
  performSync true b now.

(** [getSyncMetrics().lastErrors]: [this.errors.slice(-5)]. *)
Definition lastErrors (w : World) : list string :=
  drop (length (errors (fields w)) - 5) (errors (fields w)).

Definition getSyncMetrics : M World SyncMetrics.t :=
  pendingOps <~ offlineQueue_getPendingOperations ;;
  w <~ get ;;
  ret (SyncMetrics.mk (Z.of_nat (length pendingOps))
         (if bool_decide (length pendingOps = 0%nat) then 100 else 0)
         SYNC_INTERVAL
         (lastErrors w)).

(** What the timer of [scheduleDeferredSync] runs when it fires. *)
Definition deferredSync (b : Backend) (now : Z) : M World unit :=
  w <~ get ;;
  if OfflineStatus.isOnline (offlineQueue_getStatus now w)
  then _ <~ performSync false b now ;; ret tt
  else ret tt.

(** The field initialisers. *)
Definition initialFields : Fields := mkFields false None None [] [].

(** [new BackgroundSyncService()], which makes the queue too:
    [subscribe] calls the listener once with the status of the queue, then
    [startAutoSync] sets the timer ([registerServiceWorkerSync] only
    registers a handler).  This is the constructor as far as the queue and
    the coordinator go.  It also obtains the cache service, which the
    coordinator never calls; when that service is not made yet its own
    constructor runs, [CacheService.new] above, with its sweep of the
    tables of the cache and its exception on a full store. *)
Definition new (navigator_onLine : bool) (ls : LocalStorage) (now : Z) : result unit * World :=
  match OfflineQueueService.new navigator_onLine ls initialFields with
  | (r, w) =>
      (r, OfflineQueueService.set_subscribers
            (startAutoSync (onOfflineStatus (offlineQueue_getStatus now w) (fields w))) w)
  end.

End BackgroundSyncService.

(** * The vocabulary of the statements *)

Local Open Scope list_scope.

(** ** JSON texts *)

(** The fuel the reader needs for the text of a value. *)
Fixpoint sz (j : Json) : nat :=
  match j with
  | JArr (x :: l) =>
      S (sz x + (fix tail (l : list Json) : nat :=
                   match l with [] => 1 | y :: l' => S (sz y + tail l') end) l)
  | JObj ((_, x) :: m) =>
      S (sz x + (fix tail (m : list (string * Json)) : nat :=
                   match m with [] => 1 | (_, y) :: m' => S (sz y + tail m') end) m)
  | _ => 1
  end%nat.

Fixpoint sz_elements (l : list Json) : nat :=
  match l with [] => 1 | y :: l' => S (sz y + sz_elements l') end%nat.

Fixpoint sz_members (m : list (string * Json)) : nat :=
  match m with [] => 1 | (_, y) :: m' => S (sz y + sz_members m') end%nat.

Definition reads_back (j : Json) : Prop :=
  forall fuel k, (sz j <= fuel)%nat -> starts_with_digit k = false ->
                 parse_value fuel (emit j k) = Some (j, k).

Definition long_enough (j : Json) : Prop :=
  forall k, (sz j + String.length k <= String.length (emit j k))%nat.

(** What may follow a number that the reader has read to its end: not the
    point of a fraction nor the letter of an exponent. *)
Definition number_ends (r : string) : bool :=
  match r with
  | String c _ => negb (Ascii.eqb c "."%char || Ascii.eqb c "e"%char || Ascii.eqb c "E"%char)
  | EmptyString => true
  end.

(** ** Values read back *)

(** The JSON shape of [T] is read back as written. *)
Class EncodableLaw (T : Type) `{Encodable T} : Prop :=
  of_to_json : forall t : T, of_json (to_json t) = Some t.

(** A computation written for any state reads and writes none. *)
Definition stateless {S A} (m : M S A) (m0 : M unit A) : Prop :=
  forall s, m s = (fst (m0 tt), s).


(** ** The queue and its drain *)

Section QueueVocabulary.
Context {L : Type}.
Import OfflineQueueService.

(** The snapshot of the queue is absent from the store, or is a text that
    is not JSON: one that [JSON.parse] rejects, and not merely one that the
    reader of the model does not read. *)
Definition snapshot_absent_or_corrupt (ls : LocalStorage) : Prop :=
  match items ls !! STORAGE_KEY with
  | None => True
  | Some text => JSON.well_formed text = false
  end.

(** The values that the spread [[...x]] refuses: an object, a number, a
    boolean.  An array and a text are iterable, whatever they hold. *)
Definition not_iterable (j : Json) : bool :=
  match j with
  | JObj _ | JNum _ | JBool _ => true
  | _ => false
  end.

(** The queue in memory is a list of operations, or a value read back
    from the snapshot that cannot be spread. *)
Definition operations_or_not_iterable (q : Dyn (list QueuedOperation.t)) : bool :=
  match q with
  | Typed _ => true
  | Untyped j => not_iterable j
  end.

(** Whether the backend call of an operation returns. *)
Definition executes (b : Backend) (op : QueuedOperation.t) : bool :=
  match fst (executeOperation b op tt) with
  | Ok _ => true
  | Throw _ => false
  end.

Definition with_queue (ops : list QueuedOperation.t) (st : State L) : State L :=
  mkState (Typed ops) (isOnline st) (processingQueue st) (localStorage st) (subscribers st).

(** The queue after the loop body ran for [operation]. *)
Definition after_one (b : Backend) (ops : list QueuedOperation.t)
    (operation : QueuedOperation.t) : list QueuedOperation.t :=
  if executes b operation then without (QueuedOperation.id operation) ops
  else
    match find_op (QueuedOperation.id operation) ops with
    | Some queuedOperation =>
        if QueuedOperation.retryCount queuedOperation + 1 >=? MAX_RETRY_COUNT
        then without (QueuedOperation.id operation)
               (increment_found (QueuedOperation.id operation) ops)
        else increment_found (QueuedOperation.id operation) ops
    | None => ops
    end.

(** The entry with id [i] after the loop body ran for [operation]. *)
Definition entry_after_one (b : Backend) (i : string) (entry : option QueuedOperation.t)
    (operation : QueuedOperation.t) : option QueuedOperation.t :=
  if String.eqb (QueuedOperation.id operation) i then
    if executes b operation then None
    else
      match entry with
      | Some queuedOperation =>
          if QueuedOperation.retryCount queuedOperation + 1 >=? MAX_RETRY_COUNT then None
          else Some (QueuedOperation.incrementRetryCount queuedOperation)
      | None => None
      end
  else entry.

Definition ids (ops : list QueuedOperation.t) : list string := map QueuedOperation.id ops.

(** The queue after one drain. *)
Definition drained (b : Backend) (ops : list QueuedOperation.t) : list QueuedOperation.t :=
  foldl (after_one b) ops ops.

End QueueVocabulary.

(** ** Stores and worlds for the examples *)

(** A store without fault that holds a snapshot of the queue and nothing
    else. *)
Definition snapshot_store (text : string) : LocalStorage :=
  mkLocalStorage {[ OfflineQueueService.STORAGE_KEY := text ]} false false.

(** A snapshot cut short. *)
Definition corrupt_store : LocalStorage := snapshot_store "[{".

(** The application started online, at time 0, on a store that holds the
    snapshot of the given operations. *)
Definition started_with (ops : list QueuedOperation.t) : BackgroundSyncService.World :=
  snd (BackgroundSyncService.new true (snapshot_store (JSON.stringify (to_json ops))) 0).


(** ** The queue and the coordinator together *)

(** An operation with its counter set. *)
Definition with_retryCount (n : Z) (op : QueuedOperation.t) : QueuedOperation.t :=
  QueuedOperation.mk (QueuedOperation.id op) (QueuedOperation.type op)
    (QueuedOperation.data op) (QueuedOperation.timestamp op) n.

(** The entry of an operation that failed [k] times. *)
Definition entry_after (k : Z) (op : QueuedOperation.t) : option QueuedOperation.t :=
  if k <? OfflineQueueService.MAX_RETRY_COUNT then Some (with_retryCount k op) else None.

(** Drains of the queue by [processQueue], one after the other, each with
    the backend and the clock of its moment. *)
Fixpoint drains (plan : list (Backend * Z)) : M BackgroundSyncService.World unit :=
  match plan with
  | [] => ret tt
  | (b, now) :: plan' => BackgroundSyncService.offlineQueue_processQueue b now ;;; drains plan'
  end.

Definition no_user : Backend := mkBackend true false (fun _ _ => None) (fun _ _ => None).

Definition signed_in : Backend := mkBackend true true (fun _ _ => None) (fun _ _ => None).

Definition rename_ana : QueuedOperation.t :=
  QueuedOperation.mk "1700000000000_k3j9x2m1q" "UPDATE_PROFILE"
    (JObj [("userId", JStr "u1"); ("updates", JObj [("displayName", JStr "Ana")])])
    1700000000000 0.

Definition new_report : QueuedOperation.t :=
  QueuedOperation.mk "1700000000500_p0o9i8u7y" "CREATE_REPORT"
    (JObj [("title", JStr "Bache"); ("lat", JNum (-17)); ("lng", JNum (-71))])
    1700000000500 0.

Definition empty_store : LocalStorage := mkLocalStorage ∅ false false.

(** Online, one profile update and one report pending, nothing in progress. *)
Definition two_pending : BackgroundSyncService.World := started_with [rename_ana; new_report].

Definition one_pending : BackgroundSyncService.World := started_with [rename_ana].

(** Whether the [switch] of [syncOperation] returns for an operation. *)
Definition synced (b : Backend) (op : QueuedOperation.t) : bool :=
  match fst (BackgroundSyncService.syncByType b op tt) with
  | Ok _ => true
  | Throw _ => false
  end.

(** The queue after [syncOperation] ran for [operation]. *)
Definition after_sync (b : Backend) (ops : list QueuedOperation.t)
    (operation : QueuedOperation.t) : list QueuedOperation.t :=
  if synced b operation then OfflineQueueService.without (QueuedOperation.id operation) ops
  else ops.

(** The fields of the coordinator that only [performSync] writes. *)
Definition same_progress (bs bs' : BackgroundSyncService.Fields) : Prop :=
  BackgroundSyncService.syncInProgress bs' = BackgroundSyncService.syncInProgress bs
  /\ BackgroundSyncService.lastSyncTime bs' = BackgroundSyncService.lastSyncTime bs
  /\ BackgroundSyncService.errors bs' = BackgroundSyncService.errors bs.

(** The message [performSync] records for an exception of its drain. *)
Definition general_error (e : Exn) : string :=
  "Error general de sincronización: " +:+ exn_to_string e.

(** The application started on a store whose snapshot of the queue is JSON
    but not an array: the queue of the service is then an object, which
    cannot be spread. *)
Definition object_snapshot : BackgroundSyncService.World :=
  snd (BackgroundSyncService.new true (snapshot_store "{}") 0).

(** ** The cache *)

(** The three namespaces of the cache of results: the feed, the posts of a
    user (kept in the table of the feed under the key [user_<id>]) and the
    queries. *)
Inductive Namespace := Posts | UserPosts | Queries.

(** The key of the table under which a namespace keeps an entry. *)
Definition table_key (ns : Namespace) (key : string) : string :=
  match ns with
  | UserPosts => "user_" +:+ key
  | Posts | Queries => key
  end.

Definition cache_get (ns : Namespace) (key : string) (now : Z)
  : M CacheService.State (option (list Json)) :=
  match ns with
  | Posts => CacheService.getCachedPosts key now
  | UserPosts => CacheService.getCachedUserPosts key now
  | Queries => CacheService.getCachedQuery key now
  end.

Definition cache_put (ns : Namespace) (key : string) (posts : list Json) (now : Z)
  : M CacheService.State unit :=
  match ns with
  | Posts => CacheService.cachePosts posts key now
  | UserPosts => CacheService.cacheUserPosts key posts now
  | Queries => CacheService.cacheQuery key posts None now
  end.

Definition config_of (ns : Namespace) : CacheService.CacheConfig :=
  match ns with
  | Posts | UserPosts => CacheService.POSTS_CONFIG
  | Queries => CacheService.QUERIES_CONFIG
  end.

(** What the two kinds of entries have in common; an entry of the queries
    has no version. *)
Record StoredEntry := mkStoredEntry {
  stored_data : list Json;
  stored_timestamp : Z;
  stored_expiresAt : Z;
  stored_version : option string
}.

Definition view_entry (e : CacheEntry.t) : StoredEntry :=
  mkStoredEntry (CacheEntry.data e) (CacheEntry.timestamp e) (CacheEntry.expiresAt e)
    (Some (CacheEntry.version e)).

Definition view_query (e : QueryCache.t) : StoredEntry :=
  mkStoredEntry (QueryCache.posts e) (QueryCache.timestamp e) (QueryCache.expiresAt e) None.

Definition view_table {T} (view : T -> StoredEntry) (t : Table T) : Table StoredEntry :=
  map (fun kv => (fst kv, view (snd kv))) t.

(** The table a store holds under a key, when it is there and has the
    shape of a table of [T] ([getCache] never throws). *)
Definition table_in {T} `{Encodable T} (storageKey : string) (st : CacheService.State)
  : option (Table T) :=
  match fst (CacheService.getCache storageKey st) with
  | Ok (Typed t) => Some t
  | _ => None
  end.

Definition stored_entries (ns : Namespace) (st : CacheService.State)
  : option (Table StoredEntry) :=
  match ns with
  | Posts | UserPosts =>
      view_table view_entry <$> table_in CacheService.POSTS_CACHE_KEY st
  | Queries =>
      view_table view_query <$> table_in CacheService.QUERIES_CACHE_KEY st
  end.

(** The test of the getters: not expired, and of the current version where
    entries have one. *)
Definition entry_valid (ns : Namespace) (now : Z) (e : StoredEntry) : bool :=
  negb (now >? stored_expiresAt e)
  && match stored_version e with
     | Some v => String.eqb v (CacheService.version (config_of ns))
     | None => true
     end.

(** The entry [cache_put] writes. *)
Definition entry_put (ns : Namespace) (posts : list Json) (now : Z) : StoredEntry :=
  mkStoredEntry posts now (now + CacheService.maxAge (config_of ns))
    match ns with
    | Posts | UserPosts => Some (CacheService.version (config_of ns))
    | Queries => None
    end.

Definition keys {T} (t : Table T) : list string := map fst t.

(** What a getter that found an entry to purge leaves in a store that
    takes the write. *)
Definition purged {T} `{Encodable T} (storageKey key : string) (t : Table T)
    (st st' : CacheService.State) : Prop :=
  writeFault (CacheService.localStorage st) = false ->
  table_in storageKey st' = Some (table_delete key t).

(** The comparison [limitCacheSize] sorts the entries with. *)
Definition by_timestamp {T} `{Timestamped T} (a b : string * T) : Z :=
  or_zero (timestamp_of (snd a)) - or_zero (timestamp_of (snd b)).

(** ** Stores for the examples *)

(** A fresh browser profile: nothing in [localStorage], nothing in
    IndexedDB, no fault. *)
Definition fresh_cache : CacheService.State :=
  CacheService.mkState empty_store (mkIndexedDB ∅ false).

(** The feed cached at time 1000; its entry expires at 121000. *)
Definition feed_cached : CacheService.State :=
  snd (CacheService.cachePosts [JStr "post-1"; JStr "post-2"]
         CacheService.default_cacheKey 1000 fresh_cache).

(** A table of queries written by an earlier release, whose entries carry
    a version of their own. *)
Definition old_query : Json :=
  JObj [("key", JStr "near"); ("posts", JArr [JStr "post-1"]);
        ("timestamp", JNum 1000); ("expiresAt", JNum 61000); ("version", JStr "0.9.0")].

Definition old_queries : CacheService.State :=
  CacheService.mkState
    (mkLocalStorage
       {[ CacheService.QUERIES_CACHE_KEY := JSON.stringify (JObj [("near", old_query)]) ]}
       false false)
    (mkIndexedDB ∅ false).

(** The key of the [i]-th query of the examples. *)
Definition query_key (i : nat) : string :=
  "near:" +:+ JSON.emit_Z (Z.of_nat i) EmptyString.

(** The queries [0 .. n-1] cached one after the other, the [i]-th at time
    [1000 + i]. *)
Definition queries_cached (n : nat) : CacheService.State :=
  foldl (fun st i => snd (CacheService.cacheQuery (query_key i) [] None (1000 + Z.of_nat i) st))
    fresh_cache (seq 0 n).

(** The table they leave. *)
Definition fifty_queries : Table StoredEntry :=
  map (fun i => (query_key i,
                 mkStoredEntry [] (1000 + Z.of_nat i) (1000 + Z.of_nat i + 60000) None))
    (seq 0 50).

(** A host that serves every image as a blob of 30 MB. *)
Definition photo_host : Network :=
  fun url => Ok (mkResponse true 200 (Ok (30 * 1024 * 1024))).

(** The bytes and the number of the images in the IndexedDB store. *)
Definition stored_bytes (db : IndexedDB) : Z :=
  map_fold (fun _ entry sum => sum + ImageCacheEntry.size entry) 0 (images db).

Definition stored_count (db : IndexedDB) : Z := Z.of_nat (size (images db)).

(** Two photos cached on a fresh profile. *)
Definition two_photos : CacheService.State :=
  snd (CacheService.cacheImage photo_host "https://firebasestorage.example/b.jpg" 2000
         (snd (CacheService.cacheImage photo_host "https://firebasestorage.example/a.jpg" 1000
                 fresh_cache))).

(** Images cached one after the other, each at its time. *)
Fixpoint cache_all (net : Network) (plan : list (string * Z)) : M CacheService.State unit :=
  match plan with
  | [] => ret tt
  | (url, now) :: plan' => CacheService.cacheImage net url now ;;; cache_all net plan'
  end.

(** The same state, with a [localStorage] that refuses every call. *)
Definition storage_down (st : CacheService.State) : CacheService.State :=
  CacheService.mkState
    (mkLocalStorage (items (CacheService.localStorage st)) true true)
    (CacheService.indexedDB st).

(** The table of the images is not in [localStorage]. *)
Definition no_image_table (st : CacheService.State) : Prop :=
  items (CacheService.localStorage st) !! CacheService.IMAGES_CACHE_KEY = None.

(** The host serves the image at [url], as a blob of [size] bytes. *)
Definition serves (net : Network) (url : string) (size : Z) : Prop :=
  exists status, net url = Ok (mkResponse true status (Ok size)).

(** Six operations that the backend refuses. *)
Definition six_pending : BackgroundSyncService.World :=
  started_with
    (map (fun i => QueuedOperation.mk (JSON.emit_Z (Z.of_nat i) EmptyString)
                     "UPDATE_PROFILE" (QueuedOperation.data rename_ana)
                     (1700000000000 + Z.of_nat i) 0)
       (seq 0 6)).

(** The budget of the images, on a table. *)
Definition sum_sizes (entries : list ImageCacheEntry.t) : Z :=
  foldr (fun entry sum => ImageCacheEntry.size entry + sum) 0 entries.

Definition within_budget (cache : Table ImageCacheEntry.t) : Prop :=
  sum_sizes (map snd cache) <= CacheService.IMAGES_CONFIG.maxSize
  /\ Z.of_nat (length cache) <= CacheService.IMAGES_CONFIG.maxEntries.

(** Every entry of the table is under its own [url], as [cacheImage] puts
    it. *)
Definition keyed_by_url (cache : Table ImageCacheEntry.t) : Prop :=
  Forall (fun kv => ImageCacheEntry.url (snd kv) = fst kv) cache.

Definition oldest_first (a b : ImageCacheEntry.t) : Z :=
  ImageCacheEntry.timestamp a - ImageCacheEntry.timestamp b.

(** ** The queue: its mutations and the store *)

(** What one drain leaves of an operation: nothing when its call returned
    or when this was its last attempt, and the operation with one more
    attempt counted otherwise. *)
Definition retried (b : Backend) (op : QueuedOperation.t) : option QueuedOperation.t :=
  if executes b op then None
  else if QueuedOperation.retryCount op + 1 >=? OfflineQueueService.MAX_RETRY_COUNT then None
  else Some (QueuedOperation.incrementRetryCount op).

(** A store that takes every call. *)
Definition healthy (ls : LocalStorage) : Prop :=
  readFault ls = false /\ writeFault ls = false.

(** The service made anew on the store of [st], as after the page is
    loaded again. *)
Definition restarted {L} (st : OfflineQueueService.State L) : OfflineQueueService.State L :=
  snd (OfflineQueueService.new (OfflineQueueService.isOnline st)
         (OfflineQueueService.localStorage st) (OfflineQueueService.subscribers st)).

(** The snapshot in the store is the queue in memory. *)
Definition persisted {L} (st : OfflineQueueService.State L) : Prop :=
  OfflineQueueService.queue (restarted st) = OfflineQueueService.queue st.

(** The operations on reports, which the drains do not send anywhere yet. *)
Definition is_report (op : QueuedOperation.t) : bool :=
  String.eqb (QueuedOperation.type op) "CREATE_REPORT"
  || String.eqb (QueuedOperation.type op) "DELETE_REPORT".

(** The line [performSync] reports for an operation whose synchronisation
    failed. *)
Definition failure_line (b : Backend) (op : QueuedOperation.t) : option string :=
  match fst (BackgroundSyncService.syncByType b op tt) with
  | Ok _ => None
  | Throw e => Some ("Operación " +:+ QueuedOperation.id op +:+ ": " +:+ exn_message e)
  end.

(** What [syncOperation] resolves to. *)
Definition outcome_of (b : Backend) (op : QueuedOperation.t) : SyncOutcome.t :=
  match fst (BackgroundSyncService.syncByType b op tt) with
  | Ok _ => SyncOutcome.mk true None
  | Throw e => SyncOutcome.mk false (Some (exn_message e))
  end.

(** A backend that refuses every write. *)
Definition refusing : Backend :=
  mkBackend true true (fun _ _ => Some (Error "auth/network-request-failed"))
    (fun _ _ => Some (Error "unavailable")).

(** Offline, with one profile update pending. *)
Definition offline_pending : BackgroundSyncService.World :=
  snd (OfflineQueueService.onOffline BackgroundSyncService.onOfflineStatus 1000 one_pending).

(** The operation [addToQueue] makes at time [now], [random] being the
    text it draws for the id. *)
Definition queued (type : string) (data : Json) (random : string) (now : Z)
  : QueuedOperation.t :=
  QueuedOperation.mk (JSON.emit_Z now EmptyString +:+ "_" +:+ random) type data now 0.

(** The counts and the lines of [performSync] after the operations of a
    list, from those before them. *)
Definition tallied (b : Backend) (ops : list QueuedOperation.t)
    (acc : BackgroundSyncService.Tally) : BackgroundSyncService.Tally :=
  BackgroundSyncService.mkTally
    (BackgroundSyncService.syncedCount acc
     + (Z.of_nat (length ops) - Z.of_nat (length (omap (failure_line b) ops))))
    (BackgroundSyncService.failedCount acc + Z.of_nat (length (omap (failure_line b) ops)))
    (BackgroundSyncService.syncErrors acc ++ omap (failure_line b) ops).

(** The operations of [six_pending], and the world after a drain that
    failed for each of them. *)
Definition six_updates : list QueuedOperation.t :=
  map (fun i => QueuedOperation.mk (JSON.emit_Z (Z.of_nat i) EmptyString)
                  "UPDATE_PROFILE" (QueuedOperation.data rename_ana)
                  (1700000000000 + Z.of_nat i) 0)
    (seq 0 6).

Definition six_failed : BackgroundSyncService.World :=
  snd (BackgroundSyncService.performSync false no_user 1000 six_pending).

(** ** The cache: order and budget *)

(** A list in ascending order of a measure. *)
Fixpoint ascending {A} (measure : A -> Z) (l : list A) : Prop :=
  match l with
  | [] => True
  | x :: l' => Forall (fun y => measure x <= measure y) l' /\ ascending measure l'
  end.

(** The two bounds of the images, on a list of entries. *)
Definition fits (entries : list ImageCacheEntry.t) : Prop :=
  sum_sizes entries <= CacheService.IMAGES_CONFIG.maxSize
  /\ Z.of_nat (length entries) <= CacheService.IMAGES_CONFIG.maxEntries.

(** Three entries of the feed, the second the oldest. *)
Definition three_entries : Table CacheEntry.t :=
  [("all_posts", CacheEntry.mk [JStr "post-1"] 3000 123000 "1.0.0");
   ("user_u1", CacheEntry.mk [] 1000 121000 "1.0.0");
   ("user_u2", CacheEntry.mk [JStr "post-2"] 2000 122000 "1.0.0")].

(** Two images of 30 MB in a table, the first the older. *)
Definition two_images : Table ImageCacheEntry.t :=
  [("https://firebasestorage.example/a.jpg",
    ImageCacheEntry.mk "https://firebasestorage.example/a.jpg" Blob.Revived 1000
      (30 * 1024 * 1024));
   ("https://firebasestorage.example/b.jpg",
    ImageCacheEntry.mk "https://firebasestorage.example/b.jpg" Blob.Revived 2000
      (30 * 1024 * 1024))].

(** One of the three blocks of [cleanExpiredEntries]: the table under a
    key is read, swept and written back. *)
Definition sweep_stage {T} `{Encodable T} (storageKey : string) (expired : T -> bool)
    (dropped : string -> M CacheService.State unit) : M CacheService.State unit :=
  stored <~ CacheService.getCache storageKey ;;
  cache <~ use "Cannot convert undefined or null to object" stored ;;
  cache <~ CacheService.sweep expired dropped (map fst cache) cache ;;
  CacheService.localStorage_setItem storageKey (JSON.stringify (to_json cache)).

(** The test of the sweep on an entry of a namespace: the expiry alone. *)
Definition unexpired (now : Z) (kv : string * StoredEntry) : bool :=
  negb (now >? stored_expiresAt (snd kv)).

(** A store that is full: it can be read and takes no write. *)
Definition full_store (st : CacheService.State) : CacheService.State :=
  CacheService.mkState
    (mkLocalStorage (items (CacheService.localStorage st)) false true)
    (CacheService.indexedDB st).

(** ** The cache: what the store holds *)

(** The text under a key of the store is one that the reader reads as
    [JSON.parse] does, or there is none (the empty text counts for none):
    the table that [getCache] gives is then the one that the service
    reads. *)
Definition read_as_stored (storageKey : string) (st : CacheService.State) : bool :=
  match items (CacheService.localStorage st) !! storageKey with
  | None | Some EmptyString => true
  | Some text => JSON.faithful text
  end.

(** The key of the store under which a namespace keeps its table. *)
Definition storage_key (ns : Namespace) : string :=
  match ns with
  | Posts | UserPosts => CacheService.POSTS_CACHE_KEY
  | Queries => CacheService.QUERIES_CACHE_KEY
  end.

(** The three tables that the sweep reads. *)
Definition tables_read_as_stored (st : CacheService.State) : bool :=
  read_as_stored CacheService.POSTS_CACHE_KEY st
  && read_as_stored CacheService.IMAGES_CACHE_KEY st
  && read_as_stored CacheService.QUERIES_CACHE_KEY st.

(** The image fetched, if there is one, is within the budget of the cache
    on its own. *)
Definition within_budget_alone (size : option Z) : bool :=
  match size with
  | Some size => size <=? CacheService.IMAGES_CONFIG.maxSize
  | None => true
  end.

(** ** The cache: a session *)

(** The calls of the service. *)
Inductive CacheCall :=
| CachePosts (posts : list Json) (cacheKey : string)
| GetCachedPosts (cacheKey : string)
| CacheUserPosts (userId : string) (posts : list Json)
| GetCachedUserPosts (userId : string)
| InvalidatePostsCache (cacheKey : option string)
| CacheImage (net : Network) (url : string)
| GetCachedImageBlob (url : string)
| CacheQuery (queryKey : string) (posts : list Json) (bounds : option Json)
| GetCachedQuery (queryKey : string)
| CleanExpiredEntries
| ClearAllCache.

(** The state a call made at time [now] leaves, whether it returns or
    throws. *)
Definition after_call (call : CacheCall) (now : Z) (st : CacheService.State)
  : CacheService.State :=
  match call with
  | CachePosts posts cacheKey => snd (CacheService.cachePosts posts cacheKey now st)
  | GetCachedPosts cacheKey => snd (CacheService.getCachedPosts cacheKey now st)
  | CacheUserPosts userId posts => snd (CacheService.cacheUserPosts userId posts now st)
  | GetCachedUserPosts userId => snd (CacheService.getCachedUserPosts userId now st)
  | InvalidatePostsCache cacheKey => snd (CacheService.invalidatePostsCache cacheKey st)
  | CacheImage net url => snd (CacheService.cacheImage net url now st)
  | GetCachedImageBlob url => snd (CacheService.getCachedImageBlob url now st)
  | CacheQuery queryKey posts bounds =>
      snd (CacheService.cacheQuery queryKey posts bounds now st)
  | GetCachedQuery queryKey => snd (CacheService.getCachedQuery queryKey now st)
  | CleanExpiredEntries => snd (CacheService.cleanExpiredEntries now st)
  | ClearAllCache => snd (CacheService.clearAllCache st)
  end.

(** Calls one after the other, each at its time. *)
Definition after_calls (calls : list (CacheCall * Z)) (st : CacheService.State)
  : CacheService.State :=
  foldl (fun st call => after_call (fst call) (snd call) st) st calls.

(** The table of the images that the service reads from the store is
    empty: the store has none, or an empty one, or cannot be read. *)
Definition images_untracked (st : CacheService.State) : Prop :=
  table_in (T := ImageCacheEntry.t) CacheService.IMAGES_CACHE_KEY st = Some [].

(** Nothing that concerns the images has changed from [st] to [st']. *)
Definition keeps_images (st st' : CacheService.State) : Prop :=
  readFault (CacheService.localStorage st') = readFault (CacheService.localStorage st)
  /\ items (CacheService.localStorage st') !! CacheService.IMAGES_CACHE_KEY
     = items (CacheService.localStorage st) !! CacheService.IMAGES_CACHE_KEY
  /\ CacheService.indexedDB st' = CacheService.indexedDB st.

Definition framed {A} (m : M CacheService.State A) : Prop :=
  forall st, keeps_images st (snd (m st)).

(** Every image of [st] is still in IndexedDB in [st']. *)
Definition images_stay (st st' : CacheService.State) : Prop :=
  forall url, is_Some (images (CacheService.indexedDB st) !! url) ->
              is_Some (images (CacheService.indexedDB st') !! url).

(** The size of the image that [cacheImage] gets for an address: none for
    a [blob:] address, which it does not fetch, and none when the request
    fails, when the answer is not [ok] or when its body cannot be read. *)
Definition fetched (net : Network) (url : string) : option Z :=
  if String.prefix "blob:" url then None
  else
    match net url with
    | Ok response =>
        if ok response then
          match body response with
          | Ok size => Some size
          | Throw _ => None
          end
        else None
    | Throw _ => None
    end.

(** A host that answers 404. *)
Definition host_404 : Network := fun url => Ok (mkResponse false 404 (Ok 9)).

(** * Facts about the platform model *)

Section JsonRoundTrip.
Import JSON.

(** Induction on a JSON value, with the hypothesis for every element of
    an array and every member of an object. *)
Lemma Json_nested_ind (P : Json -> Prop) :
  P JNull ->
  (forall b, P (JBool b)) ->
  (forall z, P (JNum z)) ->
  (forall s, P (JStr s)) ->
  (forall l, Forall P l -> P (JArr l)) ->
  (forall m, Forall (fun kv => P (snd kv)) m -> P (JObj m)) ->
  forall j, P j.
Proof.
  intros Hnull Hbool Hnum Hstr Harr Hobj.
  fix IH 1. intros [ | b | z | s | l | m].
  - exact Hnull.
  - apply Hbool.
  - apply Hnum.
  - apply Hstr.
  - apply Harr. induction l as [ | x l IHl]; constructor; [apply IH | exact IHl].
  - apply Hobj. induction m as [ | [key x] m IHm]; constructor; [apply IH | exact IHm].
Qed.

Lemma sz_arr x l : sz (JArr (x :: l)) = S (sz x + sz_elements l).
Proof. reflexivity. Qed.

Lemma sz_obj key x m : sz (JObj ((key, x) :: m)) = S (sz x + sz_members m).
Proof. reflexivity. Qed.

Lemma sz_pos j : (1 <= sz j)%nat.
Proof. destruct j as [ | | | | [ | ? ?] | [ | [? ?] ?]]; simpl; lia. Qed.

(** Digits. *)
Lemma parse_digits_emit d k :
  starts_with_digit k = false -> parse_digits (emit_uint d k) = (d, k).
Proof.
  intros Hk. induction d; simpl; try (rewrite IHd; reflexivity).
  destruct k as [ | c r]; [reflexivity | ].
  simpl in Hk. simpl. destruct (digit_of c); [discriminate | reflexivity].
Qed.

Lemma starts_with_digit_emit d k :
  d <> Nil -> starts_with_digit (emit_uint d k) = true.
Proof. destruct d; [congruence | reflexivity ..]. Qed.

Lemma N_to_uint_nonnil n : N.to_uint n <> Nil.
Proof. destruct n; [discriminate | apply DecimalPos.Unsigned.to_uint_nonnil]. Qed.

Lemma parse_N_emit n k :
  starts_with_digit k = false ->
  parse_N (emit_uint (N.to_uint n) k) = Some (n, k).
Proof.
  intros Hk. unfold parse_N.
  rewrite starts_with_digit_emit by apply N_to_uint_nonnil.
  rewrite parse_digits_emit by exact Hk.
  by rewrite DecimalN.Unsigned.of_to.
Qed.

(** A number is read by the last branch of the reader. *)
Lemma parse_value_digits fuel d k :
  d <> Nil ->
  parse_value (S fuel) (emit_uint d k) =
  match parse_N (emit_uint d k) with
  | Some (n, r) => Some (JNum (Z.of_N n), r)
  | None => None
  end.
Proof. destruct d; [congruence | reflexivity ..]. Qed.

Lemma parse_value_num fuel z k :
  starts_with_digit k = false ->
  parse_value (S fuel) (emit_Z z k) = Some (JNum z, k).
Proof.
  intros Hk. unfold emit_Z. destruct (Z.ltb_spec z 0).
  - cbn -[parse_N N.to_uint]. rewrite parse_N_emit by exact Hk.
    do 3 f_equal. lia.
  - rewrite parse_value_digits by apply N_to_uint_nonnil.
    rewrite parse_N_emit by exact Hk. do 3 f_equal. lia.
Qed.

(** Strings. *)
Lemma parse_chars_emit s k : parse_chars (emit_chars s k) = Some (s, k).
Proof.
  induction s as [ | c s IH]; [reflexivity | ].
  simpl. destruct (is_quote c) eqn:Hq, (is_backslash c) eqn:Hb; simpl;
    rewrite ?Hq, ?Hb; simpl; rewrite IH; reflexivity.
Qed.

Lemma parse_key_emit key k :
  parse_key (emit_string key (String ":"%char k)) = Some (key, k).
Proof. unfold emit_string. cbn -[parse_chars]. by rewrite parse_chars_emit. Qed.

(** The text of a value does not start with the closing bracket. *)
Lemma strip_bracket_emit j k : strip "]" (emit j k) = None.
Proof.
  destruct j as [ | [ | ] | z | s | l | m]; try reflexivity.
  simpl. unfold emit_Z. destruct (z <? 0); [reflexivity | ].
  pose proof (N_to_uint_nonnil (Z.to_N z)) as Hd.
  destruct (N.to_uint (Z.to_N z)); [congruence | reflexivity ..].
Qed.

Lemma starts_with_digit_elements l k :
  starts_with_digit (emit_elements emit l k) = false.
Proof. destruct l; reflexivity. Qed.

Lemma starts_with_digit_members m k :
  starts_with_digit (emit_members emit m k) = false.
Proof. destruct m as [ | [? ?] ?]; reflexivity. Qed.

Lemma parse_elements_emit l :
  Forall reads_back l ->
  forall fuel k, (sz_elements l <= fuel)%nat -> starts_with_digit k = false ->
                 parse_elements fuel (emit_elements emit l k) = Some (l, k).
Proof.
  induction 1 as [ | y l Hy _ IH]; intros fuel k Hfuel Hk.
  - destruct fuel; [simpl in Hfuel; lia | reflexivity].
  - destruct fuel as [ | fuel]; [simpl in Hfuel; lia | ].
    simpl in Hfuel. cbn -[parse_value emit].
    rewrite Hy by (lia || apply starts_with_digit_elements).
    by rewrite IH by (lia || exact Hk).
Qed.

Lemma parse_members_emit m :
  Forall (fun kv => reads_back (snd kv)) m ->
  forall fuel k, (sz_members m <= fuel)%nat -> starts_with_digit k = false ->
                 parse_members fuel (emit_members emit m k) = Some (m, k).
Proof.
  induction 1 as [ | [key y] m Hy _ IH]; intros fuel k Hfuel Hk.
  - destruct fuel; [simpl in Hfuel; lia | reflexivity].
  - destruct fuel as [ | fuel]; [simpl in Hfuel; lia | ].
    simpl in Hfuel, Hy. cbn -[parse_value emit parse_key emit_string].
    rewrite parse_key_emit.
    rewrite Hy by (lia || apply starts_with_digit_members).
    by rewrite IH by (lia || exact Hk).
Qed.

(** The equations of the writer and of the reader at an array and an
    object. *)
Lemma emit_arr_cons x l k :
  emit (JArr (x :: l)) k = String "["%char (emit x (emit_elements emit l k)).
Proof. reflexivity. Qed.

Lemma emit_obj_cons key x m k :
  emit (JObj ((key, x) :: m)) k =
  String "{"%char (emit_string key (String ":"%char (emit x (emit_members emit m k)))).
Proof. reflexivity. Qed.

Lemma parse_value_bracket fuel r :
  parse_value (S fuel) (String "["%char r) =
  match strip "]" r with
  | Some r' => Some (JArr [], r')
  | None =>
      match parse_value fuel r with
      | Some (x, r1) =>
          match parse_elements fuel r1 with
          | Some (l, r2) => Some (JArr (x :: l), r2)
          | None => None
          end
      | None => None
      end
  end.
Proof. reflexivity. Qed.

Lemma parse_value_brace fuel r :
  parse_value (S fuel) (String "{"%char r) =
  match strip "}" r with
  | Some r' => Some (JObj [], r')
  | None =>
      match parse_key r with
      | Some (key, r0) =>
          match parse_value fuel r0 with
          | Some (x, r1) =>
              match parse_members fuel r1 with
              | Some (m, r2) => Some (JObj ((key, x) :: m), r2)
              | None => None
              end
          | None => None
          end
      | None => None
      end
  end.
Proof. reflexivity. Qed.

Lemma strip_brace_emit_string key k : strip "}" (emit_string key k) = None.
Proof. reflexivity. Qed.

Lemma parse_value_emit j : reads_back j.
Proof.
  induction j as [ | b | z | s | l IHl | m IHm] using Json_nested_ind;
    intros fuel k Hfuel Hk;
    (destruct fuel as [ | fuel];
       [exfalso; match type of Hfuel with (sz ?v <= 0)%nat => pose proof (sz_pos v); lia end | ]).
  - reflexivity.
  - destruct b; reflexivity.
  - by apply parse_value_num.
  - simpl. unfold emit_string. cbn -[parse_chars]. by rewrite parse_chars_emit.
  - destruct l as [ | x l]; [reflexivity | ].
    rewrite sz_arr in Hfuel. apply Forall_cons in IHl as [Hx Hl].
    rewrite emit_arr_cons, parse_value_bracket, strip_bracket_emit.
    rewrite Hx by (lia || apply starts_with_digit_elements).
    by rewrite parse_elements_emit by (assumption || lia).
  - destruct m as [ | [key x] m]; [reflexivity | ].
    rewrite sz_obj in Hfuel. apply Forall_cons in IHm as [Hx Hm]. simpl in Hx.
    rewrite emit_obj_cons, parse_value_brace, strip_brace_emit_string, parse_key_emit.
    rewrite Hx by (lia || apply starts_with_digit_members).
    by rewrite parse_members_emit by (assumption || lia).
Qed.

(** The text is at least as long as the fuel it needs. *)
Lemma length_emit_uint d k :
  d <> Nil -> (S (String.length k) <= String.length (emit_uint d k))%nat.
Proof.
  intros Hd. assert (H : (String.length k <= String.length (emit_uint d k))%nat
                         /\ (d <> Nil -> S (String.length k) <= String.length (emit_uint d k))%nat).
  { clear Hd. induction d; simpl; (split; [lia | intros _; lia]) || (split; [lia | congruence]). }
  by apply H.
Qed.

Lemma length_emit_chars s k :
  (S (String.length k) <= String.length (emit_chars s k))%nat.
Proof.
  induction s as [ | c s IH]; simpl; [lia | ].
  destruct (is_quote c || is_backslash c); simpl; lia.
Qed.

Lemma length_emit j : long_enough j.
Proof.
  induction j as [ | b | z | s | l IHl | m IHm] using Json_nested_ind; intros k.
  - simpl. lia.
  - destruct b; simpl; lia.
  - simpl. unfold emit_Z. destruct (z <? 0).
    + pose proof (length_emit_uint (N.to_uint (Z.to_N (- z))) k (N_to_uint_nonnil _)).
      simpl. lia.
    + pose proof (length_emit_uint (N.to_uint (Z.to_N z)) k (N_to_uint_nonnil _)). lia.
  - simpl. pose proof (length_emit_chars s k). lia.
  - destruct l as [ | x l]; [simpl; lia | ].
    rewrite sz_arr. apply Forall_cons in IHl as [Hx Hl].
    cbn -[emit sz]. fold emit.
    assert (Ht : (sz_elements l + String.length k
                  <= String.length (emit_elements emit l k))%nat).
    { clear Hx. induction Hl as [ | y l Hy _ IH]; simpl; [lia | ].
      specialize (Hy (emit_elements emit l k)). lia. }
    specialize (Hx (emit_elements emit l k)). simpl. lia.
  - destruct m as [ | [key x] m]; [simpl; lia | ].
    rewrite sz_obj. apply Forall_cons in IHm as [Hx Hm]. simpl in Hx.
    assert (Ht : (sz_members m + String.length k
                  <= String.length (emit_members emit m k))%nat).
    { clear Hx. induction Hm as [ | [key' y] m Hy _ IH]; simpl; [lia | ].
      simpl in Hy. specialize (Hy (emit_members emit m k)).
      pose proof (length_emit_chars key'
                    (String ":"%char (emit y (emit_members emit m k)))).
      simpl in *. lia. }
    specialize (Hx (emit_members emit m k)).
    pose proof (length_emit_chars key (String ":"%char (emit x (emit_members emit m k)))).
    simpl in *. lia.
Qed.

(** [JSON.parse (JSON.stringify j)] is [j]. *)
Lemma parse_stringify j : JSON.parse (JSON.stringify j) = Some j.
Proof.
  unfold JSON.parse, JSON.stringify.
  rewrite parse_value_emit; [reflexivity | | reflexivity].
  pose proof (length_emit j EmptyString). simpl in *. lia.
Qed.

(** The text of a value is never the empty string, so it is truthy. *)
Lemma stringify_nonempty j : JSON.stringify j <> EmptyString.
Proof.
  intros H. pose proof (length_emit j EmptyString) as Hl.
  pose proof (sz_pos j). unfold JSON.stringify in H. rewrite H in Hl. simpl in Hl. lia.
Qed.

End JsonRoundTrip.

(** The reader reads JSON only: what it reads, [well_formed] accepts. *)

Section WellFormed.

Lemma parse_chars_step c r :
  parse_chars (String c r)
  = if is_quote c then Some (EmptyString, r)
    else if is_backslash c then
      match r with
      | String d r' =>
          if is_quote d || is_backslash d
          then match parse_chars r' with
               | Some (str, rest) => Some (String d str, rest)
               | None => None
               end
          else None
      | EmptyString => None
      end
    else match parse_chars r with
         | Some (str, rest) => Some (String c str, rest)
         | None => None
         end.
Proof. reflexivity. Qed.

Lemma scan_chars_step c r :
  scan_chars (String c r)
  = if is_quote c then Some r
    else if is_backslash c then
      match r with
      | String d r' =>
          if is_escape d then scan_chars r'
          else if Ascii.eqb d "u"%char then
            match r' with
            | String h1 (String h2 (String h3 (String h4 r''))) =>
                if is_hex h1 && is_hex h2 && is_hex h3 && is_hex h4
                then scan_chars r''
                else None
            | _ => None
            end
          else None
      | EmptyString => None
      end
    else scan_chars r.
Proof. reflexivity. Qed.

Lemma scan_chars_reads s :
  (forall str r, parse_chars s = Some (str, r) -> scan_chars s = Some r)
  /\ (forall c str r, parse_chars (String c s) = Some (str, r)
                      -> scan_chars (String c s) = Some r).
Proof.
  induction s as [ | d s [IH1 IH2]].
  - split; [discriminate | ]. intros c str r. rewrite parse_chars_step, scan_chars_step.
    destruct (is_quote c); [congruence | ]. by destruct (is_backslash c).
  - split; [exact (IH2 d) | ]. intros c str r.
    rewrite (parse_chars_step c), (scan_chars_step c).
    destruct (is_quote c); [congruence | ].
    destruct (is_backslash c).
    + unfold is_escape. destruct (is_quote d || is_backslash d); [ | discriminate].
      cbn [orb]. destruct (parse_chars s) as [[str' rest] | ] eqn:Hs; [ | discriminate].
      intros H. injection H as _ <-. by apply (IH1 str').
    + destruct (parse_chars (String d s)) as [[str' rest] | ] eqn:Hs; [ | discriminate].
      intros H. injection H as _ <-. by apply (IH2 d str').
Qed.

Lemma parse_value_first c r fuel j r' :
  parse_value (S fuel) (String c r) = Some (j, r') -> is_space c = false.
Proof.
  destruct (is_space c) eqn:Hc; [ | reflexivity]. unfold is_space in Hc.
  repeat (apply orb_prop in Hc as [Hc | Hc]);
    apply Ascii.eqb_eq in Hc; subst c; intros H; cbn in H; discriminate H.
Qed.


Lemma skip_space_parsed fuel s j r :
  parse_value fuel s = Some (j, r) -> skip_space s = s.
Proof.
  destruct fuel as [ | fuel]; [discriminate | ]. destruct s as [ | c s]; [reflexivity | ].
  intros H. cbn [skip_space]. by rewrite (parse_value_first _ _ _ _ _ H).
Qed.

Lemma strip_one a s r : strip (String a EmptyString) s = Some r -> s = String a r.
Proof.
  destruct s as [ | b s]; [discriminate | ]. cbn [strip].
  destruct (Ascii.eqb_spec a b) as [-> | ]; [ | discriminate]. congruence.
Qed.

Lemma parse_elements_first fuel s l r :
  parse_elements fuel s = Some (l, r) -> number_ends s = true /\ skip_space s = s.
Proof.
  destruct fuel as [ | fuel]; [discriminate | ]. destruct s as [ | c s]; [discriminate | ].
  cbn [parse_elements].
  destruct (Ascii.eqb_spec c "]"%char) as [-> | _]; [by split | ].
  destruct (Ascii.eqb_spec c ","%char) as [-> | _]; [by split | discriminate].
Qed.

Lemma parse_members_first fuel s m r :
  parse_members fuel s = Some (m, r) -> number_ends s = true /\ skip_space s = s.
Proof.
  destruct fuel as [ | fuel]; [discriminate | ]. destruct s as [ | c s]; [discriminate | ].
  cbn [parse_members].
  destruct (Ascii.eqb_spec c "}"%char) as [-> | _]; [by split | ].
  destruct (Ascii.eqb_spec c ","%char) as [-> | _]; [by split | discriminate].
Qed.

Lemma scan_key_reads s key r : parse_key s = Some (key, r) -> scan_key s = Some r.
Proof.
  unfold parse_key, scan_key. destruct s as [ | c s]; [discriminate | ].
  destruct (is_quote c) eqn:Hc; [ | discriminate].
  apply Ascii.eqb_eq in Hc. subst c. cbn [skip_space].
  change (is_space dquote) with false. change (is_quote dquote) with true. cbv iota.
  destruct (parse_chars s) as [[key' r'] | ] eqn:Hs; [ | discriminate].
  rewrite (proj1 (scan_chars_reads s) _ _ Hs).
  destruct r' as [ | c' r']; [discriminate | ].
  destruct (Ascii.eqb_spec c' ":"%char) as [-> | _]; [ | discriminate].
  intros H. injection H as _ <-. reflexivity.
Qed.

Lemma scan_number_reads s n r :
  parse_N s = Some (n, r) -> number_ends r = true -> scan_number s = Some r.
Proof.
  intros H Hend. unfold scan_number, scan_digits. rewrite H.
  unfold scan_fraction, scan_exponent. destruct r as [ | c r]; [reflexivity | ].
  cbn [number_ends] in Hend. apply negb_true_iff in Hend.
  apply orb_false_elim in Hend as [Hend HE]. apply orb_false_elim in Hend as [Hdot He].
  by rewrite Hdot, He, HE.
Qed.

Lemma scan_reads (fuel : nat) :
  (forall s j r, parse_value fuel s = Some (j, r) -> number_ends r = true ->
                 scan_value fuel s = Some r)
  /\ (forall s l r, parse_elements fuel s = Some (l, r) -> scan_elements fuel s = Some r)
  /\ (forall s m r, parse_members fuel s = Some (m, r) -> scan_members fuel s = Some r).
Proof.
  induction fuel as [ | fuel (IHv & IHe & IHm)]; [by repeat split | ].
  split; [ | split].
  - intros [ | c s] j r H Hend; [discriminate | ].
    cbn [scan_value skip_space]. rewrite (parse_value_first _ _ _ _ _ H).
    cbn [parse_value] in H.
    destruct (Ascii.eqb c "n"%char).
    { destruct (strip "ull" s); [ | discriminate]. congruence. }
    destruct (Ascii.eqb c "t"%char).
    { destruct (strip "rue" s); [ | discriminate]. congruence. }
    destruct (Ascii.eqb c "f"%char).
    { destruct (strip "alse" s); [ | discriminate]. congruence. }
    destruct (is_quote c).
    { destruct (parse_chars s) as [[str r'] | ] eqn:Hs; [ | discriminate].
      injection H as _ <-. exact (proj1 (scan_chars_reads s) _ _ Hs). }
    destruct (Ascii.eqb c "["%char).
    { destruct (strip "]" s) as [r' | ] eqn:Hclose.
      - apply strip_one in Hclose. subst s. injection H as _ <-. reflexivity.
      - destruct (parse_value fuel s) as [[x r1] | ] eqn:Hx; [ | discriminate].
        destruct (parse_elements fuel r1) as [[l r2] | ] eqn:Hl; [ | discriminate].
        injection H as _ <-. rewrite (skip_space_parsed _ _ _ _ Hx), Hclose.
        rewrite (IHv _ _ _ Hx (proj1 (parse_elements_first _ _ _ _ Hl))).
        by apply (IHe _ l). }
    destruct (Ascii.eqb c "{"%char).
    { destruct (strip "}" s) as [r' | ] eqn:Hclose.
      - apply strip_one in Hclose. subst s. injection H as _ <-. reflexivity.
      - destruct (parse_key s) as [[key r0] | ] eqn:Hkey; [ | discriminate].
        destruct (parse_value fuel r0) as [[x r1] | ] eqn:Hx; [ | discriminate].
        destruct (parse_members fuel r1) as [[m r2] | ] eqn:Hm; [ | discriminate].
        injection H as _ <-.
        assert (Hs : skip_space s = s).
        { unfold parse_key in Hkey. destruct s as [ | q s]; [discriminate | ].
          destruct (is_quote q) eqn:Hq; [ | discriminate].
          apply Ascii.eqb_eq in Hq. by subst q. }
        rewrite Hs, Hclose, (scan_key_reads _ _ _ Hkey).
        rewrite (IHv _ _ _ Hx (proj1 (parse_members_first _ _ _ _ Hm))).
        by apply (IHm _ m). }
    destruct (Ascii.eqb c "-"%char).
    { destruct (parse_N s) as [[n r'] | ] eqn:Hn; [ | discriminate].
      injection H as _ <-. by apply (scan_number_reads _ n). }
    destruct (parse_N (String c s)) as [[n r'] | ] eqn:Hn; [ | discriminate].
    injection H as _ <-. by apply (scan_number_reads _ n).
  - intros [ | c s] l r H; [discriminate | ]. cbn [parse_elements] in H.
    cbn [scan_elements skip_space].
    assert (Hsp : is_space c = false).
    { revert H. destruct (Ascii.eqb_spec c "]"%char) as [-> | _]; [reflexivity | ].
      destruct (Ascii.eqb_spec c ","%char) as [-> | _]; [reflexivity | discriminate]. }
    rewrite Hsp. destruct (Ascii.eqb c "]"%char); [congruence | ].
    destruct (Ascii.eqb c ","%char); [ | discriminate].
    destruct (parse_value fuel s) as [[x r1] | ] eqn:Hx; [ | discriminate].
    destruct (parse_elements fuel r1) as [[l' r2] | ] eqn:Hl; [ | discriminate].
    injection H as _ <-.
    rewrite (IHv _ _ _ Hx (proj1 (parse_elements_first _ _ _ _ Hl))).
    by apply (IHe _ l').
  - intros [ | c s] m r H; [discriminate | ]. cbn [parse_members] in H.
    cbn [scan_members skip_space].
    assert (Hsp : is_space c = false).
    { revert H. destruct (Ascii.eqb_spec c "}"%char) as [-> | _]; [reflexivity | ].
      destruct (Ascii.eqb_spec c ","%char) as [-> | _]; [reflexivity | discriminate]. }
    rewrite Hsp. destruct (Ascii.eqb c "}"%char); [congruence | ].
    destruct (Ascii.eqb c ","%char); [ | discriminate].
    destruct (parse_key s) as [[key r0] | ] eqn:Hkey; [ | discriminate].
    destruct (parse_value fuel r0) as [[x r1] | ] eqn:Hx; [ | discriminate].
    destruct (parse_members fuel r1) as [[m' r2] | ] eqn:Hm; [ | discriminate].
    injection H as _ <-. rewrite (scan_key_reads _ _ _ Hkey).
    rewrite (IHv _ _ _ Hx (proj1 (parse_members_first _ _ _ _ Hm))).
    by apply (IHm _ m').
Qed.

(** The reader reads JSON only. *)
Lemma parse_well_formed text j : JSON.parse text = Some j -> JSON.well_formed text = true.
Proof.
  unfold JSON.parse, JSON.well_formed.
  destruct (parse_value (S (String.length text)) text) as [[j' [ | c r]] | ] eqn:H;
    [ | discriminate | discriminate].
  intros _. by rewrite (proj1 (scan_reads _) _ _ _ H eq_refl).
Qed.

End WellFormed.

Example parse_cut_short : JSON.parse "[{" = None.
Proof. vm_compute. reflexivity. Qed.

Example parse_empty_object : JSON.parse "{}" = Some (JObj []).
Proof. vm_compute. reflexivity. Qed.

Example parse_numbers : JSON.parse "[1,-20,[]]" = Some (JArr [JNum 1; JNum (-20); JArr []]).
Proof. vm_compute. reflexivity. Qed.

(** * Facts about the typed values read back from JSON *)

Lemma list_of_json_of_list {T} `{EncodableLaw T} (l : list T) :
  list_of_json (json_of_list l) = Some l.
Proof.
  unfold list_of_json, json_of_list.
  induction l as [ | x l IH]; simpl; [reflexivity | ].
  rewrite of_to_json, IH. reflexivity.
Qed.

Lemma table_of_json_of_table {T} `{EncodableLaw T} (t : Table T) :
  table_of_json (json_of_table t) = Some t.
Proof.
  unfold table_of_json, json_of_table.
  induction t as [ | [k v] t IH]; simpl; [reflexivity | ].
  rewrite of_to_json, IH. reflexivity.
Qed.


#[export] Instance EncodableLaw_list {T} `{EncodableLaw T} : EncodableLaw (list T) :=
  list_of_json_of_list.

#[export] Instance EncodableLaw_table {T} `{EncodableLaw T} : EncodableLaw (Table T) :=
  table_of_json_of_table.

#[export] Instance EncodableLaw_json : EncodableLaw Json := fun _ => eq_refl.

#[export] Instance EncodableLaw_operation : EncodableLaw QueuedOperation.t.
Proof. intros [i ty d ts rc]. reflexivity. Qed.

Lemma truthy_text_stringify (j : Json) :
  truthy_text (Some (JSON.stringify j)) = Some (JSON.stringify j).
Proof.
  pose proof (stringify_nonempty j) as H.
  destruct (JSON.stringify j); [congruence | reflexivity].
Qed.

Lemma revive_to_json {T} `{EncodableLaw T} (t : T) : revive (to_json t) = Typed t.
Proof. unfold revive. by rewrite of_to_json. Qed.

(** Unfolding the state-and-exception combinators. *)
Ltac run :=
  unfold bind, ret, throw, get, gets, modify, try_catch, try_finally, zoom, use, await in *;
  simpl in *.

Lemma bind_unfold {S A B} (m : M S A) (k : A -> M S B) (s : S) :
  bind m k s = match m s with
               | (Ok a, s') => k a s'
               | (Throw e, s') => (Throw e, s')
               end.
Proof. reflexivity. Qed.

Lemma try_catch_unfold {S A} (body : M S A) (handler : Exn -> M S A) (s : S) :
  try_catch body handler s = match body s with
                             | (Ok a, s') => (Ok a, s')
                             | (Throw e, s') => handler e s'
                             end.
Proof. reflexivity. Qed.

Lemma try_finally_unfold {S A} (body : M S A) (final : M S unit) (s : S) :
  try_finally body final s = match body s with
                             | (r, s') => match final s' with
                                          | (Ok _, s'') => (r, s'')
                                          | (Throw e, s'') => (Throw e, s'')
                                          end
                             end.
Proof. reflexivity. Qed.

Lemma stateless_ret {S A} (a : A) : stateless (S := S) (ret a) (ret a).
Proof. intros s. reflexivity. Qed.

Lemma stateless_throw {S A} (e : Exn) : stateless (S := S) (A := A) (throw e) (throw e).
Proof. intros s. reflexivity. Qed.

Lemma stateless_bind {S A B} (m : M S A) (m0 : M unit A) (k : A -> M S B) (k0 : A -> M unit B) :
  stateless m m0 -> (forall a, stateless (k a) (k0 a)) -> stateless (bind m k) (bind m0 k0).
Proof.
  intros Hm Hk s. unfold bind. rewrite Hm.
  destruct (m0 ()) as [[a | e] []]; simpl; [apply Hk | reflexivity].
Qed.

Ltac stateless :=
  repeat first [ apply stateless_ret | apply stateless_throw
               | apply stateless_bind; [ | intros ?] | case_match ].

(** * OfflineQueueService: status, loading and saving *)

Section QueueStorage.
Context {L : Type} (listeners : OfflineStatus.t -> L -> L).

Import OfflineQueueService.

Lemma loadQueueFromStorage_typed (st : State L) (ops : list QueuedOperation.t) :
  readFault (localStorage st) = false ->
  items (localStorage st) !! STORAGE_KEY = Some (JSON.stringify (to_json ops)) ->
  loadQueueFromStorage st
  = (Ok tt, mkState (Typed ops) (isOnline st) (processingQueue st)
              (localStorage st) (subscribers st)).
Proof.
  intros Hread Hitem. unfold loadQueueFromStorage, set_queue, JSON_parse, getItem.
  run. rewrite Hread, Hitem, truthy_text_stringify, parse_stringify. simpl.
  change (json_of_list ops) with (to_json ops).
  rewrite (revive_to_json ops). simpl. by destruct st.
Qed.

Lemma saveQueueToStorage_typed (st : State L) (ops : list QueuedOperation.t) :
  queue st = Typed ops ->
  writeFault (localStorage st) = false ->
  saveQueueToStorage st
  = (Ok tt, set_localStorage
              (mkLocalStorage
                 (<[STORAGE_KEY := JSON.stringify (to_json ops)]> (items (localStorage st)))
                 (readFault (localStorage st)) false) st).
Proof.
  intros Hq Hwrite. unfold saveQueueToStorage, setItem. run.
  rewrite Hwrite, Hq. reflexivity.
Qed.

(** Saving never throws, whatever the store does. *)
Lemma saveQueueToStorage_ok (st : State L) :
  exists ls', saveQueueToStorage st = (Ok tt, set_localStorage ls' st).
Proof.
  unfold saveQueueToStorage, setItem. run.
  destruct (writeFault (localStorage st)) eqn:Hw; simpl; eexists; reflexivity.
Qed.

End QueueStorage.

(** C9. [getStatus] reports the current clock time as [lastOnlineTime] when
    the service is online and [null] when it is offline, and its [isOnline]
    is the field of the service.  The status is computed from the present
    state alone and no time of the last connection is kept: once the
    [offline] event has been handled, at a time when the service may well
    have been online, every later status has [lastOnlineTime = null]. *)
Theorem getStatus_lastOnlineTime {L : Type} (listeners : OfflineStatus.t -> L -> L)
    (now later : Z) (st : OfflineQueueService.State L) :
  OfflineStatus.lastOnlineTime (OfflineQueueService.getStatus now st)
  = (if OfflineQueueService.isOnline st then Some now else None)
  /\ OfflineStatus.isOnline (OfflineQueueService.getStatus now st)
     = OfflineQueueService.isOnline st
  /\ OfflineStatus.lastOnlineTime
       (OfflineQueueService.getStatus later
          (snd (OfflineQueueService.onOffline listeners now st)))
     = None.
Proof. repeat split. Qed.

(** C10. When the snapshot of the queue is absent from the store or is not
    JSON (a text that the grammar of JSON refuses, so that [JSON.parse]
    throws), the constructor returns normally with an empty queue, whether
    the store can be read or not, without notifying anyone and without
    touching the store: the operations of a corrupt snapshot are gone from
    the service. *)
Theorem new_without_snapshot {L : Type} (navigator_onLine : bool) (ls : LocalStorage)
    (subs : L) :
  snapshot_absent_or_corrupt ls ->
  OfflineQueueService.new navigator_onLine ls subs
  = (Ok tt, OfflineQueueService.mkState (Typed []) navigator_onLine false ls subs).
Proof.
  unfold snapshot_absent_or_corrupt, OfflineQueueService.new,
    OfflineQueueService.loadQueueFromStorage, OfflineQueueService.set_queue,
    JSON_parse, getItem.
  intros H. run. destruct (readFault ls); [reflexivity | ]. simpl.
  destruct (items ls !! OfflineQueueService.STORAGE_KEY) as [text | ]; [ | reflexivity].
  destruct text as [ | c text]; [reflexivity | ]. simpl.
  destruct (JSON.parse (String c text)) as [j | ] eqn:Hread; [ | reflexivity].
  apply parse_well_formed in Hread. congruence.
Qed.

Lemma new_without_snapshot_witness :
  snapshot_absent_or_corrupt corrupt_store
  /\ OfflineQueueService.new true corrupt_store tt
     = (Ok tt, OfflineQueueService.mkState (Typed []) true false corrupt_store tt).
Proof.
  assert (H : snapshot_absent_or_corrupt corrupt_store) by (vm_compute; reflexivity).
  split; [exact H | ].
  exact (new_without_snapshot true corrupt_store tt H).
Defined.

(** C5. When the store accepts the write and the read, the queue that
    [saveQueueToStorage] wrote is the queue a new instance of the service
    starts with: the same operations, in the same order. *)
Theorem queue_round_trip {L : Type} (st : OfflineQueueService.State L)
    (ops : list QueuedOperation.t) (navigator_onLine : bool) (subs : L) :
  OfflineQueueService.queue st = Typed ops ->
  writeFault (OfflineQueueService.localStorage st) = false ->
  readFault (OfflineQueueService.localStorage st) = false ->
  exists st',
    OfflineQueueService.saveQueueToStorage st = (Ok tt, st')
    /\ exists st'',
        OfflineQueueService.new navigator_onLine (OfflineQueueService.localStorage st') subs
        = (Ok tt, st'')
        /\ OfflineQueueService.queue st'' = Typed ops.
Proof.
  intros Hq Hwrite Hread. eexists. split.
  { by apply saveQueueToStorage_typed. }
  eexists. split.
  - unfold OfflineQueueService.new. apply (loadQueueFromStorage_typed _ ops).
    + simpl. exact Hread.
    + simpl. apply lookup_insert_eq.
  - reflexivity.
Qed.

(** * OfflineQueueService: the drain of [processQueue] *)

Section QueueDrain.
Context {L : Type} (listeners : OfflineStatus.t -> L -> L).

Import OfflineQueueService.

Lemma executeOperation_pure {S} (b : Backend) (op : QueuedOperation.t) (s : S) :
  executeOperation b op s = (fst (executeOperation b op tt), s).
Proof.
  revert s. change (stateless (S := S) (executeOperation b op) (executeOperation b op)).
  unfold executeOperation, import_AuthService, destructure, AuthService.updateProfile, await.
  stateless.
Qed.

Lemma executes_incrementRetryCount (b : Backend) (op : QueuedOperation.t) :
  executes b (QueuedOperation.incrementRetryCount op) = executes b op.
Proof. reflexivity. Qed.

Lemma processOne_typed (b : Backend) (operation : QueuedOperation.t)
    (st : State L) (ops : list QueuedOperation.t) :
  queue st = Typed ops ->
  exists st', processOne b operation st = (Ok tt, st')
              /\ st' = with_queue (after_one b ops operation) st.
Proof.
  intros Hq. unfold processOne, after_one, executes, set_queue.
  unfold try_catch at 1. unfold bind at 1.
  rewrite executeOperation_pure.
  destruct (fst (executeOperation b operation ())) as [[] | e]; run; rewrite Hq; simpl.
  - eexists; split; reflexivity.
  - destruct (find_op (QueuedOperation.id operation) ops) as [queuedOperation | ]; simpl.
    + destruct (QueuedOperation.retryCount queuedOperation + 1 >=? MAX_RETRY_COUNT);
        simpl; eexists; split; reflexivity.
    + eexists; split; [reflexivity | ]. unfold with_queue. destruct st; simpl in *; congruence.
Qed.

Lemma processAll_typed (b : Backend) (todo : list QueuedOperation.t) :
  forall (st : State L) (ops : list QueuedOperation.t),
    queue st = Typed ops ->
    for_each todo (processOne b) st
    = (Ok tt, with_queue (foldl (after_one b) ops todo) st).
Proof.
  induction todo as [ | operation todo IH]; intros st ops Hq.
  - simpl. unfold ret, with_queue. destruct st; simpl in *; congruence.
  - simpl. unfold bind at 1.
    destruct (processOne_typed b operation st ops Hq) as (st' & -> & ->).
    rewrite (IH _ (after_one b ops operation)) by reflexivity.
    reflexivity.
Qed.

(** One drain of a non-empty queue, online and not already draining. *)
Lemma processQueue_typed (b : Backend) (now : Z) (st : State L)
    (ops : list QueuedOperation.t) :
  queue st = Typed ops -> ops <> [] ->
  isOnline st = true -> processingQueue st = false ->
  exists ls',
    processQueue listeners b now st
    = (Ok tt,
       mkState (Typed (foldl (after_one b) ops ops)) true false ls'
         (listeners
            (OfflineStatus.mk true (Some now)
               (Some (Z.of_nat (length (foldl (after_one b) ops ops)))))
            (subscribers st))).
Proof.
  intros Hq Hne Hon Hproc. unfold processQueue.
  unfold bind at 1. unfold get. rewrite Hon, Hproc, Hq. simpl.
  rewrite bool_decide_eq_false_2.
  2:{ intros [= H]. destruct ops; [congruence | simpl in H; lia]. }
  unfold set_processingQueue.
  cbn [bind ret get gets modify use queue]. rewrite Hq. cbn [bind ret use].
  rewrite bind_unfold. erewrite processAll_typed by reflexivity.
  rewrite bind_unfold.
  match goal with |- context [saveQueueToStorage ?s] =>
    destruct (saveQueueToStorage_ok s) as (ls' & ->) end.
  exists ls'. unfold notifyListeners, getStatus. run. rewrite Hon. reflexivity.
Qed.

Lemma processQueue_empty (b : Backend) (now : Z) (st : State L) :
  queue st = Typed [] -> processQueue listeners b now st = (Ok tt, st).
Proof.
  intros Hq. unfold processQueue. unfold bind at 1. unfold get. rewrite Hq. simpl.
  rewrite orb_true_r. reflexivity.
Qed.

(** A drain ends by writing the queue it leaves to the store. *)
Lemma processQueue_saves (b : Backend) (now : Z) (st : State L)
    (ops : list QueuedOperation.t) :
  queue st = Typed ops -> ops <> [] ->
  isOnline st = true -> processingQueue st = false ->
  writeFault (localStorage st) = false ->
  items (localStorage (snd (processQueue listeners b now st))) !! STORAGE_KEY
  = Some (JSON.stringify (to_json (foldl (after_one b) ops ops))).
Proof.
  intros Hq Hne Hon Hproc Hwrite. unfold processQueue.
  unfold bind at 1. unfold get. rewrite Hon, Hproc, Hq. simpl.
  rewrite bool_decide_eq_false_2.
  2:{ intros [= H]. destruct ops; [congruence | simpl in H; lia]. }
  unfold set_processingQueue.
  cbn [bind ret get gets modify use queue]. rewrite Hq. cbn [bind ret use].
  rewrite bind_unfold. erewrite processAll_typed by reflexivity.
  rewrite bind_unfold.
  erewrite saveQueueToStorage_typed by (reflexivity || exact Hwrite).
  unfold notifyListeners. cbn. apply lookup_insert_eq.
Qed.

(** So does [addToQueue], here while offline, when no drain follows. *)
Lemma addToQueue_saves (type : string) (data : Json) (random : string) (b : Backend)
    (now : Z) (st : State L) (ops : list QueuedOperation.t) :
  queue st = Typed ops -> isOnline st = false ->
  writeFault (localStorage st) = false ->
  exists operation st',
    addToQueue listeners type data random b now st = (Ok (QueuedOperation.id operation), st')
    /\ queue st' = Typed (ops ++ [operation])
    /\ QueuedOperation.retryCount operation = 0
    /\ items (localStorage st') !! STORAGE_KEY
       = Some (JSON.stringify (to_json (ops ++ [operation]))).
Proof.
  intros Hq Hoff Hwrite. unfold addToQueue, set_queue.
  cbn [bind ret gets modify use]. rewrite Hq. cbn [bind ret use modify].
  rewrite bind_unfold.
  erewrite saveQueueToStorage_typed by (reflexivity || exact Hwrite).
  unfold notifyListeners. cbn [bind ret get modify isOnline set_subscribers set_localStorage].
  rewrite Hoff. cbn [bind ret].
  eexists _, _. split; [reflexivity | ]. cbn. repeat split. apply lookup_insert_eq.
Qed.

(** *** What a drain does to the entry with a given id *)

Lemma find_op_without (i i' : string) (ops : list QueuedOperation.t) :
  find_op i (without i' ops) = if String.eqb i' i then None else find_op i ops.
Proof.
  unfold find_op, without, has_id. induction ops as [ | op ops IH]; simpl.
  - by destruct (String.eqb i' i).
  - destruct (String.eqb_spec (QueuedOperation.id op) i') as [He | Hne]; simpl.
    + rewrite IH. destruct (String.eqb_spec i' i) as [-> | Hne'].
      * reflexivity.
      * destruct (String.eqb_spec (QueuedOperation.id op) i); [congruence | reflexivity].
    + destruct (String.eqb_spec (QueuedOperation.id op) i) as [He | Hne'].
      * destruct (String.eqb_spec i' i); [congruence | reflexivity].
      * exact IH.
Qed.

Lemma find_op_increment_found (i i' : string) (ops : list QueuedOperation.t) :
  find_op i (increment_found i' ops)
  = if String.eqb i' i then QueuedOperation.incrementRetryCount <$> find_op i ops
    else find_op i ops.
Proof.
  unfold find_op, has_id. induction ops as [ | op ops IH]; simpl.
  - by destruct (String.eqb i' i).
  - unfold has_id at 1.
    destruct (String.eqb_spec (QueuedOperation.id op) i') as [He | Hne]; simpl.
    + destruct (String.eqb_spec i' i) as [-> | Hne'].
      * rewrite He, String.eqb_refl. reflexivity.
      * destruct (String.eqb_spec (QueuedOperation.id op) i); [congruence | reflexivity].
    + destruct (String.eqb_spec (QueuedOperation.id op) i) as [He | Hne'].
      * destruct (String.eqb_spec i' i); [congruence | reflexivity].
      * exact IH.
Qed.

Lemma find_op_after_one (b : Backend) (i : string) (ops : list QueuedOperation.t)
    (operation : QueuedOperation.t) :
  find_op i (after_one b ops operation)
  = entry_after_one b i (find_op i ops) operation.
Proof.
  unfold after_one, entry_after_one.
  destruct (executes b operation).
  - rewrite find_op_without. by destruct (String.eqb _ i).
  - destruct (String.eqb_spec (QueuedOperation.id operation) i) as [-> | Hne].
    + destruct (find_op i ops) as [queuedOperation | ] eqn:Hfind; [ | by rewrite Hfind].
      destruct (QueuedOperation.retryCount queuedOperation + 1 >=? MAX_RETRY_COUNT).
      * rewrite find_op_without, String.eqb_refl. reflexivity.
      * rewrite find_op_increment_found, String.eqb_refl, Hfind. reflexivity.
    + destruct (find_op (QueuedOperation.id operation) ops) as [queuedOperation | ];
        [ | reflexivity].
      destruct (QueuedOperation.retryCount queuedOperation + 1 >=? MAX_RETRY_COUNT).
      * rewrite find_op_without, find_op_increment_found.
        apply String.eqb_neq in Hne. rewrite Hne. reflexivity.
      * rewrite find_op_increment_found. apply String.eqb_neq in Hne. by rewrite Hne.
Qed.

Lemma find_op_after_others (b : Backend) (i : string) (todo : list QueuedOperation.t) :
  i ∉ ids todo ->
  forall ops, find_op i (foldl (after_one b) ops todo) = find_op i ops.
Proof.
  induction todo as [ | operation todo IH]; intros Hnotin ops; [reflexivity | ].
  simpl in *. apply not_elem_of_cons in Hnotin as [Hne Hnotin].
  rewrite IH by exact Hnotin. rewrite find_op_after_one. unfold entry_after_one.
  destruct (String.eqb_spec (QueuedOperation.id operation) i); [congruence | reflexivity].
Qed.

Lemma find_op_after_all (b : Backend) (op : QueuedOperation.t)
    (todo : list QueuedOperation.t) :
  NoDup (ids todo) -> op ∈ todo ->
  forall ops,
    find_op (QueuedOperation.id op) (foldl (after_one b) ops todo)
    = entry_after_one b (QueuedOperation.id op)
        (find_op (QueuedOperation.id op) ops) op.
Proof.
  induction todo as [ | operation todo IH]; intros Hnodup Hin ops.
  - by apply elem_of_nil in Hin.
  - simpl in *. apply NoDup_cons in Hnodup as [Hfresh Hnodup].
    apply elem_of_cons in Hin as [-> | Hin].
    + rewrite find_op_after_others by exact Hfresh. apply find_op_after_one.
    + rewrite IH by assumption. rewrite find_op_after_one.
      unfold entry_after_one at 2.
      destruct (String.eqb_spec (QueuedOperation.id operation) (QueuedOperation.id op))
        as [He | Hne]; [ | reflexivity].
      exfalso. apply Hfresh. rewrite He. unfold ids. by apply list_elem_of_fmap_2.
Qed.

Lemma find_op_elem_of (op : QueuedOperation.t) (ops : list QueuedOperation.t) :
  NoDup (ids ops) -> op ∈ ops -> find_op (QueuedOperation.id op) ops = Some op.
Proof.
  unfold find_op, has_id. induction ops as [ | o ops IH]; intros Hnodup Hin.
  - by apply elem_of_nil in Hin.
  - simpl in *. apply NoDup_cons in Hnodup as [Hfresh Hnodup].
    apply elem_of_cons in Hin as [-> | Hin].
    + by rewrite String.eqb_refl.
    + destruct (String.eqb_spec (QueuedOperation.id o) (QueuedOperation.id op)) as [He | Hne].
      * exfalso. apply Hfresh. rewrite He. unfold ids. by apply list_elem_of_fmap_2.
      * by apply IH.
Qed.

Lemma find_op_Some (i : string) (op : QueuedOperation.t) (ops : list QueuedOperation.t) :
  find_op i ops = Some op -> op ∈ ops /\ QueuedOperation.id op = i.
Proof.
  unfold find_op, has_id. induction ops as [ | o ops IH]; simpl; [discriminate | ].
  destruct (String.eqb_spec (QueuedOperation.id o) i) as [He | Hne].
  - intros [= ->]. split; [left | exact He].
  - intros H. destruct (IH H). split; [by right | assumption].
Qed.

(** The ids stay distinct. *)
Lemma ids_increment_found (i : string) (ops : list QueuedOperation.t) :
  ids (increment_found i ops) = ids ops.
Proof.
  induction ops as [ | op ops IH]; [reflexivity | ].
  simpl. destruct (has_id i op); simpl; [reflexivity | by rewrite IH].
Qed.

Lemma NoDup_ids_without (i : string) (ops : list QueuedOperation.t) :
  NoDup (ids ops) -> NoDup (ids (without i ops)).
Proof.
  unfold without. induction ops as [ | op ops IH]; intros Hnodup; [constructor | ].
  simpl in Hnodup. apply NoDup_cons in Hnodup as [Hfresh Hnodup].
  simpl. destruct (negb (has_id i op)); [ | by apply IH].
  simpl. apply NoDup_cons. split; [ | by apply IH].
  intros Hin. apply Hfresh. unfold ids in *.
  apply list_elem_of_fmap in Hin as (o & -> & Hin).
  apply list_elem_of_In, filter_In in Hin as [Hin _].
  apply list_elem_of_fmap_2. by apply list_elem_of_In.
Qed.

Lemma NoDup_ids_after_one (b : Backend) (ops : list QueuedOperation.t)
    (operation : QueuedOperation.t) :
  NoDup (ids ops) -> NoDup (ids (after_one b ops operation)).
Proof.
  intros Hnodup. unfold after_one. repeat case_match;
    try apply NoDup_ids_without; rewrite ?ids_increment_found; assumption.
Qed.

Lemma NoDup_ids_after_all (b : Backend) (todo ops : list QueuedOperation.t) :
  NoDup (ids ops) -> NoDup (ids (foldl (after_one b) ops todo)).
Proof.
  revert ops. induction todo as [ | operation todo IH]; intros ops Hnodup; [assumption | ].
  simpl. apply IH. by apply NoDup_ids_after_one.
Qed.

(** One failed attempt: the counter of the entry goes up by one, and the
    entry goes away when the counter reaches [MAX_RETRY_COUNT]. *)
Lemma failed_attempt (b : Backend) (op : QueuedOperation.t)
    (ops : list QueuedOperation.t) :
  NoDup (ids ops) -> op ∈ ops -> executes b op = false ->
  find_op (QueuedOperation.id op) (drained b ops)
  = if QueuedOperation.retryCount op + 1 >=? MAX_RETRY_COUNT then None
    else Some (QueuedOperation.incrementRetryCount op).
Proof.
  intros Hnodup Hin Hfails. unfold drained.
  rewrite find_op_after_all by assumption.
  rewrite find_op_elem_of by assumption.
  unfold entry_after_one. by rewrite String.eqb_refl, Hfails.
Qed.

End QueueDrain.

(** * Retry exhaustion in [processQueue] *)

Section RetryExhaustion.
Import OfflineQueueService BackgroundSyncService.

Lemma errors_onOfflineStatus (status : OfflineStatus.t) (bs : Fields) :
  errors (onOfflineStatus status bs) = errors bs.
Proof. unfold onOfflineStatus, notify. repeat case_match; reflexivity. Qed.

Lemma find_op_None (i : string) (ops : list QueuedOperation.t) :
  find_op i ops = None -> i ∉ ids ops.
Proof.
  unfold find_op, has_id, ids. induction ops as [ | o ops IH]; simpl.
  - intros _. apply not_elem_of_nil.
  - destruct (String.eqb_spec (QueuedOperation.id o) i) as [He | Hne]; [discriminate | ].
    intros H. apply not_elem_of_cons. split; [congruence | by apply IH].
Qed.

Lemma one_more_failed_drain (b : Backend) (now : Z) (w : World)
    (ops : list QueuedOperation.t) (op : QueuedOperation.t) (k : Z) :
  queue w = Typed ops -> NoDup (ids ops) ->
  isOnline w = true -> processingQueue w = false ->
  find_op (QueuedOperation.id op) ops = entry_after k op ->
  executes b op = false ->
  exists w' ops',
    offlineQueue_processQueue b now w = (Ok tt, w')
    /\ queue w' = Typed ops' /\ NoDup (ids ops')
    /\ isOnline w' = true /\ processingQueue w' = false
    /\ find_op (QueuedOperation.id op) ops' = entry_after (k + 1) op
    /\ errors (fields w') = errors (fields w).
Proof.
  intros Hq Hnodup Hon Hproc Hentry Hfails. unfold offlineQueue_processQueue.
  assert (Hnext : find_op (QueuedOperation.id op) (drained b ops) = entry_after (k + 1) op).
  { unfold entry_after in *. destruct (Z.ltb_spec k MAX_RETRY_COUNT) as [Hlt | Hge].
    - apply find_op_Some in Hentry as Hin. destruct Hin as [Hin _].
      change (QueuedOperation.id op) with (QueuedOperation.id (with_retryCount k op)).
      rewrite (failed_attempt b _ ops Hnodup Hin) by exact Hfails. simpl.
      unfold MAX_RETRY_COUNT in *.
      destruct (Z.geb_spec (k + 1) 3), (Z.ltb_spec (k + 1) 3); try lia; reflexivity.
    - unfold drained. rewrite find_op_after_others by (by apply find_op_None).
      rewrite Hentry. unfold MAX_RETRY_COUNT in *.
      destruct (Z.ltb_spec (k + 1) 3); [lia | reflexivity]. }
  destruct ops as [ | o ops'] eqn:Hops.
  - exists w, []. rewrite processQueue_empty by exact Hq.
    repeat split; solve [assumption | exact Hnext].
  - rewrite <- Hops in *.
    destruct (processQueue_typed onOfflineStatus b now w ops Hq) as (ls' & ->);
      [subst; discriminate | assumption | assumption | ].
    eexists _, _. split; [reflexivity | ].
    unfold fields. cbn [queue isOnline processingQueue subscribers].
    repeat split; try reflexivity.
    + by apply NoDup_ids_after_all.
    + exact Hnext.
    + apply errors_onOfflineStatus.
Qed.

Lemma failed_drains (plan : list (Backend * Z)) (op : QueuedOperation.t) :
  Forall (fun bn => executes (fst bn) op = false) plan ->
  forall (w : World) (ops : list QueuedOperation.t) (k : Z),
    queue w = Typed ops -> NoDup (ids ops) ->
    isOnline w = true -> processingQueue w = false ->
    find_op (QueuedOperation.id op) ops = entry_after k op ->
    exists w' ops',
      drains plan w = (Ok tt, w')
      /\ queue w' = Typed ops'
      /\ find_op (QueuedOperation.id op) ops' = entry_after (k + Z.of_nat (length plan)) op
      /\ errors (fields w') = errors (fields w).
Proof.
  induction 1 as [ | [b now] plan Hfails _ IH]; intros w ops k Hq Hnodup Hon Hproc Hentry.
  - exists w, ops. simpl. rewrite Z.add_0_r. by repeat split.
  - simpl in Hfails.
    destruct (one_more_failed_drain b now w ops op k Hq Hnodup Hon Hproc Hentry Hfails)
      as (w1 & ops1 & Hrun & Hq1 & Hnodup1 & Hon1 & Hproc1 & Hentry1 & Herr1).
    destruct (IH w1 ops1 (k + 1) Hq1 Hnodup1 Hon1 Hproc1 Hentry1)
      as (w' & ops' & Hrun' & Hq' & Hentry' & Herr').
    exists w', ops'. simpl. rewrite bind_unfold, Hrun, Hrun'.
    repeat split; [exact Hq' | | congruence].
    rewrite Hentry'. f_equal. lia.
Qed.

End RetryExhaustion.

(** C1 (amended). An operation with an id of its own whose backend call
    fails at every attempt has its [retryCount] raised by one by each drain
    of [processQueue], and the third failed drain removes it from the
    queue: after [n] failed drains the queue holds it with [retryCount = n]
    when [n < 3] and holds it no more when [n >= 3].  No drain throws, and
    the [errors] of the status of the coordinator are what they were: the
    drop is not recorded there. *)
Theorem retry_exhaustion (w : BackgroundSyncService.World)
    (ops : list QueuedOperation.t) (op : QueuedOperation.t) (plan : list (Backend * Z)) :
  OfflineQueueService.queue w = Typed ops ->
  NoDup (ids ops) ->
  op ∈ ops ->
  QueuedOperation.retryCount op = 0 ->
  OfflineQueueService.isOnline w = true ->
  OfflineQueueService.processingQueue w = false ->
  Forall (fun bn => executes (fst bn) op = false) plan ->
  exists w' ops',
    drains plan w = (Ok tt, w')
    /\ OfflineQueueService.queue w' = Typed ops'
    /\ OfflineQueueService.find_op (QueuedOperation.id op) ops'
       = (if Z.of_nat (length plan) <? OfflineQueueService.MAX_RETRY_COUNT
          then Some (with_retryCount (Z.of_nat (length plan)) op)
          else None)
    /\ forall now, SyncStatus.errors (BackgroundSyncService.getStatus now w')
                   = SyncStatus.errors (BackgroundSyncService.getStatus now w).
Proof.
  intros Hq Hnodup Hin Hzero Hon Hproc Hfails.
  destruct (failed_drains plan op Hfails w ops 0 Hq Hnodup Hon Hproc)
    as (w' & ops' & Hrun & Hq' & Hentry & Herr).
  { rewrite find_op_elem_of by assumption. unfold entry_after. simpl.
    f_equal. unfold with_retryCount. destruct op; simpl in *; congruence. }
  exists w', ops'. repeat split; try assumption.
  intros now. unfold BackgroundSyncService.getStatus, BackgroundSyncService.status_of.
  simpl. exact Herr.
Qed.

Lemma retry_exhaustion_witness :
  exists w' ops',
    drains [(no_user, 1000); (no_user, 2000); (no_user, 3000)] two_pending = (Ok tt, w')
    /\ OfflineQueueService.queue w' = Typed ops'
    /\ OfflineQueueService.find_op (QueuedOperation.id rename_ana) ops' = None
    /\ forall now, SyncStatus.errors (BackgroundSyncService.getStatus now w')
                   = SyncStatus.errors (BackgroundSyncService.getStatus now two_pending).
Proof.
  apply (retry_exhaustion two_pending [rename_ana; new_report] rename_ana
           [(no_user, 1000); (no_user, 2000); (no_user, 3000)]).
  - vm_compute. reflexivity.
  - apply (bool_decide_unpack _). vm_compute. exact I.
  - by left.
  - reflexivity.
  - vm_compute. reflexivity.
  - vm_compute. reflexivity.
  - repeat constructor.
Defined.

(** C1 as stated fails: after three failed drains the operation is out of
    the queue, and neither the status of the coordinator nor any status its
    listeners received has an error. *)
Lemma retry_exhaustion_not_in_errors :
  let w3 := snd (drains [(no_user, 1000); (no_user, 2000); (no_user, 3000)] one_pending) in
  OfflineQueueService.queue w3 = Typed []
  /\ SyncStatus.errors (BackgroundSyncService.getStatus 4000 w3) = []
  /\ Forall (fun status => SyncStatus.errors status = [])
       (BackgroundSyncService.received (BackgroundSyncService.fields w3))
  /\ OfflineStatus.queuedOperations (OfflineQueueService.getStatus 4000 w3) = Some 0.
Proof. vm_compute. repeat split; repeat constructor. Qed.

(** * The drain of [performSync] *)

Section CoordinatorDrain.
Import OfflineQueueService BackgroundSyncService.

Lemma syncByType_pure {S} (b : Backend) (op : QueuedOperation.t) (s : S) :
  syncByType b op s = (fst (syncByType b op tt), s).
Proof.
  revert s. change (stateless (S := S) (syncByType b op) (syncByType b op)).
  unfold syncByType, syncCreatePost, syncUpdateProfile, syncDeletePost,
    import_AuthService, destructure, AuthService.updateProfile, await.
  stateless.
Qed.

Lemma same_progress_refl (bs : Fields) : same_progress bs bs.
Proof. by repeat split. Qed.

Lemma same_progress_trans (bs1 bs2 bs3 : Fields) :
  same_progress bs1 bs2 -> same_progress bs2 bs3 -> same_progress bs1 bs3.
Proof. unfold same_progress. intros (? & ? & ?) (? & ? & ?). repeat split; congruence. Qed.

Lemma same_progress_onOfflineStatus (status : OfflineStatus.t) (bs : Fields) :
  same_progress bs (onOfflineStatus status bs).
Proof. unfold onOfflineStatus, notify. repeat case_match; by repeat split. Qed.

Lemma removeFromQueue_typed (i : string) (now : Z) (w : World)
    (ops : list QueuedOperation.t) :
  queue w = Typed ops ->
  exists r w',
    offlineQueue_removeFromQueue i now w = (Ok r, w')
    /\ queue w' = Typed (without i ops)
    /\ same_progress (fields w) (fields w').
Proof.
  intros Hq. unfold offlineQueue_removeFromQueue, removeFromQueue, set_queue.
  cbn [bind ret gets modify use]. rewrite Hq. cbn [bind ret use modify].
  destruct (length (without i ops) <? length ops)%nat.
  - rewrite bind_unfold.
    match goal with |- context [saveQueueToStorage ?s] =>
      destruct (saveQueueToStorage_ok s) as (ls' & ->) end.
    unfold notifyListeners. cbn [bind ret modify].
    eexists _, _. split; [reflexivity | ]. unfold fields. cbn [queue subscribers set_localStorage set_subscribers].
    split; [reflexivity | apply same_progress_onOfflineStatus].
  - eexists _, _. split; [reflexivity | ]. unfold fields. cbn [queue subscribers].
    split; [reflexivity | apply same_progress_refl].
Qed.

Lemma syncOperation_typed (b : Backend) (now : Z) (op : QueuedOperation.t) (w : World)
    (ops : list QueuedOperation.t) :
  queue w = Typed ops ->
  exists outcome w',
    syncOperation b now op w = (Ok outcome, w')
    /\ SyncOutcome.success outcome = synced b op
    /\ queue w' = Typed (after_sync b ops op)
    /\ same_progress (fields w) (fields w').
Proof.
  intros Hq. unfold syncOperation, after_sync, synced.
  rewrite try_catch_unfold, bind_unfold, syncByType_pure.
  destruct (fst (syncByType b op ())) as [[] | e].
  - rewrite bind_unfold.
    destruct (removeFromQueue_typed (QueuedOperation.id op) now w ops Hq)
      as (r & w' & -> & Hq' & Hsame).
    unfold ret. eexists _, _. split; [reflexivity | ].
    split; [reflexivity | split; [exact Hq' | exact Hsame]].
  - unfold ret. eexists _, _. split; [reflexivity | ].
    split; [reflexivity | split; [exact Hq | apply same_progress_refl]].
Qed.

Lemma allSettled_typed (b : Backend) (now : Z) (batch : list QueuedOperation.t) :
  forall (w : World) (ops : list QueuedOperation.t),
    queue w = Typed ops ->
    exists results w',
      allSettled (syncOperation b now) batch w = (Ok results, w')
      /\ queue w' = Typed (foldl (after_sync b) ops batch)
      /\ same_progress (fields w) (fields w').
Proof.
  induction batch as [ | op batch IH]; intros w ops Hq.
  - exists [], w. split; [reflexivity | split; [exact Hq | apply same_progress_refl]].
  - cbn [allSettled]. rewrite bind_unfold.
    destruct (syncOperation_typed b now op w ops Hq) as (outcome & w1 & -> & _ & Hq1 & Hsame1).
    rewrite bind_unfold.
    destruct (IH w1 _ Hq1) as (results & w' & -> & Hq' & Hsame').
    unfold ret. eexists _, _. split; [reflexivity | ].
    split; [exact Hq' | by eapply same_progress_trans].
Qed.

Lemma syncBatches_typed (b : Backend) (now : Z) (todo : list (list QueuedOperation.t)) :
  forall (w : World) (ops : list QueuedOperation.t) (acc : Tally),
    queue w = Typed ops ->
    exists counts w',
      syncBatches b now todo acc w = (Ok counts, w')
      /\ queue w' = Typed (foldl (after_sync b) ops (concat todo))
      /\ same_progress (fields w) (fields w').
Proof.
  induction todo as [ | batch todo IH]; intros w ops acc Hq.
  - exists acc, w. split; [reflexivity | split; [exact Hq | apply same_progress_refl]].
  - cbn [syncBatches]. rewrite bind_unfold.
    destruct (allSettled_typed b now batch w ops Hq) as (results & w1 & -> & Hq1 & Hsame1).
    destruct (IH w1 _ (tally batch results acc) Hq1) as (counts & w' & -> & Hq' & Hsame').
    eexists _, _. split; [reflexivity | ].
    split; [ | by eapply same_progress_trans].
    rewrite Hq'. cbn [concat]. by rewrite foldl_app.
Qed.

Lemma concat_batches {A} (n : nat) (l : list A) :
  forall fuel, (length l <= fuel)%nat -> concat (batches fuel (S n) l) = l.
Proof.
  intros fuel. revert l. induction fuel as [ | fuel IH]; intros l Hlen.
  - destruct l; [reflexivity | simpl in Hlen; lia].
  - destruct l as [ | x l]; [reflexivity | ].
    cbn [batches concat]. rewrite IH.
    + apply take_drop.
    + rewrite length_drop. simpl in *. lia.
Qed.

(** What [syncOperation] does to the entry with a given id. *)
Lemma find_op_after_sync (b : Backend) (i : string) (ops : list QueuedOperation.t)
    (operation : QueuedOperation.t) :
  find_op i (after_sync b ops operation)
  = if String.eqb (QueuedOperation.id operation) i && synced b operation then None
    else find_op i ops.
Proof.
  unfold after_sync. destruct (synced b operation).
  - rewrite find_op_without. by destruct (String.eqb _ i).
  - by rewrite andb_false_r.
Qed.

Lemma find_op_after_sync_others (b : Backend) (i : string) (todo : list QueuedOperation.t) :
  i ∉ ids todo ->
  forall ops, find_op i (foldl (after_sync b) ops todo) = find_op i ops.
Proof.
  induction todo as [ | operation todo IH]; intros Hnotin ops; [reflexivity | ].
  simpl in *. apply not_elem_of_cons in Hnotin as [Hne Hnotin].
  rewrite IH by exact Hnotin. rewrite find_op_after_sync.
  destruct (String.eqb_spec (QueuedOperation.id operation) i); [congruence | reflexivity].
Qed.

Lemma find_op_after_sync_all (b : Backend) (op : QueuedOperation.t)
    (todo : list QueuedOperation.t) :
  NoDup (ids todo) -> op ∈ todo ->
  forall ops,
    find_op (QueuedOperation.id op) (foldl (after_sync b) ops todo)
    = if synced b op then None else find_op (QueuedOperation.id op) ops.
Proof.
  induction todo as [ | operation todo IH]; intros Hnodup Hin ops.
  - by apply elem_of_nil in Hin.
  - simpl in *. apply NoDup_cons in Hnodup as [Hfresh Hnodup].
    apply elem_of_cons in Hin as [-> | Hin].
    + rewrite find_op_after_sync_others by exact Hfresh.
      rewrite find_op_after_sync, String.eqb_refl. reflexivity.
    + rewrite IH by assumption. rewrite find_op_after_sync.
      destruct (String.eqb_spec (QueuedOperation.id operation) (QueuedOperation.id op))
        as [He | Hne]; [ | reflexivity].
      exfalso. apply Hfresh. rewrite He. unfold ids. by apply list_elem_of_fmap_2.
Qed.

(** The statements before the [try] and the [finally] block leave the
    queue alone. *)
Lemma drainStarted_run (now : Z) (w : World) :
  exists w1, drainStarted now w = (Ok tt, w1) /\ queue w1 = queue w.
Proof. eexists. split; reflexivity. Qed.

Lemma drainEnded_run (now : Z) (w : World) :
  exists w', drainEnded now w = (Ok tt, w')
             /\ queue w' = queue w
             /\ syncInProgress (fields w') = false
             /\ errors (fields w') = errors (fields w)
             /\ lastSyncTime (fields w') = lastSyncTime (fields w).
Proof. eexists. repeat split; reflexivity. Qed.

Lemma getPendingOperations_typed (w : World) (ops : list QueuedOperation.t) :
  queue w = Typed ops -> offlineQueue_getPendingOperations w = (Ok ops, w).
Proof.
  intros Hq. unfold offlineQueue_getPendingOperations, getPendingOperations.
  rewrite bind_unfold. unfold gets. rewrite Hq. reflexivity.
Qed.

Lemma drain_typed (b : Backend) (now : Z) (w : World) (ops : list QueuedOperation.t) :
  queue w = Typed ops ->
  exists r w',
    drain b now w = (Ok r, w')
    /\ queue w' = Typed (foldl (after_sync b) ops ops).
Proof.
  intros Hq. unfold drain.
  rewrite bind_unfold, (getPendingOperations_typed w ops Hq).
  case_bool_decide as Hlen.
  - destruct ops; [ | discriminate]. eexists _, _. split; [reflexivity | ]. exact Hq.
  - rewrite bind_unfold.
    destruct (syncBatches_typed b now (batches (length ops) batchSize ops) w ops
                (mkTally 0 0 []) Hq) as (counts & w' & -> & Hq' & _).
    eexists _, _. split; [reflexivity | ].
    cbn. rewrite Hq'. unfold batchSize. by rewrite concat_batches.
Qed.

End CoordinatorDrain.

(** C3 (amended). In a drain by [performSync] each operation (with an id of
    its own) whose synchronisation succeeds is removed from the queue, and
    each operation whose synchronisation fails stays in the queue as it
    was, its [retryCount] included. *)
Theorem performSync_removes_synced_keeps_failed (w : BackgroundSyncService.World)
    (ops : list QueuedOperation.t) (force : bool) (b : Backend) (now : Z) :
  OfflineQueueService.queue w = Typed ops ->
  NoDup (ids ops) ->
  BackgroundSyncService.syncInProgress (BackgroundSyncService.fields w) && negb force = false ->
  exists r w' ops',
    BackgroundSyncService.performSync force b now w = (Ok r, w')
    /\ OfflineQueueService.queue w' = Typed ops'
    /\ forall op, op ∈ ops ->
         OfflineQueueService.find_op (QueuedOperation.id op) ops'
         = if synced b op then None else Some op.
Proof.
  intros Hq Hnodup Hfree. unfold BackgroundSyncService.performSync.
  rewrite bind_unfold. cbn [get]. rewrite Hfree. rewrite bind_unfold.
  destruct (drainStarted_run now w) as (w1 & -> & Hq1).
  rewrite try_finally_unfold, try_catch_unfold.
  rewrite Hq in Hq1.
  destruct (drain_typed b now w1 ops Hq1) as (r & w2 & -> & Hq2).
  destruct (drainEnded_run now w2) as (w' & -> & Hq' & _).
  exists r, w', (foldl (after_sync b) ops ops). split; [reflexivity | ].
  split; [congruence | ].
  intros op Hin. rewrite find_op_after_sync_all by assumption.
  destruct (synced b op); [reflexivity | by apply find_op_elem_of].
Qed.

Lemma performSync_removes_synced_keeps_failed_witness :
  exists r w' ops',
    BackgroundSyncService.performSync false no_user 1000 two_pending = (Ok r, w')
    /\ OfflineQueueService.queue w' = Typed ops'
    /\ forall op, op ∈ [rename_ana; new_report] ->
         OfflineQueueService.find_op (QueuedOperation.id op) ops'
         = if synced no_user op then None else Some op.
Proof.
  apply (performSync_removes_synced_keeps_failed two_pending [rename_ana; new_report]
           false no_user 1000).
  - vm_compute. reflexivity.
  - apply (bool_decide_unpack _). vm_compute. exact I.
  - vm_compute. reflexivity.
Defined.

(** C3 as stated fails: the profile update that the backend refuses is
    still in the queue after the drain of [performSync], and its counter is
    still 0. *)
Lemma performSync_does_not_count_retries :
  synced no_user rename_ana = false
  /\ QueuedOperation.retryCount rename_ana = 0
  /\ OfflineQueueService.queue
       (snd (BackgroundSyncService.performSync false no_user 1000 one_pending))
     = Typed [rename_ana]
  /\ fst (BackgroundSyncService.performSync false no_user 1000 one_pending)
     = Ok (SyncResult.mk false 0 1
             ["Operación 1700000000000_k3j9x2m1q: No hay usuario autenticado"]).
Proof. vm_compute. repeat split. Qed.

(** C4 (amended). Whenever the drain of [performSync] (the block under
    [try]) throws, the queue in memory being a list of operations or a
    value that the spread of [getPendingOperations] refuses (an object, a
    number or a boolean read back from the snapshot), [performSync] itself
    returns normally with a failed result whose one error is the
    exception; the [errors] of the status are that one line and nothing of
    what they held before; [syncInProgress] is false again; and nothing is
    written to the queue or to [lastSyncTime] after the exception.  The
    queue is then such a value: on a list of operations the drain does not
    throw. *)
Theorem performSync_exception (w w2 : BackgroundSyncService.World) (force : bool)
    (b : Backend) (now : Z) (e : Exn) :
  BackgroundSyncService.syncInProgress (BackgroundSyncService.fields w) && negb force = false ->
  operations_or_not_iterable (OfflineQueueService.queue w) = true ->
  BackgroundSyncService.drain b now (snd (BackgroundSyncService.drainStarted now w))
  = (Throw e, w2) ->
  exists w',
    BackgroundSyncService.performSync force b now w
    = (Ok (SyncResult.mk false 0 0 [general_error e]), w')
    /\ (forall now', SyncStatus.errors (BackgroundSyncService.getStatus now' w')
                     = [general_error e])
    /\ (forall now', SyncStatus.syncInProgress (BackgroundSyncService.getStatus now' w') = false)
    /\ BackgroundSyncService.syncInProgress (BackgroundSyncService.fields w') = false
    /\ OfflineQueueService.queue w' = OfflineQueueService.queue w2
    /\ BackgroundSyncService.lastSyncTime (BackgroundSyncService.fields w')
       = BackgroundSyncService.lastSyncTime (BackgroundSyncService.fields w2)
    /\ exists j, OfflineQueueService.queue w = Untyped j /\ not_iterable j = true.
Proof.
  intros Hfree Hqueue Hthrow.
  assert (Hcause : exists j, OfflineQueueService.queue w = Untyped j
                             /\ not_iterable j = true).
  { destruct (OfflineQueueService.queue w) as [ops | j] eqn:Hq; [exfalso | by exists j].
    destruct (drainStarted_run now w) as (w1 & Hstart & Hq1).
    rewrite Hstart in Hthrow. cbn [snd] in Hthrow. rewrite Hq in Hq1.
    destruct (drain_typed b now w1 ops Hq1) as (r & w3 & Hdrain & _). congruence. }
  unfold BackgroundSyncService.performSync.
  rewrite bind_unfold. cbn [get]. rewrite Hfree. rewrite bind_unfold.
  destruct (BackgroundSyncService.drainStarted now w) as [r1 w1] eqn:Hstart.
  assert (r1 = Ok tt) as -> by (by inversion Hstart).
  rewrite try_finally_unfold, try_catch_unfold.
  cbn [snd] in Hthrow. rewrite Hthrow.
  eexists. split; [reflexivity | ].
  by repeat split.
Qed.

Lemma performSync_exception_witness :
  exists w',
    BackgroundSyncService.performSync false signed_in 1000 object_snapshot
    = (Ok (SyncResult.mk false 0 0
             [general_error
                (TypeError "this.queue is not iterable")]), w')
    /\ (forall now', SyncStatus.errors (BackgroundSyncService.getStatus now' w')
                     = [general_error
                          (TypeError "this.queue is not iterable")])
    /\ (forall now', SyncStatus.syncInProgress (BackgroundSyncService.getStatus now' w') = false)
    /\ BackgroundSyncService.syncInProgress (BackgroundSyncService.fields w') = false
    /\ OfflineQueueService.queue w' = Untyped (JObj [])
    /\ BackgroundSyncService.lastSyncTime (BackgroundSyncService.fields w') = None
    /\ exists j, OfflineQueueService.queue object_snapshot = Untyped j
                 /\ not_iterable j = true.
Proof.
  apply (performSync_exception object_snapshot
           (snd (BackgroundSyncService.drain signed_in 1000
                   (snd (BackgroundSyncService.drainStarted 1000 object_snapshot))))
           false signed_in 1000
           (TypeError "this.queue is not iterable")).
  - vm_compute. reflexivity.
  - vm_compute. reflexivity.
  - vm_compute. reflexivity.
Defined.

(** C4 as stated fails: the [errors] that the status exposes are not
    bounded to five.  [performSync] empties them when a drain begins and
    sets them when it ends, to the one line of the exception or to a line
    for each operation that failed: after a drain of six operations that
    all fail, [getStatus] shows six lines.  The last five are kept by
    [getSyncMetrics] alone. *)
Lemma status_errors_not_bounded :
  let w := snd (BackgroundSyncService.performSync false no_user 1000 six_pending) in
  length (SyncStatus.errors (BackgroundSyncService.getStatus 2000 w)) = 6%nat
  /\ SyncStatus.syncInProgress (BackgroundSyncService.getStatus 2000 w) = false
  /\ length (BackgroundSyncService.lastErrors w) = 5%nat.
Proof. vm_compute. repeat split. Qed.

(** * The cache: reading and writing the tables *)

#[export] Instance EncodableLaw_entry : EncodableLaw CacheEntry.t.
Proof. intros [d ts ex v]. reflexivity. Qed.

#[export] Instance EncodableLaw_query : EncodableLaw QueryCache.t.
Proof. intros [k p [b | ] ts ex]; reflexivity. Qed.

Section CacheTables.
Import CacheService.

Lemma try_catch_total {S A} (body : M S A) (fallback : A) (s : S) :
  exists r s', try_catch body (fun _ => ret fallback) s = (Ok r, s').
Proof. rewrite try_catch_unfold. destruct (body s) as [[a | e] s']; eauto. Qed.

Lemma set_localStorage_same (st : State) : set_localStorage (localStorage st) st = st.
Proof. by destruct st. Qed.

Lemma localStorage_getItem_run (key : string) (st : State) :
  localStorage_getItem key st
  = (if readFault (localStorage st)
     then Throw (mkExn "SecurityError" "localStorage is not available")
     else Ok (items (localStorage st) !! key), st).
Proof.
  unfold localStorage_getItem, zoom, getItem.
  destruct (readFault (localStorage st)); by rewrite set_localStorage_same.
Qed.

(** [getCache] reads and never throws. *)
Lemma getCache_run {T} `{Encodable T} (storageKey : string) (st : State) :
  getCache (T := T) storageKey st = (fst (getCache (T := T) storageKey st), st)
  /\ exists d, fst (getCache (T := T) storageKey st) = Ok d.
Proof.
  unfold getCache, JSON_parse. rewrite try_catch_unfold, bind_unfold, localStorage_getItem_run.
  destruct (readFault (localStorage st)); [eauto | ].
  destruct (truthy_text (items (localStorage st) !! storageKey)) as [text | ]; [ | eauto].
  rewrite bind_unfold. destruct (JSON.parse text); eauto.
Qed.

Lemma getCache_typed {T} `{Encodable T} (storageKey : string) (st : State) (t : Table T) :
  table_in storageKey st = Some t -> getCache storageKey st = (Ok (Typed t), st).
Proof.
  unfold table_in. intros Hin. destruct (getCache_run (T := T) storageKey st) as [-> _].
  destruct (fst (getCache storageKey st)) as [[t' | j] | e]; by simplify_eq.
Qed.

(** The table read back after a write. *)
Lemma table_in_written {T} `{EncodableLaw T} (storageKey : string) (st : State) (t : Table T) :
  readFault (localStorage st) = false ->
  writeFault (localStorage st) = false ->
  exists st',
    localStorage_setItem storageKey (JSON.stringify (to_json t)) st = (Ok tt, st')
    /\ table_in storageKey st' = Some t
    /\ indexedDB st' = indexedDB st
    /\ readFault (localStorage st') = false
    /\ writeFault (localStorage st') = false.
Proof.
  intros Hread Hwrite. unfold localStorage_setItem, zoom, setItem. rewrite Hwrite.
  eexists. split; [reflexivity | ]. split; [ | by rewrite Hread].
  unfold table_in, getCache, JSON_parse.
  rewrite try_catch_unfold, bind_unfold, localStorage_getItem_run.
  cbn [localStorage set_localStorage readFault items]. rewrite Hread.
  rewrite lookup_insert_eq, truthy_text_stringify, bind_unfold, parse_stringify.
  cbn [ret fst]. by rewrite (revive_to_json t).
Qed.

(** A table with an entry was read from a store that can be read. *)
Lemma table_in_nonempty_read {T} `{Encodable T} (storageKey : string) (st : State)
    (t : Table T) :
  table_in storageKey st = Some t -> t <> [] -> readFault (localStorage st) = false.
Proof.
  unfold table_in, getCache. rewrite try_catch_unfold, bind_unfold, localStorage_getItem_run.
  destruct (readFault (localStorage st)); [ | done].
  cbn. intros [= <-] Hne. congruence.
Qed.

Lemma assoc_view {T} (view : T -> StoredEntry) (key : string) (t : Table T) :
  assoc key (view_table view t) = view <$> assoc key t.
Proof.
  induction t as [ | [k v] t IH]; [reflexivity | ].
  simpl. destruct (String.eqb k key); [reflexivity | exact IH].
Qed.

Lemma assoc_table_delete {T} (key key' : string) (t : Table T) :
  assoc key (table_delete key' t) = if String.eqb key' key then None else assoc key t.
Proof.
  unfold table_delete. induction t as [ | [k v] t IH]; simpl.
  - by destruct (String.eqb key' key).
  - destruct (String.eqb_spec k key') as [He | Hne]; simpl.
    + rewrite IH. destruct (String.eqb_spec key' key) as [-> | Hne'].
      * reflexivity.
      * destruct (String.eqb_spec k key); [congruence | reflexivity].
    + destruct (String.eqb_spec k key) as [He | Hne'].
      * destruct (String.eqb_spec key' key); [congruence | reflexivity].
      * exact IH.
Qed.

Lemma view_table_delete {T} (view : T -> StoredEntry) (key : string) (t : Table T) :
  view_table view (table_delete key t) = table_delete key (view_table view t).
Proof.
  unfold table_delete, view_table. induction t as [ | [k v] t IH]; [reflexivity | ].
  simpl. destruct (negb (String.eqb k key)); simpl; by rewrite IH.
Qed.

End CacheTables.

Lemma getCache_down {T} `{Encodable T} (storageKey : string) (st : CacheService.State) :
  CacheService.getCache (T := T) storageKey (storage_down st) = (Ok (Typed []), storage_down st).
Proof.
  unfold CacheService.getCache.
  by rewrite try_catch_unfold, bind_unfold, localStorage_getItem_run.
Qed.

Lemma localStorage_setItem_down (key value : string) (st : CacheService.State) :
  CacheService.localStorage_setItem key value (storage_down st)
  = (Throw (mkExn "QuotaExceededError" "localStorage is full"), storage_down st).
Proof. reflexivity. Qed.

(** C8. The writers and the readers of the cache (of the posts, of the
    posts of a user, of the queries and of the images) return normally on
    every store, whatever it holds and whichever of its calls throw, and
    whatever the network does.  When [localStorage] refuses every call, a
    writer of posts or queries returns having changed nothing and a
    reader answers [null]. *)
Theorem cache_never_throws (st : CacheService.State) (posts : list Json)
    (key : string) (bounds : option Json) (net : Network) (now : Z) :
  (exists st', CacheService.cachePosts posts key now st = (Ok tt, st'))
  /\ (exists r st', CacheService.getCachedPosts key now st = (Ok r, st'))
  /\ (exists st', CacheService.cacheUserPosts key posts now st = (Ok tt, st'))
  /\ (exists r st', CacheService.getCachedUserPosts key now st = (Ok r, st'))
  /\ (exists st', CacheService.cacheQuery key posts bounds now st = (Ok tt, st'))
  /\ (exists r st', CacheService.getCachedQuery key now st = (Ok r, st'))
  /\ (exists st', CacheService.cacheImage net key now st = (Ok tt, st'))
  /\ (exists r st', CacheService.getCachedImageBlob key now st = (Ok r, st'))
  /\ CacheService.cachePosts posts key now (storage_down st) = (Ok tt, storage_down st)
  /\ CacheService.getCachedPosts key now (storage_down st) = (Ok None, storage_down st)
  /\ CacheService.cacheUserPosts key posts now (storage_down st) = (Ok tt, storage_down st)
  /\ CacheService.getCachedUserPosts key now (storage_down st) = (Ok None, storage_down st)
  /\ CacheService.cacheQuery key posts bounds now (storage_down st)
     = (Ok tt, storage_down st)
  /\ CacheService.getCachedQuery key now (storage_down st) = (Ok None, storage_down st)
  /\ CacheService.getCachedImageBlob key now (storage_down st) = (Ok None, storage_down st).
Proof.
  unfold CacheService.cacheUserPosts, CacheService.getCachedUserPosts,
    CacheService.cachePosts, CacheService.getCachedPosts,
    CacheService.cacheQuery, CacheService.getCachedQuery,
    CacheService.cacheImage, CacheService.getCachedImageBlob,
    CacheService.getPostsCache, CacheService.getQueriesCache, CacheService.getImagesCache.
  repeat split;
    match goal with
    | |- exists st', try_catch ?body _ ?s = (Ok tt, st') =>
        destruct (try_catch_total body tt s) as ([] & st' & ->); by exists st'
    | |- exists r st', try_catch ?body _ ?s = (Ok r, st') =>
        apply (try_catch_total body None s)
    | |- _ =>
        rewrite try_catch_unfold, bind_unfold, getCache_down; cbn [use bind ret];
        try reflexivity
    end.
Qed.

Section CacheGet.
Import CacheService.

(** A cache miss when the store cannot be read. *)
Lemma getCachedPosts_read_fault (key : string) (now : Z) (st : State) :
  readFault (localStorage st) = true -> getCachedPosts key now st = (Ok None, st).
Proof.
  intros Hfault. unfold getCachedPosts, getPostsCache, getCache.
  rewrite try_catch_unfold, bind_unfold, try_catch_unfold, bind_unfold,
    localStorage_getItem_run, Hfault.
  reflexivity.
Qed.

Lemma getCachedPosts_missing (key : string) (now : Z) (st : State)
    (t : Table CacheEntry.t) :
  table_in POSTS_CACHE_KEY st = Some t -> assoc key t = None ->
  getCachedPosts key now st = (Ok None, st).
Proof.
  intros Ht Hassoc. unfold getCachedPosts, getPostsCache.
  rewrite try_catch_unfold, bind_unfold, (getCache_typed _ _ _ Ht).
  cbn [use bind ret]. rewrite Hassoc. reflexivity.
Qed.

Lemma getCachedQuery_missing (key : string) (now : Z) (st : State)
    (t : Table QueryCache.t) :
  table_in QUERIES_CACHE_KEY st = Some t -> assoc key t = None ->
  getCachedQuery key now st = (Ok None, st).
Proof.
  intros Ht Hassoc. unfold getCachedQuery, getQueriesCache.
  rewrite try_catch_unfold, bind_unfold, (getCache_typed _ _ _ Ht).
  cbn [use bind ret]. rewrite Hassoc. reflexivity.
Qed.

(** What a getter does with an entry it finds. *)
Lemma getCachedPosts_found (key : string) (now : Z) (st : State)
    (t : Table CacheEntry.t) (e : CacheEntry.t) :
  table_in POSTS_CACHE_KEY st = Some t -> assoc key t = Some e ->
  exists st',
    getCachedPosts key now st
    = (Ok (if entry_valid Posts now (view_entry e) then Some (CacheEntry.data e) else None), st')
    /\ (entry_valid Posts now (view_entry e) = true -> st' = st)
    /\ (entry_valid Posts now (view_entry e) = false ->
        purged POSTS_CACHE_KEY key t st st').
Proof.
  intros Ht Hassoc.
  assert (Hread : readFault (localStorage st) = false).
  { apply (table_in_nonempty_read _ _ _ Ht). intros ->. discriminate. }
  unfold getCachedPosts, getPostsCache, entry_valid, purged.
  rewrite try_catch_unfold, bind_unfold, (getCache_typed _ _ _ Ht).
  cbn [use bind ret]. rewrite Hassoc.
  cbn [view_entry stored_expiresAt stored_version config_of].
  assert (Hpurge :
    exists st',
      try_catch
        (localStorage_setItem POSTS_CACHE_KEY
           (JSON.stringify (to_json (table_delete key t))) ;;; ret None)
        (fun _ => ret (@None (list Json))) st = (Ok None, st')
      /\ (writeFault (localStorage st) = false ->
          table_in POSTS_CACHE_KEY st' = Some (table_delete key t))).
  { rewrite try_catch_unfold, bind_unfold.
    destruct (writeFault (localStorage st)) eqn:Hwrite.
    - unfold localStorage_setItem, zoom, setItem. rewrite Hwrite.
      eexists. split; [reflexivity | discriminate].
    - destruct (table_in_written POSTS_CACHE_KEY st (table_delete key t) Hread Hwrite)
        as (st' & -> & Ht' & _).
      exists st'. split; [reflexivity | done]. }
  rewrite try_catch_unfold in Hpurge. destruct Hpurge as (st' & Hrun & Hgone).
  destruct (now >? CacheEntry.expiresAt e); cbn [negb andb].
  { exists st'. split; [exact Hrun | split; [discriminate | intros _; exact Hgone]]. }
  destruct (String.eqb (CacheEntry.version e) (version POSTS_CONFIG)); cbn [negb andb].
  - exists st. by repeat split.
  - exists st'. split; [exact Hrun | split; [discriminate | intros _; exact Hgone]].
Qed.

Lemma getCachedQuery_found (key : string) (now : Z) (st : State)
    (t : Table QueryCache.t) (e : QueryCache.t) :
  table_in QUERIES_CACHE_KEY st = Some t -> assoc key t = Some e ->
  exists st',
    getCachedQuery key now st
    = (Ok (if entry_valid Queries now (view_query e) then Some (QueryCache.posts e) else None),
       st')
    /\ (entry_valid Queries now (view_query e) = true -> st' = st)
    /\ (entry_valid Queries now (view_query e) = false ->
        purged QUERIES_CACHE_KEY key t st st').
Proof.
  intros Ht Hassoc.
  assert (Hread : readFault (localStorage st) = false).
  { apply (table_in_nonempty_read _ _ _ Ht). intros ->. discriminate. }
  unfold getCachedQuery, getQueriesCache, entry_valid, purged.
  rewrite try_catch_unfold, bind_unfold, (getCache_typed _ _ _ Ht).
  cbn [use bind ret]. rewrite Hassoc.
  cbn [view_query stored_expiresAt stored_version].
  destruct (now >? QueryCache.expiresAt e); cbn [negb andb].
  2:{ exists st. by repeat split. }
  rewrite bind_unfold. destruct (writeFault (localStorage st)) eqn:Hwrite.
  - unfold localStorage_setItem, zoom, setItem. rewrite Hwrite.
    eexists. split; [reflexivity | split; [discriminate | discriminate]].
  - destruct (table_in_written QUERIES_CACHE_KEY st (table_delete key t) Hread Hwrite)
      as (st' & -> & Ht' & _).
    exists st'. split; [reflexivity | split; [discriminate | done]].
Qed.

End CacheGet.

(** C2 (amended). For an entry of any of the three namespaces, the getter
    returns the stored posts if and only if the current time is not after
    the entry's [expiresAt] and, in the two namespaces whose entries have a
    version, that version is the current one; a valid read leaves the store
    as it is.  Otherwise the getter returns [null] and, when the store
    takes the write, leaves the table without the entry, so that every
    later read of that key returns [null] whatever the time. *)
Theorem cache_get_valid_or_purged (ns : Namespace) (key : string) (now : Z)
    (st : CacheService.State) (tbl : Table StoredEntry) (e : StoredEntry) :
  stored_entries ns st = Some tbl ->
  assoc (table_key ns key) tbl = Some e ->
  exists st',
    cache_get ns key now st
    = (Ok (if entry_valid ns now e then Some (stored_data e) else None), st')
    /\ (entry_valid ns now e = true -> st' = st)
    /\ (entry_valid ns now e = false ->
        writeFault (CacheService.localStorage st) = false ->
        stored_entries ns st' = Some (table_delete (table_key ns key) tbl)
        /\ forall now', cache_get ns key now' st' = (Ok None, st')).
Proof.
  intros Hstored Hassoc. destruct ns; cbn [stored_entries] in Hstored.
  - destruct (table_in (T := CacheEntry.t) CacheService.POSTS_CACHE_KEY st)
      as [t | ] eqn:Ht; [ | discriminate].
    injection Hstored as <-. rewrite assoc_view in Hassoc.
    destruct (assoc (table_key Posts key) t) as [e0 | ] eqn:He0; [ | discriminate].
    injection Hassoc as <-. cbn [cache_get].
    destruct (getCachedPosts_found _ now st t e0 Ht He0) as (st' & Hget & Hsame & Hpurged).
    exists st'. split; [exact Hget | ]. split; [exact Hsame | ].
    intros Hinvalid Hwrite. specialize (Hpurged Hinvalid Hwrite).
    cbn [stored_entries]. rewrite Hpurged. cbn. rewrite view_table_delete.
    split; [reflexivity | ]. intros now'.
    apply (getCachedPosts_missing _ now' st' _ Hpurged).
    by rewrite assoc_table_delete, String.eqb_refl.
  - destruct (table_in (T := CacheEntry.t) CacheService.POSTS_CACHE_KEY st)
      as [t | ] eqn:Ht; [ | discriminate].
    injection Hstored as <-. rewrite assoc_view in Hassoc.
    destruct (assoc (table_key UserPosts key) t) as [e0 | ] eqn:He0; [ | discriminate].
    injection Hassoc as <-. cbn [cache_get]. unfold CacheService.getCachedUserPosts.
    destruct (getCachedPosts_found _ now st t e0 Ht He0) as (st' & Hget & Hsame & Hpurged).
    exists st'. split; [exact Hget | ]. split; [exact Hsame | ].
    intros Hinvalid Hwrite. specialize (Hpurged Hinvalid Hwrite).
    cbn [stored_entries]. rewrite Hpurged. cbn. rewrite view_table_delete.
    split; [reflexivity | ]. intros now'.
    apply (getCachedPosts_missing _ now' st' _ Hpurged).
    by rewrite assoc_table_delete, String.eqb_refl.
  - destruct (table_in (T := QueryCache.t) CacheService.QUERIES_CACHE_KEY st)
      as [t | ] eqn:Ht; [ | discriminate].
    injection Hstored as <-. rewrite assoc_view in Hassoc.
    destruct (assoc (table_key Queries key) t) as [e0 | ] eqn:He0; [ | discriminate].
    injection Hassoc as <-. cbn [cache_get].
    destruct (getCachedQuery_found _ now st t e0 Ht He0) as (st' & Hget & Hsame & Hpurged).
    exists st'. split; [exact Hget | ]. split; [exact Hsame | ].
    intros Hinvalid Hwrite. specialize (Hpurged Hinvalid Hwrite).
    cbn [stored_entries]. rewrite Hpurged. cbn. rewrite view_table_delete.
    split; [reflexivity | ]. intros now'.
    apply (getCachedQuery_missing _ now' st' _ Hpurged).
    by rewrite assoc_table_delete, String.eqb_refl.
Qed.

(** * Sorting and eviction *)

Section Sorting.
Context {A : Type} (compare : A -> A -> Z).

Lemma insert_sorted_perm (x : A) (l : list A) : insert_sorted compare x l ≡ₚ x :: l.
Proof.
  induction l as [ | y l IH]; [reflexivity | ].
  simpl. destruct (compare x y <=? 0); [reflexivity | ].
  rewrite IH. apply Permutation_swap.
Qed.

Lemma sort_perm (l : list A) : sort compare l ≡ₚ l.
Proof.
  unfold sort. induction l as [ | x l IH]; [reflexivity | ].
  simpl. rewrite insert_sorted_perm. by rewrite IH.
Qed.

Lemma length_sort (l : list A) : length (sort compare l) = length l.
Proof. by rewrite sort_perm. Qed.

(** When [compare] is the difference of a measure, the first element of
    the sorted list has the least measure. *)
Context (measure : A -> Z).
Hypothesis compare_measure : forall a b, compare a b = measure a - measure b.

Lemma sort_head_least (l : list A) (v : A) (rest : list A) :
  sort compare l = v :: rest -> Forall (fun x => measure v <= measure x) l.
Proof.
  unfold sort. revert v rest. induction l as [ | x l IH]; intros v rest Hsort.
  - constructor.
  - simpl in Hsort. destruct (foldr (insert_sorted compare) [] l) as [ | y r] eqn:Hl.
    + simpl in Hsort. injection Hsort as <- <-.
      assert (l = []) as ->.
      { apply Permutation_nil_r. rewrite <- (sort_perm l). unfold sort. by rewrite Hl. }
      repeat constructor. lia.
    + specialize (IH y r eq_refl). simpl in Hsort.
      rewrite compare_measure in Hsort.
      destruct (Z.leb_spec (measure x - measure y) 0) as [Hle | Hgt];
        injection Hsort as <- <-.
      * constructor; [lia | ]. eapply Forall_impl; [exact IH | ]. simpl. intros z Hz. lia.
      * constructor; [lia | exact IH].
Qed.

End Sorting.

Section Eviction.
Context {T : Type}.

Lemma or_zero_id (value : Z) : or_zero value = value.
Proof. unfold or_zero. destruct (Z.eqb_spec value 0); congruence. Qed.

Lemma keys_table_delete (key : string) (t : Table T) :
  keys (table_delete key t) = List.filter (fun k => negb (String.eqb k key)) (keys t).
Proof.
  unfold keys, table_delete. induction t as [ | [k v] t IH]; [reflexivity | ].
  simpl. destruct (negb (String.eqb k key)); simpl; by rewrite IH.
Qed.

Lemma elem_of_keys_table_delete (key k : string) (t : Table T) :
  k ∈ keys (table_delete key t) <-> k ∈ keys t /\ k <> key.
Proof.
  rewrite keys_table_delete, list_elem_of_In, filter_In, <- list_elem_of_In.
  destruct (String.eqb_spec k key); simpl; intuition congruence.
Qed.

Lemma NoDup_keys_table_delete (key : string) (t : Table T) :
  NoDup (keys t) -> NoDup (keys (table_delete key t)).
Proof.
  rewrite keys_table_delete. intros H. apply NoDup_ListNoDup, List.NoDup_filter.
  by apply NoDup_ListNoDup.
Qed.

Lemma length_table_delete (key : string) (t : Table T) :
  NoDup (keys t) -> key ∈ keys t -> S (length (table_delete key t)) = length t.
Proof.
  unfold keys, table_delete. induction t as [ | [k v] t IH]; intros Hnodup Hin.
  - by apply elem_of_nil in Hin.
  - simpl in *. apply NoDup_cons in Hnodup as [Hfresh Hnodup].
    destruct (String.eqb_spec k key) as [-> | Hne]; simpl.
    + f_equal. clear IH Hin. induction t as [ | [k' v'] t IH]; [reflexivity | ].
      simpl in *. apply not_elem_of_cons in Hfresh as [Hne Hfresh].
      apply NoDup_cons in Hnodup as [_ Hnodup].
      destruct (String.eqb_spec k' key); [congruence | ]. simpl. f_equal. by apply IH.
    + f_equal. apply IH; [exact Hnodup | ].
      apply elem_of_cons in Hin as [-> | Hin]; [congruence | exact Hin].
Qed.

Lemma table_delete_absent (key : string) (t : Table T) :
  key ∉ keys t -> table_delete key t = t.
Proof.
  unfold keys, table_delete. induction t as [ | [k v] t IH]; intros Hnotin; [reflexivity | ].
  simpl in *. apply not_elem_of_cons in Hnotin as [Hne Hnotin].
  destruct (String.eqb_spec k key); [congruence | ]. simpl. f_equal. by apply IH.
Qed.

(** Deleting distinct keys of the table, one after the other. *)
Lemma length_delete_all (victims : list (string * T)) :
  forall t : Table T,
    NoDup (keys t) -> NoDup (keys victims) -> keys victims ⊆ keys t ->
    (length (foldl (fun cache kv => table_delete (fst kv) cache) t victims)
     + length victims = length t)%nat.
Proof.
  induction victims as [ | [k v] victims IH]; intros t Hnodup Hvictims Hsub.
  - simpl. lia.
  - simpl in *. apply NoDup_cons in Hvictims as [Hfresh Hvictims].
    assert (Hin : k ∈ keys t) by (apply Hsub; left).
    pose proof (length_table_delete k t Hnodup Hin) as Hlen.
    rewrite <- Hlen.
    rewrite <- (IH (table_delete k t)); [lia | | exact Hvictims | ].
    + by apply NoDup_keys_table_delete.
    + intros k' Hk'. apply elem_of_keys_table_delete. split.
      * apply Hsub. by right.
      * intros ->. by apply Hfresh.
Qed.

Context `{Timestamped T}.

Lemma by_timestamp_measure (a b : string * T) :
  by_timestamp a b = timestamp_of (snd a) - timestamp_of (snd b).
Proof. unfold by_timestamp. by rewrite !or_zero_id. Qed.

(** The bound holds after [limitCacheSize]. *)
Lemma length_limitCacheSize (cache : Table T) (maxSize : Z) :
  NoDup (keys cache) -> 0 <= maxSize ->
  Z.of_nat (length (CacheService.limitCacheSize cache maxSize)) <= maxSize.
Proof.
  intros Hnodup Hmax. unfold CacheService.limitCacheSize.
  destruct (Z.gtb_spec (Z.of_nat (length cache)) maxSize) as [Hgt | Hle]; [ | exact Hle].
  set (n := Z.to_nat (Z.of_nat (length cache) - maxSize)).
  set (sorted := sort _ cache).
  assert (Hperm : sorted ≡ₚ cache) by apply sort_perm.
  assert (Hkeys : keys sorted ≡ₚ keys cache) by (unfold keys; by rewrite Hperm).
  assert (Hvictims : NoDup (keys (take n sorted))).
  { unfold keys. rewrite <- firstn_map. fold (keys sorted).
    apply (sublist_NoDup _ (keys sorted)); [by rewrite Hkeys | apply sublist_take]. }
  assert (Hsub : keys (take n sorted) ⊆ keys cache).
  { intros k Hk. rewrite <- Hkeys. unfold keys in *.
    apply list_elem_of_fmap in Hk as (kv & -> & Hin).
    apply list_elem_of_fmap_2. apply elem_of_take in Hin as (i & Hi & _).
    by eapply list_elem_of_lookup_2. }
  pose proof (length_delete_all (take n sorted) cache Hnodup Hvictims Hsub) as Hlen.
  rewrite length_take, (Permutation_length Hperm) in Hlen.
  subst n. lia.
Qed.

(** One entry over the bound: the victim is the first of the sorted
    entries, it has the least timestamp, and only it goes. *)
Lemma limitCacheSize_one_over (cache : Table T) (maxSize : Z) :
  NoDup (keys cache) -> 0 <= maxSize ->
  Z.of_nat (length cache) = maxSize + 1 ->
  exists victim,
    victim ∈ cache
    /\ Forall (fun kv => timestamp_of (snd victim) <= timestamp_of (snd kv)) cache
    /\ CacheService.limitCacheSize cache maxSize = table_delete (fst victim) cache.
Proof.
  intros Hnodup Hmax Hlen. unfold CacheService.limitCacheSize.
  destruct (Z.gtb_spec (Z.of_nat (length cache)) maxSize) as [_ | Hle]; [ | lia].
  replace (Z.to_nat (Z.of_nat (length cache) - maxSize)) with 1%nat by lia.
  fold by_timestamp.
  destruct (sort by_timestamp cache) as [ | victim rest] eqn:Hsort.
  { pose proof (length_sort by_timestamp cache) as Hl. rewrite Hsort in Hl.
    simpl in Hl. lia. }
  exists victim. split; [ | split].
  - rewrite <- (sort_perm by_timestamp cache), Hsort. left.
  - apply (sort_head_least by_timestamp (fun kv => timestamp_of (snd kv))
             by_timestamp_measure cache victim rest Hsort).
  - reflexivity.
Qed.

End Eviction.

Section CachePut.
Import CacheService.

Lemma keys_view_table {T} (view : T -> StoredEntry) (t : Table T) :
  keys (view_table view t) = keys t.
Proof. unfold keys, view_table. rewrite map_map. reflexivity. Qed.

Lemma length_view_table {T} (view : T -> StoredEntry) (t : Table T) :
  length (view_table view t) = length t.
Proof. unfold view_table. apply length_map. Qed.

Lemma assoc_None_keys {T} (key : string) (t : Table T) :
  assoc key t = None <-> key ∉ keys t.
Proof.
  unfold keys. induction t as [ | [k v] t IH]; simpl.
  - split; [intros _; apply not_elem_of_nil | done].
  - rewrite not_elem_of_cons. destruct (String.eqb_spec k key) as [-> | Hne].
    + split; [discriminate | intros [? _]; congruence].
    + rewrite IH. split; [intros ?; split; [congruence | done] | by intros [_ ?]].
Qed.

Lemma table_set_fresh {T} (key : string) (value : T) (t : Table T) :
  assoc key t = None -> table_set key value t = t ++ [(key, value)].
Proof.
  induction t as [ | [k v] t IH]; simpl; [reflexivity | ].
  destruct (String.eqb k key); [discriminate | ]. intros Hnone. by rewrite IH.
Qed.

Lemma keys_table_set {T} (key : string) (value : T) (t : Table T) :
  keys (table_set key value t)
  = if bool_decide (key ∈ keys t) then keys t else keys t ++ [key].
Proof.
  unfold keys. induction t as [ | [k v] t IH]; simpl.
  - reflexivity.
  - destruct (String.eqb_spec k key) as [-> | Hne]; simpl.
    + rewrite bool_decide_eq_true_2 by left. reflexivity.
    + rewrite IH. case_bool_decide as Hin.
      * rewrite bool_decide_eq_true_2 by (by right). reflexivity.
      * rewrite bool_decide_eq_false_2; [reflexivity | ].
        rewrite not_elem_of_cons. split; [congruence | exact Hin].
Qed.

Lemma NoDup_keys_table_set {T} (key : string) (value : T) (t : Table T) :
  NoDup (keys t) -> NoDup (keys (table_set key value t)).
Proof.
  intros Hnodup. rewrite keys_table_set. case_bool_decide as Hin; [exact Hnodup | ].
  apply NoDup_app. split; [exact Hnodup | ]. split.
  - intros k Hk Hk'. apply list_elem_of_singleton in Hk' as ->. by apply Hin.
  - apply NoDup_singleton.
Qed.

(** The table a writer leaves, seen through the common view. *)
Lemma put_view {T} `{Timestamped T} (view : T -> StoredEntry)
    (key : string) (new : T) (t : Table T) (maxSize : Z) :
  (forall e, stored_timestamp (view e) = timestamp_of e) ->
  NoDup (keys t) -> 0 <= maxSize ->
  Z.of_nat (length (view_table view (limitCacheSize (table_set key new t) maxSize)))
  <= maxSize
  /\ (Z.of_nat (length t) = maxSize -> assoc key t = None ->
      exists victim,
        victim ∈ view_table view t ++ [(key, view new)]
        /\ (forall kv, kv ∈ view_table view t ++ [(key, view new)] ->
                       stored_timestamp (snd victim) <= stored_timestamp (snd kv))
        /\ view_table view (limitCacheSize (table_set key new t) maxSize)
           = table_delete (fst victim) (view_table view t ++ [(key, view new)])
        /\ length (view_table view (limitCacheSize (table_set key new t) maxSize))
           = length t).
Proof.
  intros Hview Hnodup Hmax.
  pose proof (NoDup_keys_table_set key new t Hnodup) as Hnodup'.
  split.
  { rewrite length_view_table. by apply length_limitCacheSize. }
  intros Hfull Hfresh. rewrite (table_set_fresh key new t Hfresh) in *.
  destruct (limitCacheSize_one_over (t ++ [(key, new)]) maxSize Hnodup' Hmax)
    as (victim & Hin & Hleast & ->).
  { rewrite length_app. simpl. lia. }
  exists (fst victim, view (snd victim)).
  assert (Hviews : view_table view t ++ [(key, view new)]
                   = view_table view (t ++ [(key, new)])).
  { unfold view_table. by rewrite map_app. }
  rewrite Hviews. repeat split.
  - unfold view_table. apply (list_elem_of_fmap_2 (fun kv => (fst kv, view (snd kv)))), Hin.
  - intros kv Hkv. unfold view_table in Hkv.
    apply list_elem_of_fmap in Hkv as (kv0 & -> & Hkv0). simpl.
    rewrite !Hview. rewrite Forall_forall in Hleast. by apply Hleast.
  - simpl. apply view_table_delete.
  - rewrite length_view_table.
    assert (Hk : fst victim ∈ keys (t ++ [(key, new)])).
    { unfold keys. by apply list_elem_of_fmap_2. }
    pose proof (length_table_delete (fst victim) _ Hnodup' Hk) as Hlen.
    rewrite length_app in Hlen. simpl in Hlen. lia.
Qed.

Lemma cachePosts_run (posts : list Json) (key : string) (now : Z) (st : State)
    (t : Table CacheEntry.t) :
  table_in POSTS_CACHE_KEY st = Some t ->
  readFault (localStorage st) = false -> writeFault (localStorage st) = false ->
  exists st',
    cachePosts posts key now st = (Ok tt, st')
    /\ table_in POSTS_CACHE_KEY st'
       = Some (limitCacheSize
                 (table_set key
                    (CacheEntry.mk posts now (now + maxAge POSTS_CONFIG) (version POSTS_CONFIG))
                    t)
                 (maxSize POSTS_CONFIG)).
Proof.
  intros Ht Hread Hwrite. unfold cachePosts, getPostsCache.
  rewrite try_catch_unfold, bind_unfold, (getCache_typed _ _ _ Ht).
  cbn [use bind ret].
  match goal with |- context [localStorage_setItem _ (JSON.stringify (to_json ?c))] =>
    destruct (table_in_written POSTS_CACHE_KEY st c Hread Hwrite) as (st' & -> & Ht' & _)
  end.
  by exists st'.
Qed.

Lemma cacheQuery_run (key : string) (posts : list Json) (bounds : option Json) (now : Z)
    (st : State) (t : Table QueryCache.t) :
  table_in QUERIES_CACHE_KEY st = Some t ->
  readFault (localStorage st) = false -> writeFault (localStorage st) = false ->
  exists st',
    cacheQuery key posts bounds now st = (Ok tt, st')
    /\ table_in QUERIES_CACHE_KEY st'
       = Some (limitCacheSize
                 (table_set key
                    (QueryCache.mk key posts bounds now (now + maxAge QUERIES_CONFIG)) t)
                 (maxSize QUERIES_CONFIG)).
Proof.
  intros Ht Hread Hwrite. unfold cacheQuery, getQueriesCache.
  rewrite try_catch_unfold, bind_unfold, (getCache_typed _ _ _ Ht).
  cbn [use bind ret].
  match goal with |- context [localStorage_setItem _ (JSON.stringify (to_json ?c))] =>
    destruct (table_in_written QUERIES_CACHE_KEY st c Hread Hwrite) as (st' & -> & Ht' & _)
  end.
  by exists st'.
Qed.

End CachePut.

(** C7. On a store that takes the call, a writer of the cache leaves a
    table within the bound of its namespace (500 entries for the posts, 50
    for the queries); and when the table held exactly that many entries and
    the key is new, the table it leaves is the old one with the new entry,
    less the one entry with the least timestamp (the first of them in the
    order of the table, if several have it): as many entries as before. *)
Theorem cache_put_evicts_oldest (ns : Namespace) (key : string) (posts : list Json)
    (now : Z) (st : CacheService.State) (tbl : Table StoredEntry) :
  stored_entries ns st = Some tbl ->
  NoDup (keys tbl) ->
  readFault (CacheService.localStorage st) = false ->
  writeFault (CacheService.localStorage st) = false ->
  exists st' tbl',
    cache_put ns key posts now st = (Ok tt, st')
    /\ stored_entries ns st' = Some tbl'
    /\ Z.of_nat (length tbl') <= CacheService.maxSize (config_of ns)
    /\ (Z.of_nat (length tbl) = CacheService.maxSize (config_of ns) ->
        assoc (table_key ns key) tbl = None ->
        exists victim,
          victim ∈ tbl ++ [(table_key ns key, entry_put ns posts now)]
          /\ (forall kv, kv ∈ tbl ++ [(table_key ns key, entry_put ns posts now)] ->
                         stored_timestamp (snd victim) <= stored_timestamp (snd kv))
          /\ tbl' = table_delete (fst victim)
                      (tbl ++ [(table_key ns key, entry_put ns posts now)])
          /\ length tbl' = length tbl).
Proof.
  intros Hstored Hnodup Hread Hwrite. destruct ns; cbn [stored_entries] in Hstored.
  - destruct (table_in (T := CacheEntry.t) CacheService.POSTS_CACHE_KEY st)
      as [t | ] eqn:Ht; [ | discriminate].
    injection Hstored as <-. rewrite keys_view_table in Hnodup.
    destruct (cachePosts_run posts (table_key Posts key) now st t Ht Hread Hwrite)
      as (st' & Hrun & Ht').
    eexists st', _. split; [exact Hrun | ].
    cbn [stored_entries]. rewrite Ht'. split; [reflexivity | ].
    destruct (put_view view_entry (table_key Posts key)
                (CacheEntry.mk posts now (now + CacheService.maxAge CacheService.POSTS_CONFIG)
                   (CacheService.version CacheService.POSTS_CONFIG))
                t (CacheService.maxSize CacheService.POSTS_CONFIG))
      as [Hbound Hone]; [done | exact Hnodup | done | ].
    split; [exact Hbound | ]. intros Hfull Hfresh.
    rewrite length_view_table in Hfull. rewrite assoc_view in Hfresh.
    destruct Hone as (victim & Hin & Hleast & Hrest & Hlen);
      [exact Hfull | by destruct (assoc (table_key Posts key) t) | ].
    exists victim. rewrite length_view_table in Hlen. rewrite !length_view_table.
    split; [exact Hin | split; [exact Hleast | split; [exact Hrest | exact Hlen]]].
  - destruct (table_in (T := CacheEntry.t) CacheService.POSTS_CACHE_KEY st)
      as [t | ] eqn:Ht; [ | discriminate].
    injection Hstored as <-. rewrite keys_view_table in Hnodup.
    destruct (cachePosts_run posts (table_key UserPosts key) now st t Ht Hread Hwrite)
      as (st' & Hrun & Ht').
    eexists st', _. split; [exact Hrun | ].
    cbn [stored_entries]. rewrite Ht'. split; [reflexivity | ].
    destruct (put_view view_entry (table_key UserPosts key)
                (CacheEntry.mk posts now (now + CacheService.maxAge CacheService.POSTS_CONFIG)
                   (CacheService.version CacheService.POSTS_CONFIG))
                t (CacheService.maxSize CacheService.POSTS_CONFIG))
      as [Hbound Hone]; [done | exact Hnodup | done | ].
    split; [exact Hbound | ]. intros Hfull Hfresh.
    rewrite length_view_table in Hfull. rewrite assoc_view in Hfresh.
    destruct Hone as (victim & Hin & Hleast & Hrest & Hlen);
      [exact Hfull | by destruct (assoc (table_key UserPosts key) t) | ].
    exists victim. rewrite length_view_table in Hlen. rewrite !length_view_table.
    split; [exact Hin | split; [exact Hleast | split; [exact Hrest | exact Hlen]]].
  - destruct (table_in (T := QueryCache.t) CacheService.QUERIES_CACHE_KEY st)
      as [t | ] eqn:Ht; [ | discriminate].
    injection Hstored as <-. rewrite keys_view_table in Hnodup.
    destruct (cacheQuery_run (table_key Queries key) posts None now st t Ht Hread Hwrite)
      as (st' & Hrun & Ht').
    eexists st', _. split; [exact Hrun | ].
    cbn [stored_entries]. rewrite Ht'. split; [reflexivity | ].
    destruct (put_view view_query (table_key Queries key)
                (QueryCache.mk (table_key Queries key) posts None now
                   (now + CacheService.maxAge CacheService.QUERIES_CONFIG))
                t (CacheService.maxSize CacheService.QUERIES_CONFIG))
      as [Hbound Hone]; [done | exact Hnodup | done | ].
    split; [exact Hbound | ]. intros Hfull Hfresh.
    rewrite length_view_table in Hfull. rewrite assoc_view in Hfresh.
    destruct Hone as (victim & Hin & Hleast & Hrest & Hlen);
      [exact Hfull | by destruct (assoc (table_key Queries key) t) | ].
    exists victim. rewrite length_view_table in Hlen. rewrite !length_view_table.
    split; [exact Hin | split; [exact Hleast | split; [exact Hrest | exact Hlen]]].
Qed.

Lemma cache_put_evicts_oldest_witness :
  exists st' tbl' victim,
    cache_put Queries (query_key 50) [] 2000 (queries_cached 50) = (Ok tt, st')
    /\ stored_entries Queries st' = Some tbl'
    /\ Z.of_nat (length tbl') <= 50
    /\ victim ∈ fifty_queries ++ [(query_key 50, entry_put Queries [] 2000)]
    /\ (forall kv, kv ∈ fifty_queries ++ [(query_key 50, entry_put Queries [] 2000)] ->
                   stored_timestamp (snd victim) <= stored_timestamp (snd kv))
    /\ tbl' = table_delete (fst victim)
                (fifty_queries ++ [(query_key 50, entry_put Queries [] 2000)])
    /\ length tbl' = 50%nat.
Proof.
  destruct (cache_put_evicts_oldest Queries (query_key 50) [] 2000 (queries_cached 50)
              fifty_queries)
    as (st' & tbl' & Hrun & Hstored' & Hbound & Hone).
  - vm_compute. reflexivity.
  - apply (bool_decide_unpack _). vm_compute. exact I.
  - vm_compute. reflexivity.
  - vm_compute. reflexivity.
  - destruct Hone as (victim & Hin & Hleast & Htbl' & Hlen);
      [vm_compute; reflexivity | vm_compute; reflexivity | ].
    exists st', tbl', victim. repeat split; assumption.
Defined.

Lemma cache_get_valid_or_purged_witness :
  exists st',
    cache_get Posts CacheService.default_cacheKey 121001 feed_cached = (Ok None, st')
    /\ (false = true -> st' = feed_cached)
    /\ (false = false ->
        writeFault (CacheService.localStorage feed_cached) = false ->
        stored_entries Posts st' = Some []
        /\ forall now', cache_get Posts CacheService.default_cacheKey now' st' = (Ok None, st')).
Proof.
  apply (cache_get_valid_or_purged Posts CacheService.default_cacheKey 121001 feed_cached
           [(CacheService.default_cacheKey,
             mkStoredEntry [JStr "post-1"; JStr "post-2"] 1000 121000 (Some "1.0.0"))]
           (mkStoredEntry [JStr "post-1"; JStr "post-2"] 1000 121000 (Some "1.0.0"))).
  - vm_compute. reflexivity.
  - vm_compute. reflexivity.
Defined.

(** C2 as stated fails twice.  At the instant [expiresAt] itself, which is
    not strictly before [expiresAt], the getter of the posts still returns
    the entry; and the getter of the queries returns an entry whatever
    version it carries, since it tests the expiry only. *)
Lemma cache_get_at_expiry_and_without_version :
  (stored_entries Posts feed_cached
   = Some [(CacheService.default_cacheKey,
            mkStoredEntry [JStr "post-1"; JStr "post-2"] 1000 121000 (Some "1.0.0"))]
   /\ (121000 <? 121000) = false
   /\ fst (CacheService.getCachedPosts CacheService.default_cacheKey 121000 feed_cached)
      = Ok (Some [JStr "post-1"; JStr "post-2"]))
  /\ (JSON.parse <$> items (CacheService.localStorage old_queries)
                        !! CacheService.QUERIES_CACHE_KEY
      = Some (Some (JObj [("near", old_query)]))
      /\ JSON.field "version" old_query = Some (JStr "0.9.0")
      /\ String.eqb "0.9.0" (CacheService.version CacheService.QUERIES_CONFIG) = false
      /\ fst (CacheService.getCachedQuery "near" 2000 old_queries) = Ok (Some [JStr "post-1"])).
Proof. vm_compute. repeat split. Qed.

Lemma queue_round_trip_witness :
  exists st',
    OfflineQueueService.saveQueueToStorage two_pending = (Ok tt, st')
    /\ exists st'',
        OfflineQueueService.new false (OfflineQueueService.localStorage st')
          BackgroundSyncService.initialFields
        = (Ok tt, st'')
        /\ OfflineQueueService.queue st'' = Typed [rename_ana; new_report].
Proof.
  apply (queue_round_trip two_pending [rename_ana; new_report] false
           BackgroundSyncService.initialFields); vm_compute; reflexivity.
Defined.

(** * The images *)

(** C6, the code at a failing input.  Two photos of 30 MB cached one after
    the other on a fresh profile are both in the IndexedDB store: 60 MB,
    over the budget of 50 MB.  [cacheImage] never writes the table of the
    images to [localStorage], so the table it trims is the one it has just
    built around the new image alone, and both photos are a cache miss. *)
Theorem cacheImage_exceeds_byte_budget :
  stored_bytes (CacheService.indexedDB two_photos) = 62914560
  /\ CacheService.IMAGES_CONFIG.maxSize = 52428800
  /\ stored_count (CacheService.indexedDB two_photos) = 2
  /\ items (CacheService.localStorage two_photos) !! CacheService.IMAGES_CACHE_KEY = None
  /\ fst (CacheService.getCachedImageBlob "https://firebasestorage.example/a.jpg" 3000
            two_photos) = Ok None
  /\ fst (CacheService.getCachedImageBlob "https://firebasestorage.example/b.jpg" 3000
            two_photos) = Ok None.
Proof. vm_compute. repeat split. Qed.

Section Images.
Import CacheService.

Lemma getImagesCache_absent (st : State) :
  no_image_table st -> getImagesCache st = (Ok (Typed []), st).
Proof.
  unfold no_image_table, getImagesCache, getCache. intros Habsent.
  rewrite try_catch_unfold, bind_unfold, localStorage_getItem_run.
  destruct (readFault (localStorage st)); [reflexivity | ].
  by rewrite Habsent.
Qed.

(** Without the table in [localStorage], [cacheImage] stores the image it
    fetched in IndexedDB, whatever is there already and whatever the size
    of the image, and leaves [localStorage] as it is. *)
Lemma cacheImage_untracked (net : Network) (url : string) (now size : Z) (st : State) :
  no_image_table st ->
  openFault (indexedDB st) = false ->
  String.prefix "blob:" url = false ->
  serves net url size ->
  cacheImage net url now st
  = (Ok tt,
     mkState (localStorage st)
       (mkIndexedDB
          (<[url := ImageCacheEntry.mk url (Blob.Data size) now size]> (images (indexedDB st)))
          false)).
Proof.
  intros Habsent Hopen Hprefix [status Hserves].
  unfold cacheImage, getCachedImageBlob, fetch, response_blob.
  rewrite Hprefix, Hserves.
  rewrite try_catch_unfold, bind_unfold, try_catch_unfold, bind_unfold.
  rewrite (getImagesCache_absent st Habsent).
  cbn [use bind ret assoc ok body blob_size].
  rewrite bind_unfold, (getImagesCache_absent st Habsent).
  cbn [use bind ret table_set].
  unfold limitImageCacheSize, saveImageToIndexedDB, deleteImageFromIndexedDB.
  cbn [map snd foldl length ImageCacheEntry.size ImageCacheEntry.url].
  destruct ((0 + size >? IMAGES_CONFIG.maxSize)
            || (Z.of_nat 1 >? IMAGES_CONFIG.maxEntries)) eqn:Hover.
  - cbn [sort foldr insert_sorted evictOldest].
    replace (Z.of_nat 1 <=? IMAGES_CONFIG.maxEntries) with true by reflexivity.
    rewrite andb_true_r.
    destruct (0 + size <=? IMAGES_CONFIG.maxSize) eqn:Hfits.
    + unfold ret, bind, modify. rewrite Hopen. reflexivity.
    + cbn [ImageCacheEntry.url ImageCacheEntry.size evictOldest].
      unfold deleteImageFromIndexedDB, ret, bind, modify.
      rewrite Hopen. cbn [indexedDB openFault images localStorage].
      by rewrite insert_delete_eq.
  - unfold ret, bind, modify. rewrite Hopen. reflexivity.
Qed.

(** So the IndexedDB store grows by one image with every new address: its
    count has no bound. *)
Lemma images_pile_up (net : Network) (size : Z) (plan : list (string * Z)) :
  forall st : State,
    no_image_table st ->
    openFault (indexedDB st) = false ->
    NoDup (map fst plan) ->
    Forall (fun job => String.prefix "blob:" (fst job) = false
                       /\ serves net (fst job) size
                       /\ images (indexedDB st) !! fst job = None) plan ->
    exists st',
      cache_all net plan st = (Ok tt, st')
      /\ no_image_table st'
      /\ stored_count (indexedDB st')
         = stored_count (indexedDB st) + Z.of_nat (length plan).
Proof.
  induction plan as [ | [url now] plan IH]; intros st Habsent Hopen Hnodup Hplan.
  - exists st. split; [reflexivity | ]. split; [exact Habsent | ]. simpl. lia.
  - simpl in Hnodup. apply NoDup_cons in Hnodup as [Hfresh Hnodup].
    apply Forall_cons in Hplan as [(Hprefix & Hserves & Hnew) Hplan]. simpl in *.
    rewrite bind_unfold, (cacheImage_untracked net url now size st) by assumption.
    edestruct IH as (st' & -> & Habsent' & Hcount); [ | | exact Hnodup | | ].
    + exact Habsent.
    + reflexivity.
    + eapply Forall_impl; [ | intros job Hjob; exact Hjob].
      apply Forall_forall. intros job Hjob.
      rewrite Forall_forall in Hplan. destruct (Hplan job Hjob) as (? & ? & ?).
      repeat split; try assumption. cbn [indexedDB images].
      rewrite lookup_insert_ne; [assumption | ].
      intros ->. apply Hfresh. by apply list_elem_of_fmap_2.
    + exists st'. split; [reflexivity | ]. split; [exact Habsent' | ].
      rewrite Hcount. unfold stored_count. cbn [indexedDB images].
      rewrite map_size_insert_None by exact Hnew. lia.
Qed.

End Images.

(** The queue of a service started on a snapshot that is an object. *)
Example object_snapshot_queue :
  OfflineQueueService.queue object_snapshot = Untyped (JObj [])
  /\ OfflineStatus.queuedOperations (OfflineQueueService.getStatus 1000 object_snapshot) = None.
Proof. vm_compute. split; reflexivity. Qed.

(** * The trimming of the table of the images

    [limitImageCacheSize] does on the table it is given what the budget
    asks: what it returns is within the two bounds, and is the table less
    the first entries in the order of the timestamps.  The slip of
    [cacheImage] is upstream: the table it passes holds the new image
    alone. *)

Section ImageBudget.
Import CacheService.

Lemma foldl_sum_sizes (entries : list ImageCacheEntry.t) (acc : Z) :
  foldl (fun sum entry => sum + ImageCacheEntry.size entry) acc entries
  = acc + sum_sizes entries.
Proof.
  revert acc. induction entries as [ | e entries IH]; intros acc; simpl; [lia | ].
  rewrite IH. lia.
Qed.

Lemma sum_sizes_perm (l k : list ImageCacheEntry.t) : l ≡ₚ k -> sum_sizes l = sum_sizes k.
Proof. induction 1; simpl; lia. Qed.

Lemma table_delete_perm {T} (key : string) (value : T) (t : Table T) :
  NoDup (keys t) -> (key, value) ∈ t -> t ≡ₚ (key, value) :: table_delete key t.
Proof.
  unfold keys, table_delete. induction t as [ | [k v] t IH]; intros Hnodup Hin.
  - by apply elem_of_nil in Hin.
  - simpl in Hnodup. apply NoDup_cons in Hnodup as [Hfresh Hnodup].
    apply elem_of_cons in Hin as [[= <- <-] | Hin].
    + simpl. rewrite String.eqb_refl. simpl. constructor.
      fold (table_delete key t). by rewrite table_delete_absent.
    + simpl. destruct (String.eqb_spec k key) as [-> | Hne].
      * exfalso. apply Hfresh. by apply (list_elem_of_fmap_2 fst) in Hin.
      * simpl. rewrite (IH Hnodup Hin) at 1. apply Permutation_swap.
Qed.

Lemma keyed_by_url_delete (key : string) (cache : Table ImageCacheEntry.t) :
  keyed_by_url cache -> keyed_by_url (table_delete key cache).
Proof.
  unfold keyed_by_url, table_delete. rewrite !Forall_forall. intros Hkeyed kv Hkv.
  apply Hkeyed. apply list_elem_of_In. apply list_elem_of_In, filter_In in Hkv. tauto.
Qed.

Lemma evictOldest_within_budget (rest : list ImageCacheEntry.t) :
  forall (cache : Table ImageCacheEntry.t) (st : State),
    NoDup (keys cache) -> keyed_by_url cache -> map snd cache ≡ₚ rest ->
    exists cache' st' evicted,
      evictOldest rest (sum_sizes rest) (Z.of_nat (length rest)) cache st = (Ok cache', st')
      /\ within_budget cache'
      /\ map snd cache' ≡ₚ drop evicted rest
      /\ localStorage st' = localStorage st.
Proof.
  induction rest as [ | entry rest IH]; intros cache st Hnodup Hkeyed Hperm.
  - apply Permutation_nil_r in Hperm. destruct cache; [ | discriminate].
    exists [], st, 0%nat. repeat split; try reflexivity; simpl; done.
  - cbn [evictOldest].
    destruct ((sum_sizes (entry :: rest) <=? IMAGES_CONFIG.maxSize)
              && (Z.of_nat (length (entry :: rest)) <=? IMAGES_CONFIG.maxEntries)) eqn:Hfits.
    + apply andb_true_iff in Hfits as [Hsize Hcount].
      exists cache, st, 0%nat. split; [reflexivity | ]. split; [ | by split].
      split.
      * rewrite (sum_sizes_perm _ _ Hperm). lia.
      * rewrite <- (length_map snd), (Permutation_length Hperm). lia.
    + assert (Hin : (ImageCacheEntry.url entry, entry) ∈ cache).
      { assert (He : entry ∈ map snd cache) by (rewrite Hperm; left).
        apply list_elem_of_fmap in He as ([k e] & -> & Hke).
        unfold keyed_by_url in Hkeyed. rewrite Forall_forall in Hkeyed.
        by rewrite (Hkeyed _ Hke). }
      pose proof (table_delete_perm _ _ cache Hnodup Hin) as Hsplit.
      assert (Hperm' : map snd (table_delete (ImageCacheEntry.url entry) cache) ≡ₚ rest).
      { apply (Permutation_cons_inv (a := entry)). rewrite <- Hperm.
        by rewrite Hsplit at 2. }
      rewrite bind_unfold.
      destruct (deleteImageFromIndexedDB (ImageCacheEntry.url entry) st) as [r st1] eqn:Hdel.
      assert (Hst1 : r = Ok tt /\ localStorage st1 = localStorage st).
      { unfold deleteImageFromIndexedDB, modify in Hdel. injection Hdel as <- <-.
        split; [reflexivity | ]. by destruct (openFault (indexedDB st)). }
      destruct Hst1 as [-> Hls1].
      replace (sum_sizes (entry :: rest) - ImageCacheEntry.size entry)
        with (sum_sizes rest) by (simpl; lia).
      replace (Z.of_nat (length (entry :: rest)) - 1)
        with (Z.of_nat (length rest)) by (simpl; lia).
      destruct (IH (table_delete (ImageCacheEntry.url entry) cache) st1)
        as (cache' & st' & evicted & Hrun & Hbudget & Hrest & Hls');
        [by apply NoDup_keys_table_delete | by apply keyed_by_url_delete | exact Hperm' | ].
      exists cache', st', (S evicted). rewrite Hrun.
      split; [reflexivity | ]. split; [exact Hbudget | ]. split; [exact Hrest | congruence].
Qed.

Lemma limitImageCacheSize_within_budget (cache : Table ImageCacheEntry.t) (st : State) :
  NoDup (keys cache) -> keyed_by_url cache ->
  exists cache' st' evicted,
    limitImageCacheSize cache st = (Ok cache', st')
    /\ within_budget cache'
    /\ map snd cache' ≡ₚ drop evicted (sort oldest_first (map snd cache))
    /\ localStorage st' = localStorage st.
Proof.
  intros Hnodup Hkeyed. unfold limitImageCacheSize.
  rewrite foldl_sum_sizes, Z.add_0_l.
  pose proof (sort_perm oldest_first (map snd cache)) as Hsorted.
  destruct ((sum_sizes (map snd cache) >? IMAGES_CONFIG.maxSize)
            || (Z.of_nat (length (map snd cache)) >? IMAGES_CONFIG.maxEntries)) eqn:Hover.
  - rewrite <- (sum_sizes_perm _ _ Hsorted), <- (Permutation_length Hsorted).
    apply evictOldest_within_budget; [exact Hnodup | exact Hkeyed | by symmetry].
  - apply orb_false_iff in Hover as [Hsize Hcount].
    exists cache, st, 0%nat. split; [reflexivity | ]. split; [ | split].
    + split; [lia | ]. rewrite length_map in Hcount. lia.
    + by symmetry.
    + reflexivity.
Qed.

End ImageBudget.

(** * Further facts about the three services *)

(** ** OfflineQueueService: the mutations of the queue *)

Section QueueMutations.
Context {L : Type} (listeners : OfflineStatus.t -> L -> L).
Import OfflineQueueService.

Lemma with_queue_same (st : State L) (ops : list QueuedOperation.t) :
  queue st = Typed ops -> with_queue ops st = st.
Proof. intros Hq. unfold with_queue. destruct st; simpl in *; congruence. Qed.

Lemma without_absent (i : string) (ops : list QueuedOperation.t) :
  find_op i ops = None -> without i ops = ops.
Proof.
  unfold find_op, without. induction ops as [ | op ops IH]; [reflexivity | ].
  simpl. destruct (has_id i op); [discriminate | ]. intros Hnone. simpl. by rewrite IH.
Qed.

Lemma length_without (i : string) (ops : list QueuedOperation.t) :
  (length (without i ops) <= length ops)%nat.
Proof. unfold without. apply List.filter_length_le. Qed.

Lemma without_present (i : string) (op : QueuedOperation.t) (ops : list QueuedOperation.t) :
  find_op i ops = Some op -> (length (without i ops) < length ops)%nat.
Proof.
  unfold find_op, without. induction ops as [ | op' ops IH]; [discriminate | ].
  simpl. destruct (has_id i op'); simpl.
  - intros _. pose proof (length_without i ops). unfold without in *. lia.
  - intros Hfound. specialize (IH Hfound). lia.
Qed.

(** The queue while the loop of a drain runs: the operations before the
    point the loop has reached are as the loop left them, and the others
    are still as they were. *)
Lemma after_one_here (b : Backend) (op : QueuedOperation.t)
    (done rest : list QueuedOperation.t) :
  QueuedOperation.id op ∉ ids done -> QueuedOperation.id op ∉ ids rest ->
  after_one b (done ++ op :: rest) op
  = done ++ match retried b op with Some op' => [op'] | None => [] end ++ rest.
Proof.
  intros Hdone Hrest.
  assert (Hwithout : forall l, QueuedOperation.id op ∉ ids l ->
                               without (QueuedOperation.id op) l = l).
  { intros l Hl. apply without_absent.
    destruct (find_op (QueuedOperation.id op) l) as [x | ] eqn:Hx; [ | reflexivity].
    apply find_op_Some in Hx as [Hin Hid]. exfalso. apply Hl. rewrite <- Hid.
    unfold ids. by apply list_elem_of_fmap_2. }
  assert (Hinc : forall l, QueuedOperation.id op ∉ ids l ->
            increment_found (QueuedOperation.id op) (l ++ op :: rest)
            = l ++ QueuedOperation.incrementRetryCount op :: rest).
  { induction l as [ | x l IH]; intros Hl; simpl.
    - unfold has_id. by rewrite String.eqb_refl.
    - simpl in Hl. apply not_elem_of_cons in Hl as [Hne Hl].
      unfold has_id at 1. destruct (String.eqb_spec (QueuedOperation.id x) (QueuedOperation.id op));
        [congruence | ]. by rewrite IH. }
  assert (Hfind : find_op (QueuedOperation.id op) (done ++ op :: rest) = Some op).
  { clear Hinc Hwithout. induction done as [ | x done IH]; simpl.
    - unfold find_op. simpl. unfold has_id. by rewrite String.eqb_refl.
    - simpl in Hdone. apply not_elem_of_cons in Hdone as [Hne Hdone].
      unfold find_op in *. simpl. unfold has_id at 1.
      destruct (String.eqb_spec (QueuedOperation.id x) (QueuedOperation.id op));
        [congruence | ]. by apply IH. }
  assert (Hcut : forall x, QueuedOperation.id x = QueuedOperation.id op ->
            without (QueuedOperation.id op) (done ++ x :: rest) = done ++ rest).
  { intros x Hx. unfold without. rewrite List.filter_app. simpl.
    unfold has_id at 2. rewrite Hx, String.eqb_refl. simpl.
    fold (without (QueuedOperation.id op) done). fold (without (QueuedOperation.id op) rest).
    by rewrite !Hwithout. }
  unfold after_one, retried. destruct (executes b op).
  - by apply Hcut.
  - rewrite Hfind.
    destruct (QueuedOperation.retryCount op + 1 >=? MAX_RETRY_COUNT).
    + rewrite Hinc by exact Hdone. by apply Hcut.
    + by apply Hinc.
Qed.

Lemma ids_retried (b : Backend) (op op' : QueuedOperation.t) :
  retried b op = Some op' -> QueuedOperation.id op' = QueuedOperation.id op.
Proof. unfold retried. repeat case_match; intros [= <-]; reflexivity. Qed.

Lemma drain_in_order (b : Backend) (todo : list QueuedOperation.t) :
  forall done : list QueuedOperation.t,
    NoDup (ids (done ++ todo)) ->
    foldl (after_one b) (done ++ todo) todo = done ++ omap (retried b) todo.
Proof.
  induction todo as [ | op todo IH]; intros done Hnodup; [reflexivity | ].
  unfold ids in Hnodup. rewrite fmap_app in Hnodup. cbn [fmap list_fmap] in Hnodup.
  apply NoDup_app in Hnodup as (Hdone & Hapart & Htodo).
  apply NoDup_cons in Htodo as [Hfresh Htodo].
  cbn [foldl]. rewrite after_one_here.
  2:{ intros Hin. apply (Hapart _ Hin). left. }
  2:{ exact Hfresh. }
  cbn [omap list_omap]. destruct (retried b op) as [op' | ] eqn:Hop.
  - change (done ++ [op'] ++ todo) with (done ++ op' :: todo).
    rewrite (cons_middle op' done todo), app_assoc. rewrite IH.
    + by rewrite <- app_assoc.
    + unfold ids. rewrite !fmap_app. cbn [fmap list_fmap].
      rewrite (ids_retried _ _ _ Hop). rewrite <- app_assoc. simpl.
      apply NoDup_app. split; [exact Hdone | ]. split.
      * intros i Hi. apply Hapart. exact Hi.
      * by apply NoDup_cons.
  - simpl. apply IH. unfold ids. rewrite fmap_app.
    apply NoDup_app. split; [exact Hdone | ]. split; [ | exact Htodo].
    intros i Hi Hin. apply (Hapart _ Hi). by right.
Qed.

Lemma filter_none {A} (P : A -> bool) (l : list A) :
  (forall x, x ∈ l -> P x = false) -> List.filter P l = [].
Proof.
  induction l as [ | x l IH]; intros Hall; [reflexivity | ].
  cbn [List.filter]. rewrite (Hall x) by left. apply IH. intros y Hy. apply Hall. by right.
Qed.

(** A drain of operations whose calls all return removes them all,
    ids repeated or not. *)
Lemma drain_all_executed (b : Backend) (todo : list QueuedOperation.t) :
  Forall (fun op => executes b op = true) todo ->
  forall acc : list QueuedOperation.t,
    foldl (after_one b) acc todo
    = List.filter (fun op => bool_decide (QueuedOperation.id op ∉ ids todo)) acc.
Proof.
  induction 1 as [ | op todo Hop Htodo IH]; intros acc.
  - simpl. induction acc as [ | x acc IHacc]; [reflexivity | ].
    simpl. by rewrite <- IHacc.
  - cbn [foldl]. rewrite IH. unfold after_one. rewrite Hop. unfold without.
    clear. induction acc as [ | x acc IHacc]; [reflexivity | ].
    cbn [List.filter]. unfold has_id at 1.
    destruct (String.eqb_spec (QueuedOperation.id x) (QueuedOperation.id op)) as [He | Hne].
    + cbn [negb]. rewrite IHacc. rewrite (bool_decide_eq_false_2 (_ ∉ ids (op :: todo))).
      * reflexivity.
      * intros Hnot. apply Hnot. rewrite He. left.
    + cbn [negb List.filter]. rewrite IHacc.
      replace (bool_decide (QueuedOperation.id x ∉ ids (op :: todo)))
        with (bool_decide (QueuedOperation.id x ∉ ids todo)); [reflexivity | ].
      apply bool_decide_ext. simpl. rewrite not_elem_of_cons. tauto.
Qed.

Lemma reports_execute (b : Backend) (op : QueuedOperation.t) :
  authModuleLoads b = true -> is_report op = true -> executes b op = true.
Proof.
  unfold is_report, executes, executeOperation, import_AuthService. intros -> Hreport.
  cbn [bind ret]. destruct (String.eqb (QueuedOperation.type op) "CREATE_REPORT") eqn:Hcreate.
  - reflexivity.
  - simpl in Hreport.
    destruct (String.eqb_spec (QueuedOperation.type op) "DELETE_REPORT") as [Hdelete | ];
      [ | discriminate].
    rewrite Hdelete. reflexivity.
Qed.

(** A drain on a store that takes the write: the state it leaves. *)
Lemma processQueue_healthy (b : Backend) (now : Z) (st : State L)
    (ops : list QueuedOperation.t) :
  queue st = Typed ops -> ops <> [] ->
  isOnline st = true -> processingQueue st = false ->
  writeFault (localStorage st) = false ->
  processQueue listeners b now st
  = (Ok tt,
     mkState (Typed (foldl (after_one b) ops ops)) true false
       (mkLocalStorage
          (<[STORAGE_KEY := JSON.stringify (to_json (foldl (after_one b) ops ops))]>
             (items (localStorage st)))
          (readFault (localStorage st)) false)
       (listeners
          (OfflineStatus.mk true (Some now)
             (Some (Z.of_nat (length (foldl (after_one b) ops ops)))))
          (subscribers st))).
Proof.
  intros Hq Hne Hon Hproc Hwrite. unfold processQueue.
  unfold bind at 1. unfold get. rewrite Hon, Hproc, Hq. simpl.
  rewrite bool_decide_eq_false_2.
  2:{ intros [= H]. destruct ops; [congruence | simpl in H; lia]. }
  unfold set_processingQueue.
  cbn [bind ret get gets modify use queue]. rewrite Hq. cbn [bind ret use].
  rewrite bind_unfold. erewrite processAll_typed by reflexivity.
  rewrite bind_unfold.
  erewrite saveQueueToStorage_typed by (reflexivity || exact Hwrite).
  unfold notifyListeners, getStatus. run. rewrite Hon. reflexivity.
Qed.

(** A state whose store holds the text of its queue and can be read. *)
Lemma persisted_intro (st : State L) (ops : list QueuedOperation.t) :
  queue st = Typed ops ->
  readFault (localStorage st) = false ->
  items (localStorage st) !! STORAGE_KEY = Some (JSON.stringify (to_json ops)) ->
  persisted st.
Proof.
  intros Hq Hread Hitem. unfold persisted, restarted, new.
  rewrite (loadQueueFromStorage_typed _ ops) by assumption.
  cbn. by rewrite Hq.
Qed.

Lemma processQueue_guarded (b : Backend) (now : Z) (st : State L) :
  negb (isOnline st) || processingQueue st
  || bool_decide (length_or_undefined (queue st) = Some 0) = true ->
  processQueue listeners b now st = (Ok tt, st).
Proof. intros Hguard. unfold processQueue. rewrite bind_unfold. unfold get. by rewrite Hguard. Qed.

Lemma processQueue_persisted (b : Backend) (now : Z) (st : State L)
    (ops : list QueuedOperation.t) :
  queue st = Typed ops -> healthy (localStorage st) -> persisted st ->
  persisted (snd (processQueue listeners b now st)).
Proof.
  intros Hq [Hread Hwrite] Hsaved.
  destruct (negb (isOnline st) || processingQueue st
            || bool_decide (length_or_undefined (queue st) = Some 0)) eqn:Hguard.
  - by rewrite processQueue_guarded.
  - apply orb_false_iff in Hguard as [Hguard Hempty].
    apply orb_false_iff in Hguard as [Hon Hidle]. apply negb_false_iff in Hon.
    rewrite (processQueue_healthy b now st ops); try assumption.
    + eapply persisted_intro; [reflexivity | exact Hread | ]. cbn. apply lookup_insert_eq.
    + intros ->. rewrite Hq in Hempty. by rewrite bool_decide_eq_true_2 in Hempty.
Qed.

End QueueMutations.

(** X1. [removeFromQueue] with an id that no operation of the queue has
    returns [false] and changes nothing: the store is not written and no
    listener is called.  With an id of the queue it returns [true], removes
    every operation with that id and keeps the others in their order,
    writes the new queue to the store when the store takes the write, and
    calls the listeners with the new length. *)
Theorem removeFromQueue_by_id {L : Type} (listeners : OfflineStatus.t -> L -> L)
    (operationId : string) (now : Z) (st : OfflineQueueService.State L)
    (ops : list QueuedOperation.t) :
  OfflineQueueService.queue st = Typed ops ->
  match OfflineQueueService.find_op operationId ops with
  | None => OfflineQueueService.removeFromQueue listeners operationId now st = (Ok false, st)
  | Some _ =>
      exists st',
        OfflineQueueService.removeFromQueue listeners operationId now st = (Ok true, st')
        /\ OfflineQueueService.queue st'
           = Typed (List.filter
                      (fun op => negb (String.eqb (QueuedOperation.id op) operationId)) ops)
        /\ (writeFault (OfflineQueueService.localStorage st) = false ->
            items (OfflineQueueService.localStorage st') !! OfflineQueueService.STORAGE_KEY
            = Some (JSON.stringify
                      (to_json (OfflineQueueService.without operationId ops))))
        /\ OfflineQueueService.subscribers st'
           = listeners
               (OfflineStatus.mk (OfflineQueueService.isOnline st)
                  (if OfflineQueueService.isOnline st then Some now else None)
                  (Some (Z.of_nat (length (OfflineQueueService.without operationId ops)))))
               (OfflineQueueService.subscribers st)
  end.
Proof.
  intros Hq. unfold OfflineQueueService.removeFromQueue, OfflineQueueService.set_queue.
  cbn [bind ret gets modify use]. rewrite Hq. cbn [bind ret use modify].
  destruct (OfflineQueueService.find_op operationId ops) as [op | ] eqn:Hfind.
  - pose proof (without_present _ _ _ Hfind) as Hless.
    apply Nat.ltb_lt in Hless. rewrite Hless.
    rewrite bind_unfold.
    destruct (writeFault (OfflineQueueService.localStorage st)) eqn:Hwrite.
    + match goal with |- context [OfflineQueueService.saveQueueToStorage ?s] =>
        destruct (saveQueueToStorage_ok s) as (ls' & ->) end.
      eexists. split; [reflexivity | ]. split; [reflexivity | ].
      split; [discriminate | reflexivity].
    + erewrite saveQueueToStorage_typed by (reflexivity || exact Hwrite).
      eexists. split; [reflexivity | ]. split; [reflexivity | ].
      split; [ | reflexivity]. intros _. cbn. apply lookup_insert_eq.
  - rewrite (without_absent _ _ Hfind), Nat.ltb_irrefl.
    unfold ret. f_equal. fold (with_queue ops st). by apply with_queue_same.
Qed.

(** X2. A drain by [processQueue] of a queue whose operations have ids of
    their own, online and with no other drain running, leaves the queue in
    its order: the operations whose call returned are gone, those that
    failed for the third time are gone, and the others are where they
    were, with one more attempt counted.  The drain ends idle. *)
Theorem processQueue_keeps_order {L : Type} (listeners : OfflineStatus.t -> L -> L)
    (b : Backend) (now : Z) (st : OfflineQueueService.State L)
    (ops : list QueuedOperation.t) :
  OfflineQueueService.queue st = Typed ops ->
  OfflineQueueService.isOnline st = true ->
  OfflineQueueService.processingQueue st = false ->
  NoDup (ids ops) ->
  exists st',
    OfflineQueueService.processQueue listeners b now st = (Ok tt, st')
    /\ OfflineQueueService.queue st' = Typed (omap (retried b) ops)
    /\ OfflineQueueService.processingQueue st' = false
    /\ OfflineQueueService.isOnline st' = true.
Proof.
  intros Hq Hon Hidle Hnodup. destruct ops as [ | op ops].
  - exists st. rewrite processQueue_empty by exact Hq. by repeat split.
  - destruct (processQueue_typed listeners b now st (op :: ops) Hq) as (ls' & ->);
      [discriminate | exact Hon | exact Hidle | ].
    eexists. split; [reflexivity | ]. cbn [OfflineQueueService.queue
      OfflineQueueService.processingQueue OfflineQueueService.isOnline].
    split; [ | by split]. f_equal.
    apply (drain_in_order b (op :: ops) []). exact Hnodup.
Qed.

Lemma processQueue_keeps_order_witness :
  exists st',
    OfflineQueueService.processQueue BackgroundSyncService.onOfflineStatus no_user 5000
      two_pending = (Ok tt, st')
    /\ OfflineQueueService.queue st' = Typed (omap (retried no_user) [rename_ana; new_report])
    /\ OfflineQueueService.processingQueue st' = false
    /\ OfflineQueueService.isOnline st' = true.
Proof.
  apply (processQueue_keeps_order BackgroundSyncService.onOfflineStatus no_user 5000
           two_pending [rename_ana; new_report]).
  - vm_compute. reflexivity.
  - reflexivity.
  - reflexivity.
  - apply (bool_decide_unpack _). vm_compute. exact I.
Defined.

Lemma removeFromQueue_by_id_witness :
  exists st',
    OfflineQueueService.removeFromQueue BackgroundSyncService.onOfflineStatus
      (QueuedOperation.id new_report) 5000 two_pending = (Ok true, st')
    /\ OfflineQueueService.queue st' = Typed [rename_ana].
Proof.
  pose proof (removeFromQueue_by_id BackgroundSyncService.onOfflineStatus
                (QueuedOperation.id new_report) 5000 two_pending [rename_ana; new_report]
                eq_refl) as H.
  vm_compute in H. destruct H as (st' & Hrun & Hq & _). exists st'. split; assumption.
Defined.

(** X3. The operations on reports are not sent anywhere: a drain by
    [processQueue] of a queue of [CREATE_REPORT] and [DELETE_REPORT]
    operations empties the queue whatever the backend answers (a backend
    that refuses every write, or with nobody signed in), as long as the
    module of [AuthService] loads.  Ids need not be distinct. *)
Theorem reports_leave_the_queue_unsent {L : Type} (listeners : OfflineStatus.t -> L -> L)
    (b : Backend) (now : Z) (st : OfflineQueueService.State L)
    (ops : list QueuedOperation.t) :
  OfflineQueueService.queue st = Typed ops ->
  OfflineQueueService.isOnline st = true ->
  OfflineQueueService.processingQueue st = false ->
  authModuleLoads b = true ->
  Forall (fun op => is_report op = true) ops ->
  exists st',
    OfflineQueueService.processQueue listeners b now st = (Ok tt, st')
    /\ OfflineQueueService.queue st' = Typed [].
Proof.
  intros Hq Hon Hidle Hloads Hreports. destruct ops as [ | op ops].
  - exists st. split; [by apply processQueue_empty | exact Hq].
  - destruct (processQueue_typed listeners b now st (op :: ops) Hq) as (ls' & ->);
      [discriminate | exact Hon | exact Hidle | ].
    eexists. split; [reflexivity | ]. cbn [OfflineQueueService.queue]. f_equal.
    rewrite drain_all_executed.
    + apply filter_none. intros x Hx. apply bool_decide_eq_false_2.
      intros Hnot. apply Hnot. unfold ids. by apply list_elem_of_fmap_2.
    + eapply Forall_impl; [exact Hreports | ]. intros x Hx. by apply reports_execute.
Qed.

Lemma reports_leave_the_queue_unsent_witness :
  exists st',
    OfflineQueueService.processQueue BackgroundSyncService.onOfflineStatus refusing 5000
      (started_with [new_report]) = (Ok tt, st')
    /\ OfflineQueueService.queue st' = Typed [].
Proof.
  apply (reports_leave_the_queue_unsent BackgroundSyncService.onOfflineStatus refusing 5000
           (started_with [new_report]) [new_report]).
  - vm_compute. reflexivity.
  - reflexivity.
  - reflexivity.
  - reflexivity.
  - repeat constructor.
Defined.

(** X4. A queue read back as a JSON object (a snapshot that is JSON but not
    an array) cannot be spread: the first drain throws after it has set
    [processingQueue], which nothing resets.  (The object has no member
    [length]: its length is [undefined], not [0], and the drain does not
    return early.)  From then on every drain
    returns at once, [addToQueue] throws, and the store still holds the
    snapshot, so that loading the page again does not help. *)
Theorem processQueue_stuck_on_object {L : Type} (listeners : OfflineStatus.t -> L -> L)
    (b : Backend) (now : Z) (st : OfflineQueueService.State L)
    (members : list (string * Json)) :
  OfflineQueueService.queue st = Untyped (JObj members) ->
  JSON.assoc "length" members = None ->
  OfflineQueueService.isOnline st = true ->
  OfflineQueueService.processingQueue st = false ->
  exists e st',
    OfflineQueueService.processQueue listeners b now st = (Throw e, st')
    /\ OfflineQueueService.processingQueue st' = true
    /\ OfflineQueueService.queue st' = OfflineQueueService.queue st
    /\ OfflineQueueService.localStorage st' = OfflineQueueService.localStorage st
    /\ (forall b' now',
          OfflineQueueService.processQueue listeners b' now' st' = (Ok tt, st'))
    /\ (forall type data random b' now',
          exists e', fst (OfflineQueueService.addToQueue listeners type data random b' now' st')
                     = Throw e').
Proof.
  intros Hq _ Hon Hidle. unfold OfflineQueueService.processQueue at 1.
  rewrite bind_unfold. unfold get. rewrite Hon, Hidle, Hq.
  cbn [negb orb OfflineQueueService.length_or_undefined].
  rewrite bool_decide_eq_false_2 by discriminate.
  unfold OfflineQueueService.set_processingQueue.
  cbn [bind ret gets modify use throw OfflineQueueService.queue]. rewrite Hq.
  cbn [bind ret use throw].
  eexists _, _. split; [reflexivity | ].
  cbn [OfflineQueueService.processingQueue OfflineQueueService.queue
       OfflineQueueService.localStorage].
  split; [reflexivity | ]. split; [reflexivity | ]. split; [reflexivity | ]. split.
  - intros b' now'. apply processQueue_guarded. cbn. by rewrite orb_true_r.
  - intros type data random b' now'. unfold OfflineQueueService.addToQueue.
    cbn [bind ret gets use throw OfflineQueueService.queue]. eexists. reflexivity.
Qed.

Lemma processQueue_stuck_on_object_witness :
  exists e st',
    OfflineQueueService.processQueue BackgroundSyncService.onOfflineStatus signed_in 5000
      object_snapshot = (Throw e, st')
    /\ OfflineQueueService.processingQueue st' = true
    /\ OfflineQueueService.queue st' = OfflineQueueService.queue object_snapshot
    /\ OfflineQueueService.localStorage st' = OfflineQueueService.localStorage object_snapshot
    /\ (forall b' now',
          OfflineQueueService.processQueue BackgroundSyncService.onOfflineStatus b' now' st'
          = (Ok tt, st'))
    /\ (forall type data random b' now',
          exists e', fst (OfflineQueueService.addToQueue BackgroundSyncService.onOfflineStatus
                            type data random b' now' st') = Throw e').
Proof.
  apply (processQueue_stuck_on_object BackgroundSyncService.onOfflineStatus signed_in 5000
           object_snapshot []).
  - vm_compute. reflexivity.
  - reflexivity.
  - reflexivity.
  - reflexivity.
Defined.

(** X5. The snapshot follows every mutation.  On a store that takes every
    call, after [addToQueue] (online or offline) and after [clearQueue] the
    store holds the queue of the service, so that a service made anew on it
    starts with that queue; [removeFromQueue] and [processQueue], which
    skip the write when they change nothing, keep the store in step when it
    was. *)
Theorem mutations_are_persisted {L : Type} (listeners : OfflineStatus.t -> L -> L)
    (b : Backend) (now : Z) (st : OfflineQueueService.State L)
    (ops : list QueuedOperation.t) :
  OfflineQueueService.queue st = Typed ops ->
  healthy (OfflineQueueService.localStorage st) ->
  (forall type data random,
      persisted (snd (OfflineQueueService.addToQueue listeners type data random b now st)))
  /\ persisted (snd (OfflineQueueService.clearQueue listeners now st))
  /\ (persisted st ->
      forall operationId,
        persisted (snd (OfflineQueueService.removeFromQueue listeners operationId now st)))
  /\ (persisted st -> persisted (snd (OfflineQueueService.processQueue listeners b now st))).
Proof.
  intros Hq Hhealthy. pose proof Hhealthy as [Hread Hwrite]. repeat split.
  - intros type data random. unfold OfflineQueueService.addToQueue,
      OfflineQueueService.set_queue.
    cbn [bind ret gets modify use]. rewrite Hq. cbn [bind ret use modify].
    rewrite bind_unfold.
    erewrite saveQueueToStorage_typed by (reflexivity || exact Hwrite).
    unfold OfflineQueueService.notifyListeners.
    cbn [bind ret get modify].
    match goal with |- context [if OfflineQueueService.isOnline ?s then _ else _] =>
      set (s1 := s) end.
    assert (Hsaved1 : persisted s1).
    { eapply persisted_intro; [reflexivity | exact Hread | ]. cbn. apply lookup_insert_eq. }
    destruct (OfflineQueueService.isOnline s1) eqn:Hon1.
    + rewrite bind_unfold.
      pose proof (processQueue_persisted listeners b now s1 _ eq_refl) as Hdrain.
      destruct (OfflineQueueService.processQueue listeners b now s1) as [[[] | e] s2];
        cbn [snd] in *; apply Hdrain; try exact Hsaved1; by split.
    + exact Hsaved1.
  - unfold OfflineQueueService.clearQueue, OfflineQueueService.set_queue.
    cbn [bind ret modify]. rewrite bind_unfold.
    erewrite saveQueueToStorage_typed by (reflexivity || exact Hwrite).
    unfold OfflineQueueService.notifyListeners. cbn [bind ret modify snd].
    eapply persisted_intro; [reflexivity | exact Hread | ]. cbn. apply lookup_insert_eq.
  - intros Hsaved operationId.
    unfold OfflineQueueService.removeFromQueue, OfflineQueueService.set_queue.
    cbn [bind ret gets modify use]. rewrite Hq. cbn [bind ret use modify].
    destruct (length (OfflineQueueService.without operationId ops) <? length ops)%nat eqn:Hless.
    + rewrite bind_unfold.
      erewrite saveQueueToStorage_typed by (reflexivity || exact Hwrite).
      unfold OfflineQueueService.notifyListeners. cbn [bind ret modify snd].
      eapply persisted_intro; [reflexivity | exact Hread | ]. cbn. apply lookup_insert_eq.
    + cbn [ret snd]. apply Nat.ltb_ge in Hless.
      assert (Hsame : OfflineQueueService.without operationId ops = ops).
      { unfold OfflineQueueService.without in *. clear -Hless.
        induction ops as [ | op ops IH]; [reflexivity | ]. cbn [List.filter] in *.
        destruct (negb (OfflineQueueService.has_id operationId op)).
        - f_equal. apply IH. simpl in Hless. lia.
        - pose proof (List.filter_length_le
                        (fun op => negb (OfflineQueueService.has_id operationId op)) ops).
          simpl in Hless. lia. }
      rewrite Hsame. fold (with_queue ops st). by rewrite with_queue_same.
  - intros Hsaved. by apply (processQueue_persisted listeners b now st ops).
Qed.

Lemma mutations_are_persisted_witness :
  persisted (snd (OfflineQueueService.addToQueue BackgroundSyncService.onOfflineStatus
                    "CREATE_REPORT" (QueuedOperation.data new_report) "p0o9i8u7y"
                    no_user 1700000000500 offline_pending))
  /\ persisted (snd (OfflineQueueService.clearQueue BackgroundSyncService.onOfflineStatus
                       1700000000500 offline_pending)).
Proof.
  destruct (mutations_are_persisted BackgroundSyncService.onOfflineStatus no_user
              1700000000500 offline_pending [rename_ana]) as (Hadd & Hclear & _).
  - vm_compute. reflexivity.
  - split; reflexivity.
  - split; [apply Hadd | exact Hclear].
Defined.

(** A drain in its two stretches: up to the first [await], and from
    there to its end. *)
Lemma processQueue_two_stretches {L : Type} (listeners : OfflineStatus.t -> L -> L)
    (b : Backend) (now : Z) (st : OfflineQueueService.State L)
    (ops : list QueuedOperation.t) :
  OfflineQueueService.queue st = Typed ops -> ops <> [] ->
  OfflineQueueService.isOnline st = true ->
  OfflineQueueService.processingQueue st = false ->
  OfflineQueueService.processQueue_begins st
  = (Ok tt,
     OfflineQueueService.mkState (Typed ops) true true
       (OfflineQueueService.localStorage st) (OfflineQueueService.subscribers st))
  /\ OfflineQueueService.processQueue listeners b now st
     = OfflineQueueService.processQueue_resumes listeners b now ops
         (OfflineQueueService.mkState (Typed ops) true true
            (OfflineQueueService.localStorage st) (OfflineQueueService.subscribers st)).
Proof.
  intros Hq Hne Hon Hidle.
  assert (Hguard : negb (OfflineQueueService.isOnline st)
                   || OfflineQueueService.processingQueue st
                   || bool_decide (OfflineQueueService.length_or_undefined
                                     (OfflineQueueService.queue st) = Some 0) = false).
  { rewrite Hon, Hidle, Hq. cbn [negb orb OfflineQueueService.length_or_undefined].
    apply bool_decide_eq_false_2. intros [= H]. destruct ops; [congruence | simpl in H; lia]. }
  unfold OfflineQueueService.processQueue_begins, OfflineQueueService.processQueue,
    OfflineQueueService.processQueue_resumes, detached.
  rewrite try_catch_unfold, !bind_unfold. unfold get. cbv beta iota. rewrite Hguard.
  unfold OfflineQueueService.set_processingQueue.
  cbn [bind ret gets modify use OfflineQueueService.queue]. rewrite Hq, Hon.
  cbn [bind ret use]. split; reflexivity.
Qed.

(** X6. [addToQueue] puts the new operation, with no attempt counted, at
    the end of the queue and returns its id, which is the time and the
    random text.  When the call returns the operation is in the queue,
    whether the service is online or not; online, with no drain running,
    a drain has begun ([processingQueue] is set) and has sent nothing yet.
    That drain, resumed with nothing else having run on the service, goes
    through the whole queue in order, the new operation last, and leaves
    what [addToQueue] run to its end leaves: the id the caller holds may
    then be that of an operation that is no longer queued. *)
Theorem addToQueue_then_drain {L : Type} (listeners : OfflineStatus.t -> L -> L)
    (type : string) (data : Json) (random : string) (b : Backend) (now : Z)
    (st : OfflineQueueService.State L) (ops : list QueuedOperation.t) :
  OfflineQueueService.queue st = Typed ops ->
  OfflineQueueService.processingQueue st = false ->
  NoDup (ids (ops ++ [queued type data random now])) ->
  exists st1,
    OfflineQueueService.addToQueue_returns listeners type data random now st
    = (Ok (JSON.emit_Z now EmptyString +:+ "_" +:+ random), st1)
    /\ OfflineQueueService.queue st1 = Typed (ops ++ [queued type data random now])
    /\ OfflineQueueService.isOnline st1 = OfflineQueueService.isOnline st
    /\ OfflineQueueService.processingQueue st1 = OfflineQueueService.isOnline st
    /\ (OfflineQueueService.isOnline st = false ->
        OfflineQueueService.addToQueue listeners type data random b now st
        = (Ok (JSON.emit_Z now EmptyString +:+ "_" +:+ random), st1))
    /\ (OfflineQueueService.isOnline st = true ->
        exists st',
          OfflineQueueService.processQueue_resumes listeners b now
            (ops ++ [queued type data random now]) st1 = (Ok tt, st')
          /\ OfflineQueueService.queue st'
             = Typed (omap (retried b) (ops ++ [queued type data random now]))
          /\ OfflineQueueService.isOnline st' = true
          /\ OfflineQueueService.processingQueue st' = false
          /\ OfflineQueueService.addToQueue listeners type data random b now st
             = (Ok (JSON.emit_Z now EmptyString +:+ "_" +:+ random), st')).
Proof.
  intros Hq Hidle Hnodup.
  unfold OfflineQueueService.addToQueue_returns, OfflineQueueService.addToQueue,
    OfflineQueueService.set_queue.
  cbn [bind ret gets modify use]. rewrite Hq. cbn [bind ret use modify].
  rewrite !bind_unfold.
  match goal with |- context [OfflineQueueService.saveQueueToStorage ?s] =>
    destruct (saveQueueToStorage_ok s) as (ls' & ->) end.
  unfold OfflineQueueService.notifyListeners. cbn [bind ret get modify].
  match goal with |- context [if OfflineQueueService.isOnline ?s then _ else _] =>
    set (s1 := s) end.
  change (OfflineQueueService.isOnline s1) with (OfflineQueueService.isOnline st).
  fold (queued type data random now) in *.
  destruct (OfflineQueueService.isOnline st) eqn:Hon.
  - destruct (processQueue_two_stretches listeners b now s1
                (ops ++ [queued type data random now]))
      as [Hbegins Hwhole]; [reflexivity | by destruct ops | reflexivity | exact Hidle | ].
    rewrite !bind_unfold, Hbegins, Hwhole.
    eexists. split; [reflexivity | ].
    cbn [OfflineQueueService.queue OfflineQueueService.isOnline
         OfflineQueueService.processingQueue].
    repeat (split; [reflexivity | ]). split; [discriminate | ]. intros _.
    rewrite <- Hwhole.
    destruct (processQueue_typed listeners b now s1 (ops ++ [queued type data random now]))
      as (ls2 & ->); [reflexivity | by destruct ops | reflexivity | exact Hidle | ].
    eexists. split; [reflexivity | ].
    cbn [OfflineQueueService.queue OfflineQueueService.isOnline
         OfflineQueueService.processingQueue].
    split; [ | by repeat split]. f_equal. by apply (drain_in_order b _ []).
  - eexists. split; [reflexivity | ]. subst s1.
    cbn [OfflineQueueService.queue OfflineQueueService.isOnline
         OfflineQueueService.processingQueue OfflineQueueService.set_subscribers
         OfflineQueueService.set_localStorage].
    repeat (split; [reflexivity | ]). split; [exact Hidle | ].
    split; [reflexivity | discriminate].
Qed.

Lemma addToQueue_then_drain_witness :
  exists st1,
    OfflineQueueService.addToQueue_returns BackgroundSyncService.onOfflineStatus
      "CREATE_REPORT" (QueuedOperation.data new_report) "p0o9i8u7y" 1700000000500
      one_pending
    = (Ok "1700000000500_p0o9i8u7y", st1)
    /\ OfflineQueueService.queue st1
       = Typed [rename_ana;
                queued "CREATE_REPORT" (QueuedOperation.data new_report) "p0o9i8u7y"
                  1700000000500]
    /\ OfflineQueueService.processingQueue st1 = true
    /\ exists st',
         OfflineQueueService.processQueue_resumes BackgroundSyncService.onOfflineStatus
           no_user 1700000000500
           [rename_ana;
            queued "CREATE_REPORT" (QueuedOperation.data new_report) "p0o9i8u7y"
              1700000000500] st1 = (Ok tt, st')
         /\ OfflineQueueService.queue st'
            = Typed [QueuedOperation.incrementRetryCount rename_ana]
         /\ OfflineQueueService.processingQueue st' = false.
Proof.
  destruct (addToQueue_then_drain BackgroundSyncService.onOfflineStatus
              "CREATE_REPORT" (QueuedOperation.data new_report) "p0o9i8u7y" no_user
              1700000000500 one_pending [rename_ana])
    as (st1 & Hreturns & Hq & _ & Hflag & _ & Hresumes).
  - vm_compute. reflexivity.
  - reflexivity.
  - apply (bool_decide_unpack _). vm_compute. exact I.
  - exists st1. split; [exact Hreturns | ]. split; [exact Hq | ]. split; [exact Hflag | ].
    destruct (Hresumes eq_refl) as (st' & Hrun & Hq' & _ & Hidle & _).
    exists st'. split; [exact Hrun | ]. split; [exact Hq' | exact Hidle].
Defined.

(** X7. [checkConnectionStatus], the periodic probe, acts on a change only.
    When the probe answers and the service was online, or fails and the
    service was offline, nothing changes: in particular the operations that
    an earlier drain left in the queue are not tried again.  When the probe
    answers and the service was offline it does what the [online] event
    does, and when it fails and the service was online what the [offline]
    event does.  It never throws, also when the drain it starts does. *)
Theorem checkConnectionStatus_acts_on_change {L : Type}
    (listeners : OfflineStatus.t -> L -> L) (probe : option Exn) (b : Backend) (now : Z)
    (st : OfflineQueueService.State L) :
  OfflineQueueService.checkConnectionStatus listeners probe b now st
  = (Ok tt,
     match probe, OfflineQueueService.isOnline st with
     | None, true | Some _, false => st
     | None, false => snd (OfflineQueueService.onOnline listeners b now st)
     | Some _, true => snd (OfflineQueueService.onOffline listeners now st)
     end).
Proof.
  unfold OfflineQueueService.checkConnectionStatus.
  rewrite try_catch_unfold, bind_unfold.
  destruct probe as [e | ]; cbn [await throw ret].
  - cbn [bind get]. destruct (OfflineQueueService.isOnline st) eqn:Hon.
    + reflexivity.
    + reflexivity.
  - cbn [bind get modify]. destruct (OfflineQueueService.isOnline st) eqn:Hon;
      cbn [negb].
    + unfold ret. f_equal. destruct st; simpl in *; congruence.
    + unfold OfflineQueueService.onOnline, OfflineQueueService.notifyListeners, detached.
      cbn [bind modify]. rewrite try_catch_unfold.
      match goal with |- context [OfflineQueueService.processQueue _ _ _ ?s] =>
        destruct (OfflineQueueService.processQueue listeners b now s) as [[[] | e] s2] end;
        reflexivity.
Qed.

(** ** BackgroundSyncService: what a drain reports *)

Section CoordinatorReport.
Import OfflineQueueService BackgroundSyncService.

Lemma syncOperation_outcome (b : Backend) (now : Z) (op : QueuedOperation.t) (w : World)
    (ops : list QueuedOperation.t) :
  queue w = Typed ops ->
  exists w',
    syncOperation b now op w = (Ok (outcome_of b op), w')
    /\ queue w' = Typed (after_sync b ops op)
    /\ same_progress (fields w) (fields w').
Proof.
  intros Hq. unfold syncOperation, after_sync, synced, outcome_of.
  rewrite try_catch_unfold, bind_unfold, syncByType_pure.
  destruct (fst (syncByType b op ())) as [[] | e].
  - rewrite bind_unfold.
    destruct (removeFromQueue_typed (QueuedOperation.id op) now w ops Hq)
      as (r & w' & -> & Hq' & Hsame).
    unfold ret. eexists. split; [reflexivity | by split].
  - unfold ret. eexists. split; [reflexivity | ].
    split; [exact Hq | apply same_progress_refl].
Qed.

Lemma allSettled_outcomes (b : Backend) (now : Z) (batch : list QueuedOperation.t) :
  forall (w : World) (ops : list QueuedOperation.t),
    queue w = Typed ops ->
    exists w',
      allSettled (syncOperation b now) batch w
      = (Ok (map (fun op => Ok (outcome_of b op)) batch), w')
      /\ queue w' = Typed (foldl (after_sync b) ops batch)
      /\ same_progress (fields w) (fields w').
Proof.
  induction batch as [ | op batch IH]; intros w ops Hq.
  - exists w. split; [reflexivity | split; [exact Hq | apply same_progress_refl]].
  - cbn [allSettled]. rewrite bind_unfold.
    destruct (syncOperation_outcome b now op w ops Hq) as (w1 & -> & Hq1 & Hsame1).
    rewrite bind_unfold.
    destruct (IH w1 _ Hq1) as (w' & -> & Hq' & Hsame').
    unfold ret. eexists. split; [reflexivity | ].
    split; [exact Hq' | by eapply same_progress_trans].
Qed.

Lemma tallied_app (b : Backend) (ops ops' : list QueuedOperation.t) (acc : Tally) :
  tallied b ops' (tallied b ops acc) = tallied b (ops ++ ops') acc.
Proof.
  unfold tallied. cbn [syncedCount failedCount syncErrors].
  rewrite omap_app, !length_app, <- app_assoc. f_equal; lia.
Qed.

Lemma tally_outcomes (b : Backend) (batch : list QueuedOperation.t) :
  forall acc : Tally,
    tally batch (map (fun op => Ok (outcome_of b op)) batch) acc = tallied b batch acc.
Proof.
  induction batch as [ | op batch IH]; intros acc.
  - unfold tallied. destruct acc. cbn. rewrite app_nil_r. f_equal; lia.
  - cbn [tally map]. rewrite IH. rewrite <- (tallied_app b [op] batch). f_equal.
    unfold tallied, outcome_of, failure_line. cbn [omap list_omap length].
    destruct (fst (syncByType b op ())) as [[] | e]; cbn [text_of length];
      f_equal; try lia; by rewrite ?app_nil_r.
Qed.

Lemma syncBatches_outcomes (b : Backend) (now : Z) (todo : list (list QueuedOperation.t)) :
  forall (w : World) (ops : list QueuedOperation.t) (acc : Tally),
    queue w = Typed ops ->
    exists w',
      syncBatches b now todo acc w = (Ok (tallied b (concat todo) acc), w')
      /\ same_progress (fields w) (fields w').
Proof.
  induction todo as [ | batch todo IH]; intros w ops acc Hq.
  - exists w. split; [ | apply same_progress_refl].
    unfold tallied. destruct acc. cbn. unfold ret. rewrite app_nil_r. do 3 f_equal; lia.
  - cbn [syncBatches]. rewrite bind_unfold.
    destruct (allSettled_outcomes b now batch w ops Hq) as (w1 & -> & Hq1 & Hsame1).
    destruct (IH w1 _ (tally batch (map (fun op => Ok (outcome_of b op)) batch) acc) Hq1)
      as (w' & -> & Hsame').
    eexists. split; [ | by eapply same_progress_trans].
    rewrite tally_outcomes, tallied_app. reflexivity.
Qed.

End CoordinatorReport.

(** X8. What a drain by [performSync] reports, on a queue of any length
    (the batches of five cover it, in order): one line for each operation
    whose synchronisation failed, [Operación <id>: <message>], in the order
    of the queue; their number as [failedOperations]; the number of the
    others as [syncedOperations]; [success] when no operation failed.  The
    lines are also the [errors] of the service afterwards, [lastSyncTime]
    is the time of the drain even when operations failed, and the service
    is idle again. *)
Theorem performSync_report (w : BackgroundSyncService.World) (ops : list QueuedOperation.t)
    (force : bool) (b : Backend) (now : Z) :
  OfflineQueueService.queue w = Typed ops ->
  BackgroundSyncService.syncInProgress (BackgroundSyncService.fields w) && negb force = false ->
  exists w',
    BackgroundSyncService.performSync force b now w
    = (Ok (SyncResult.mk
             (Z.of_nat (length (omap (failure_line b) ops)) =? 0)
             (Z.of_nat (length ops) - Z.of_nat (length (omap (failure_line b) ops)))
             (Z.of_nat (length (omap (failure_line b) ops)))
             (omap (failure_line b) ops)), w')
    /\ BackgroundSyncService.errors (BackgroundSyncService.fields w')
       = omap (failure_line b) ops
    /\ BackgroundSyncService.lastSyncTime (BackgroundSyncService.fields w') = Some now
    /\ BackgroundSyncService.syncInProgress (BackgroundSyncService.fields w') = false.
Proof.
  intros Hq Hfree. unfold BackgroundSyncService.performSync.
  rewrite bind_unfold. cbn [get]. rewrite Hfree. rewrite bind_unfold.
  destruct (drainStarted_run now w) as (w1 & Hstart & Hq1). rewrite Hstart.
  rewrite Hq in Hq1.
  rewrite try_finally_unfold, try_catch_unfold.
  unfold BackgroundSyncService.drain.
  rewrite bind_unfold, (getPendingOperations_typed w1 ops Hq1).
  case_bool_decide as Hlen.
  - destruct ops; [ | discriminate]. cbn. eexists. split; [reflexivity | ].
    cbn. repeat split. unfold BackgroundSyncService.drainStarted in Hstart.
    cbn in Hstart. injection Hstart as <-. reflexivity.
  - rewrite bind_unfold.
    destruct (syncBatches_outcomes b now
                (batches (length ops) BackgroundSyncService.batchSize ops) w1 ops
                (BackgroundSyncService.mkTally 0 0 []) Hq1) as (w2 & -> & Hsame).
    unfold BackgroundSyncService.batchSize. rewrite concat_batches by lia.
    cbn. rewrite !Z.add_0_l. eexists. split; [reflexivity | by repeat split].
Qed.

Lemma performSync_report_witness :
  exists w',
    BackgroundSyncService.performSync false no_user 1000 two_pending
    = (Ok (SyncResult.mk false 1 1
             ["Operación 1700000000000_k3j9x2m1q: No hay usuario autenticado"]), w')
    /\ BackgroundSyncService.errors (BackgroundSyncService.fields w')
       = ["Operación 1700000000000_k3j9x2m1q: No hay usuario autenticado"]
    /\ BackgroundSyncService.lastSyncTime (BackgroundSyncService.fields w') = Some 1000
    /\ BackgroundSyncService.syncInProgress (BackgroundSyncService.fields w') = false.
Proof.
  apply (performSync_report two_pending [rename_ana; new_report] false no_user 1000).
  - vm_compute. reflexivity.
  - reflexivity.
Defined.

(** X9. [performSync] never throws, whatever the queue holds (also a queue
    that cannot be spread) and whatever the backend does.  When a drain is
    in progress and the call is not forced it returns the refusal and
    changes nothing, not even the [errors]; in every other case the
    service is idle when it returns, so that a later call is never
    refused for this one. *)
Theorem performSync_never_throws (w : BackgroundSyncService.World) (force : bool)
    (b : Backend) (now : Z) :
  exists r w',
    BackgroundSyncService.performSync force b now w = (Ok r, w')
    /\ if BackgroundSyncService.syncInProgress (BackgroundSyncService.fields w) && negb force
       then w' = w /\ r = SyncResult.mk false 0 0 ["Sincronización ya en progreso"]
       else BackgroundSyncService.syncInProgress (BackgroundSyncService.fields w') = false.
Proof.
  unfold BackgroundSyncService.performSync. rewrite bind_unfold. cbn [get].
  destruct (BackgroundSyncService.syncInProgress (BackgroundSyncService.fields w)
            && negb force) eqn:Hguard.
  - eexists _, _. split; [reflexivity | by split].
  - rewrite bind_unfold.
    destruct (drainStarted_run now w) as (w1 & -> & _).
    rewrite try_finally_unfold, try_catch_unfold.
    destruct (BackgroundSyncService.drain b now w1) as [[r | e] w2].
    + destruct (drainEnded_run now w2) as (w' & -> & _ & Hidle & _).
      by exists r, w'.
    + unfold BackgroundSyncService.drainFailed, BackgroundSyncService.set_errors,
        BackgroundSyncService.update. cbn [bind ret get modify].
      match goal with |- context [BackgroundSyncService.drainEnded now ?s] =>
        destruct (drainEnded_run now s) as (w' & -> & _ & Hidle & _) end.
      eexists _, w'. split; [reflexivity | exact Hidle].
Qed.

(** X10. [getSyncMetrics] on a queue of operations: [totalOperations] is the
    number of the pending operations, [successRate] is 100 when nothing is
    pending and 0 as soon as something is, [averageSyncTime] is the period
    of the timer, and [lastErrors] are the last five of the [errors] that
    [getStatus] shows (all of them when they are five or fewer).  The
    service is left as it was. *)
Theorem getSyncMetrics_last_five (w : BackgroundSyncService.World)
    (ops : list QueuedOperation.t) (now : Z) :
  OfflineQueueService.queue w = Typed ops ->
  exists m,
    BackgroundSyncService.getSyncMetrics w = (Ok m, w)
    /\ SyncMetrics.totalOperations m = Z.of_nat (length ops)
    /\ SyncMetrics.successRate m = (if bool_decide (ops = []) then 100 else 0)
    /\ SyncMetrics.averageSyncTime m = 30000
    /\ (length (SyncMetrics.lastErrors m) <= 5)%nat
    /\ (exists older,
          SyncStatus.errors (BackgroundSyncService.getStatus now w)
          = older ++ SyncMetrics.lastErrors m
          /\ (length older
              = length (SyncStatus.errors (BackgroundSyncService.getStatus now w)) - 5)%nat).
Proof.
  intros Hq. unfold BackgroundSyncService.getSyncMetrics.
  rewrite bind_unfold, (getPendingOperations_typed w ops Hq).
  cbn [bind get ret]. eexists. split; [reflexivity | ].
  cbn [SyncMetrics.totalOperations SyncMetrics.successRate SyncMetrics.averageSyncTime
       SyncMetrics.lastErrors].
  split; [reflexivity | ]. split.
  { destruct ops; reflexivity. }
  split; [reflexivity | ].
  unfold BackgroundSyncService.lastErrors, BackgroundSyncService.getStatus,
    BackgroundSyncService.status_of. cbn [SyncStatus.errors].
  set (errs := BackgroundSyncService.errors (BackgroundSyncService.fields w)).
  split.
  - rewrite length_drop. lia.
  - exists (take (length errs - 5) errs). split.
    + by rewrite take_drop.
    + rewrite length_take. lia.
Qed.

Lemma getSyncMetrics_last_five_witness :
  exists m,
    BackgroundSyncService.getSyncMetrics six_failed = (Ok m, six_failed)
    /\ SyncMetrics.totalOperations m = Z.of_nat (length six_updates)
    /\ SyncMetrics.successRate m = (if bool_decide (six_updates = []) then 100 else 0)
    /\ SyncMetrics.averageSyncTime m = 30000
    /\ (length (SyncMetrics.lastErrors m) <= 5)%nat
    /\ (exists older,
          SyncStatus.errors (BackgroundSyncService.getStatus 2000 six_failed)
          = older ++ SyncMetrics.lastErrors m
          /\ (length older
              = length (SyncStatus.errors (BackgroundSyncService.getStatus 2000 six_failed))
                - 5)%nat).
Proof.
  apply (getSyncMetrics_last_five six_failed six_updates 2000).
  vm_compute. reflexivity.
Defined.

(** ** BackgroundSyncService: the timer and the connection *)

Section CoordinatorTimer.
Import OfflineQueueService BackgroundSyncService.

Lemma syncInterval_online (n : option Z) (now : Z) (bs : Fields) :
  syncInterval bs = Some timeout ->
  syncInterval (onOfflineStatus (OfflineStatus.mk true (Some now) n) bs) = Some timeout.
Proof.
  intros Hset. unfold onOfflineStatus. cbn [OfflineStatus.isOnline andb negb].
  destruct (positive_count _); [reflexivity | exact Hset].
Qed.

Lemma onOnline_run (b : Backend) (now : Z) (w : World) :
  onOnline onOfflineStatus b now w
  = processQueue onOfflineStatus b now
      (set_subscribers
         (onOfflineStatus
            (OfflineStatus.mk true (Some now) (length_or_undefined (queue w)))
            (subscribers w))
         (mkState (queue w) true (processingQueue w) (localStorage w) (subscribers w))).
Proof. reflexivity. Qed.

(** A drain while online leaves the timer set. *)
Lemma processQueue_keeps_timer (b : Backend) (now : Z) (w : World)
    (ops : list QueuedOperation.t) :
  queue w = Typed ops -> isOnline w = true ->
  syncInterval (fields w) = Some timeout ->
  exists w' ops',
    offlineQueue_processQueue b now w = (Ok tt, w')
    /\ syncInterval (fields w') = Some timeout
    /\ queue w' = Typed ops' /\ isOnline w' = true.
Proof.
  intros Hq Hon Hset. unfold offlineQueue_processQueue.
  destruct (negb (isOnline w) || processingQueue w
            || bool_decide (length_or_undefined (queue w) = Some 0)) eqn:Hguard.
  - rewrite processQueue_guarded by exact Hguard. by exists w, ops.
  - apply orb_false_iff in Hguard as [Hguard Hempty].
    apply orb_false_iff in Hguard as [_ Hidle].
    destruct (processQueue_typed onOfflineStatus b now w ops Hq) as (ls' & ->);
      [ | exact Hon | exact Hidle | ].
    + intros ->. rewrite Hq in Hempty. by rewrite bool_decide_eq_true_2 in Hempty.
    + eexists _, _. split; [reflexivity | ]. unfold fields. cbn [subscribers queue isOnline].
      split; [by apply syncInterval_online | by split].
Qed.

End CoordinatorTimer.

(** X11. The timer of the periodic synchronisation follows the connection,
    through the listener the coordinator subscribes to the queue.  The
    [offline] event stops it.  The [online] event that follows starts it
    again only when the queue holds an operation: after a loss of
    connection with nothing queued the periodic synchronisation stays off,
    until an operation is added, which starts it. *)
Theorem autoSync_follows_connection (w : BackgroundSyncService.World)
    (ops : list QueuedOperation.t) (b : Backend) (t1 t2 t3 : Z) :
  OfflineQueueService.queue w = Typed ops ->
  let offline := snd (OfflineQueueService.onOffline BackgroundSyncService.onOfflineStatus t1 w) in
  let back :=
    snd (OfflineQueueService.onOnline BackgroundSyncService.onOfflineStatus b t2 offline) in
  SyncStatus.isActive (BackgroundSyncService.getStatus t3 offline) = false
  /\ SyncStatus.isActive (BackgroundSyncService.getStatus t3 back) = bool_decide (ops <> [])
  /\ forall type data random,
       SyncStatus.isActive
         (BackgroundSyncService.getStatus t3
            (snd (OfflineQueueService.addToQueue BackgroundSyncService.onOfflineStatus
                    type data random b t3 back))) = true.
Proof.
  intros Hq offline back.
  assert (Hoff : BackgroundSyncService.syncInterval (BackgroundSyncService.fields offline)
                 = None) by reflexivity.
  assert (Hqoff : OfflineQueueService.queue offline = Typed ops) by exact Hq.
  split; [reflexivity | ].
  assert (Hback : SyncStatus.isActive (BackgroundSyncService.getStatus t3 back)
                  = bool_decide (ops <> [])
                  /\ OfflineQueueService.isOnline back = true
                  /\ exists ops', OfflineQueueService.queue back = Typed ops').
  { subst back. rewrite onOnline_run.
    match goal with |- context [OfflineQueueService.processQueue _ _ _ ?s] =>
      set (s1 := s) end.
    destruct ops as [ | op ops].
    - rewrite processQueue_empty by exact Hqoff. cbn [snd]. split; [ | split].
      + unfold BackgroundSyncService.getStatus, BackgroundSyncService.status_of.
        cbn [SyncStatus.isActive]. subst s1.
        unfold BackgroundSyncService.fields. cbn [OfflineQueueService.subscribers
          OfflineQueueService.set_subscribers].
        unfold OfflineQueueService.getStatus. cbn [OfflineQueueService.isOnline
          OfflineQueueService.queue]. rewrite Hqoff. reflexivity.
      + reflexivity.
      + by exists [].
    - assert (Hset : BackgroundSyncService.syncInterval (BackgroundSyncService.fields s1)
                     = Some BackgroundSyncService.timeout).
      { subst s1. unfold BackgroundSyncService.fields.
        cbn [OfflineQueueService.subscribers OfflineQueueService.set_subscribers].
        unfold OfflineQueueService.getStatus. cbn [OfflineQueueService.isOnline
          OfflineQueueService.queue]. rewrite Hqoff. reflexivity. }
      destruct (processQueue_keeps_timer b t2 s1 (op :: ops) Hqoff eq_refl Hset)
        as (w' & ops' & Hrun & Hset' & Hq' & Hon').
      unfold BackgroundSyncService.offlineQueue_processQueue in Hrun. rewrite Hrun.
      cbn [snd]. split; [ | split; [exact Hon' | by exists ops']].
      unfold BackgroundSyncService.getStatus, BackgroundSyncService.status_of.
      cbn [SyncStatus.isActive]. rewrite Hset'. reflexivity. }
  destruct Hback as (Hactive & Hon & ops' & Hq').
  split; [exact Hactive | ].
  intros type data random.
  unfold OfflineQueueService.addToQueue, OfflineQueueService.set_queue.
  cbn [bind ret gets modify use]. rewrite Hq'. cbn [bind ret use modify].
  rewrite bind_unfold.
  match goal with |- context [OfflineQueueService.saveQueueToStorage ?s] =>
    destruct (saveQueueToStorage_ok s) as (ls' & ->) end.
  unfold OfflineQueueService.notifyListeners. cbn [bind ret get modify].
  match goal with |- context [if OfflineQueueService.isOnline ?s then _ else _] =>
    set (s1 := s) end.
  change (OfflineQueueService.isOnline s1) with (OfflineQueueService.isOnline back).
  rewrite Hon, bind_unfold.
  assert (Hset : BackgroundSyncService.syncInterval (BackgroundSyncService.fields s1)
                 = Some BackgroundSyncService.timeout).
  { subst s1. unfold BackgroundSyncService.fields, OfflineQueueService.getStatus,
      OfflineQueueService.set_localStorage, OfflineQueueService.set_subscribers.
    cbn [OfflineQueueService.subscribers OfflineQueueService.isOnline
         OfflineQueueService.queue OfflineQueueService.length_or_undefined].
    unfold BackgroundSyncService.onOfflineStatus.
    cbn [OfflineStatus.isOnline OfflineStatus.queuedOperations
         BackgroundSyncService.positive_count andb].
    rewrite length_app, Nat.add_1_r.
    assert (Hpos : (Z.of_nat (S (length ops')) >? 0) = true) by (apply Z.gtb_lt; lia).
    rewrite Hon, Hpos. reflexivity. }
  destruct (processQueue_keeps_timer b t3 s1 _ eq_refl Hon Hset)
    as (w' & ops'' & Hrun & Hset' & _).
  unfold BackgroundSyncService.offlineQueue_processQueue in Hrun. rewrite Hrun.
  unfold ret. cbn [snd].
  unfold BackgroundSyncService.getStatus, BackgroundSyncService.status_of.
  cbn [SyncStatus.isActive]. rewrite Hset'. reflexivity.
Qed.

Lemma autoSync_follows_connection_witness :
  SyncStatus.isActive
    (BackgroundSyncService.getStatus 3000
       (snd (OfflineQueueService.onOffline BackgroundSyncService.onOfflineStatus 1000
               (started_with [])))) = false
  /\ SyncStatus.isActive
       (BackgroundSyncService.getStatus 3000
          (snd (OfflineQueueService.onOnline BackgroundSyncService.onOfflineStatus signed_in
                  2000
                  (snd (OfflineQueueService.onOffline BackgroundSyncService.onOfflineStatus
                          1000 (started_with [])))))) = false.
Proof.
  destruct (autoSync_follows_connection (started_with []) [] signed_in 1000 2000 3000)
    as (Hoff & Hback & _).
  - vm_compute. reflexivity.
  - split; [exact Hoff | exact Hback].
Defined.

Section Constructors.
Context {L : Type}.
Import OfflineQueueService.

(** Loading the queue never throws, and touches the queue only. *)
Lemma loadQueueFromStorage_total (st : State L) :
  exists q,
    loadQueueFromStorage st
    = (Ok tt, mkState q (isOnline st) (processingQueue st) (localStorage st) (subscribers st)).
Proof.
  unfold loadQueueFromStorage. rewrite try_catch_unfold, bind_unfold.
  unfold zoom, getItem, set_queue, set_localStorage.
  destruct (readFault (localStorage st)); [eexists; reflexivity | ].
  destruct (truthy_text (items (localStorage st) !! STORAGE_KEY)) as [text | ].
  - unfold JSON_parse. destruct (JSON.parse text) as [j | ]; cbn [bind ret throw modify].
    + unfold queue_length. destruct (revive j) as [ops | []];
        cbn [bind ret throw modify]; eexists; reflexivity.
    + eexists. reflexivity.
  - cbn [ret]. exists (queue st). by destruct st.
Qed.

End Constructors.

(** X12. Making the queue never throws, whatever the store holds (nothing,
    a text that is not JSON, JSON of any shape) and also when the store
    cannot be read; it writes nothing to the store and notifies nobody, and
    the service starts with no drain running, online or not as the browser
    says.  The queue it starts with is empty when the store cannot be
    read.  When the snapshot is a text that the reader reads as
    [JSON.parse] does, the queue is the value of that text as it is, a
    list of operations or not (an object, a number, a text); only [null],
    whose [length] cannot be read, is replaced by the empty queue.  (An
    object with a member [length] is left out: the constructor writes the
    length into a message, and that conversion may throw.) *)
Theorem queue_starts_on_any_store {L : Type} (navigator_onLine : bool) (ls : LocalStorage)
    (subs : L) :
  exists q,
    OfflineQueueService.new navigator_onLine ls subs
    = (Ok tt, OfflineQueueService.mkState q navigator_onLine false ls subs)
    /\ (readFault ls = true -> q = Typed [])
    /\ (forall text j,
          readFault ls = false ->
          items ls !! OfflineQueueService.STORAGE_KEY = Some text ->
          JSON.faithful text = true ->
          JSON.parse text = Some j ->
          JSON.field "length" j = None ->
          q = match j with JNull => Typed [] | _ => revive j end).
Proof.
  unfold OfflineQueueService.new, OfflineQueueService.loadQueueFromStorage.
  rewrite try_catch_unfold, bind_unfold.
  unfold zoom, getItem, OfflineQueueService.set_queue, OfflineQueueService.set_localStorage.
  cbn [OfflineQueueService.localStorage].
  destruct (readFault ls) eqn:Hread.
  { eexists. split; [reflexivity | ]. split; [reflexivity | discriminate]. }
  cbn [OfflineQueueService.queue OfflineQueueService.isOnline
       OfflineQueueService.processingQueue OfflineQueueService.subscribers].
  destruct (items ls !! OfflineQueueService.STORAGE_KEY) as [text | ] eqn:Htext.
  2:{ cbn [truthy_text ret]. eexists. split; [reflexivity | ].
      split; [discriminate | ]. intros ? ? _ [=]. }
  destruct text as [ | c text].
  { cbn [truthy_text ret]. eexists. split; [reflexivity | ].
    split; [discriminate | ]. intros text j _ [= <-] _ [=]. }
  cbn [truthy_text]. unfold JSON_parse.
  destruct (JSON.parse (String c text)) as [j | ] eqn:Hparse; cbn [bind ret throw modify].
  2:{ eexists. split; [reflexivity | ].
      split; [discriminate | ]. intros text' j' _ [= <-]. congruence. }
  unfold OfflineQueueService.queue_length.
  destruct (revive (T := list QueuedOperation.t) j) as [ops | j0] eqn:Hrevive.
  - cbn [bind ret throw modify]. eexists. split; [reflexivity | ].
    split; [discriminate | ]. intros text' j' _ [= <-] _ Hj' _.
    rewrite Hparse in Hj'. injection Hj' as <-. rewrite Hrevive.
    destruct j; try reflexivity. discriminate Hrevive.
  - assert (Hj0 : j0 = j).
    { unfold revive in Hrevive. destruct (of_json j); congruence. }
    subst j0. destruct j; cbn [bind ret throw modify];
      (eexists; split; [reflexivity | ]; split; [discriminate | ];
       intros text' j' _ [= <-] _ Hj' _; rewrite Hparse in Hj'; injection Hj' as <-;
       try rewrite Hrevive; reflexivity).
Qed.

(** ** CacheService: trimming the tables *)

Section Ascending.
Context {A : Type} (compare : A -> A -> Z) (measure : A -> Z).
Hypothesis compare_measure : forall a b, compare a b = measure a - measure b.

Lemma insert_sorted_ascending (x : A) (l : list A) :
  ascending measure l -> ascending measure (insert_sorted compare x l).
Proof.
  induction l as [ | y l IH]; intros Hl.
  - simpl. split; [constructor | exact I].
  - destruct Hl as [Hy Hl]. cbn [insert_sorted]. rewrite compare_measure.
    destruct (Z.leb_spec (measure x - measure y) 0) as [Hle | Hgt].
    + split; [ | by split]. constructor; [lia | ].
      eapply Forall_impl; [exact Hy | ]. simpl. intros z Hz. lia.
    + split; [ | by apply IH].
      rewrite (insert_sorted_perm compare x l). constructor; [lia | exact Hy].
Qed.

Lemma sort_ascending (l : list A) : ascending measure (sort compare l).
Proof.
  unfold sort. induction l as [ | x l IH]; [exact I | ].
  simpl. by apply insert_sorted_ascending.
Qed.

Lemma ascending_take_drop (l : list A) :
  ascending measure l ->
  forall n a b, a ∈ take n l -> b ∈ drop n l -> measure a <= measure b.
Proof.
  induction l as [ | x l IH]; intros Hl n a b Ha Hb.
  - rewrite take_nil in Ha. by apply elem_of_nil in Ha.
  - destruct Hl as [Hx Hl]. destruct n as [ | n].
    + by apply elem_of_nil in Ha.
    + cbn [take drop] in *. apply elem_of_cons in Ha as [-> | Ha].
      * rewrite Forall_forall in Hx. apply Hx.
        apply (subseteq_drop n l). exact Hb.
      * by apply (IH Hl n).
Qed.

End Ascending.

Section Trimming.
Context {T : Type}.

Lemma foldl_delete_filter (victims : list (string * T)) :
  forall cache : Table T,
    foldl (fun cache kv => table_delete (fst kv) cache) cache victims
    = List.filter (fun kv => bool_decide (fst kv ∉ keys victims)) cache.
Proof.
  induction victims as [ | [k v] victims IH]; intros cache.
  - simpl. induction cache as [ | kv cache IHc]; [reflexivity | ].
    simpl. by rewrite <- IHc.
  - cbn [foldl fst]. rewrite IH. unfold table_delete. clear.
    induction cache as [ | [k' v'] cache IHc]; [reflexivity | ].
    cbn [List.filter fst]. destruct (String.eqb_spec k' k) as [-> | Hne].
    + cbn [negb]. rewrite IHc. rewrite (bool_decide_eq_false_2 (k ∉ keys ((k, v) :: victims))).
      * reflexivity.
      * intros Hnot. apply Hnot. left.
    + cbn [negb List.filter fst]. rewrite IHc.
      replace (bool_decide (k' ∉ keys ((k, v) :: victims)))
        with (bool_decide (k' ∉ keys victims)); [reflexivity | ].
      apply bool_decide_ext. simpl. rewrite not_elem_of_cons. tauto.
Qed.

Lemma filter_sublist_of (P : string * T -> bool) (l : Table T) :
  sublist (List.filter P l) l.
Proof.
  induction l as [ | x l IH]; [constructor | ].
  cbn [List.filter]. destruct (P x); by constructor.
Qed.

Lemma elem_of_List_filter (P : string * T -> bool) (l : Table T) (x : string * T) :
  x ∈ List.filter P l <-> x ∈ l /\ P x = true.
Proof. by rewrite !list_elem_of_In, filter_In. Qed.

Lemma keys_unique (t : Table T) (k : string) (v v' : T) :
  NoDup (keys t) -> (k, v) ∈ t -> (k, v') ∈ t -> v = v'.
Proof.
  unfold keys. induction t as [ | [k0 v0] t IH]; intros Hnodup Hv Hv'.
  - by apply elem_of_nil in Hv.
  - simpl in Hnodup. apply NoDup_cons in Hnodup as [Hfresh Hnodup].
    apply elem_of_cons in Hv as [Hv | Hv]; apply elem_of_cons in Hv' as [Hv' | Hv'].
    + congruence.
    + exfalso. apply Hfresh. injection Hv as <- _.
      by apply (list_elem_of_fmap_2 fst) in Hv'.
    + exfalso. apply Hfresh. injection Hv' as <- _.
      by apply (list_elem_of_fmap_2 fst) in Hv.
    + by apply IH.
Qed.

End Trimming.

(** X13. [limitCacheSize], for a table of any length with keys of its own:
    what it leaves has as many entries as the table or as the bound,
    whichever is less; the entries it keeps are in the order they had; and
    no entry it drops is newer than an entry it keeps. *)
Theorem limitCacheSize_keeps_newest {T : Type} `{Timestamped T} (cache : Table T)
    (maxSize : Z) :
  NoDup (keys cache) -> 0 <= maxSize ->
  Z.of_nat (length (CacheService.limitCacheSize cache maxSize))
  = Z.min (Z.of_nat (length cache)) maxSize
  /\ sublist (CacheService.limitCacheSize cache maxSize) cache
  /\ forall gone kept,
       gone ∈ cache -> gone ∉ CacheService.limitCacheSize cache maxSize ->
       kept ∈ CacheService.limitCacheSize cache maxSize ->
       timestamp_of (snd gone) <= timestamp_of (snd kept).
Proof.
  intros Hnodup Hmax. unfold CacheService.limitCacheSize.
  destruct (Z.gtb_spec (Z.of_nat (length cache)) maxSize) as [Hgt | Hle].
  2:{ split; [lia | ]. split; [reflexivity | ]. intros gone kept Hin Hout. by destruct Hout. }
  fold (@by_timestamp T _).
  set (n := Z.to_nat (Z.of_nat (length cache) - maxSize)).
  set (sorted := sort by_timestamp cache).
  assert (Hperm : sorted ≡ₚ cache) by apply sort_perm.
  assert (Hkeys : keys sorted ≡ₚ keys cache) by (unfold keys; by rewrite Hperm).
  assert (Hvictims : NoDup (keys (take n sorted))).
  { unfold keys. rewrite <- firstn_map. fold (keys sorted).
    apply (sublist_NoDup _ (keys sorted)); [by rewrite Hkeys | apply sublist_take]. }
  assert (Hin_sorted : forall kv, kv ∈ take n sorted -> kv ∈ cache).
  { intros kv Hkv. rewrite <- Hperm. apply elem_of_take in Hkv as (i & Hi & _).
    by eapply list_elem_of_lookup_2. }
  assert (Hsub : keys (take n sorted) ⊆ keys cache).
  { intros k Hk. unfold keys in *. apply list_elem_of_fmap in Hk as (kv & -> & Hkv).
    apply list_elem_of_fmap_2. by apply Hin_sorted. }
  pose proof (length_delete_all (take n sorted) cache Hnodup Hvictims Hsub) as Hlen.
  rewrite length_take, (Permutation_length Hperm) in Hlen.
  split; [subst n; lia | ].
  rewrite foldl_delete_filter. split; [apply filter_sublist_of | ].
  intros gone kept Hgone Hdropped Hkept.
  apply elem_of_List_filter in Hkept as [Hkept_in Hkept_key].
  apply bool_decide_eq_true_1 in Hkept_key.
  assert (Hgone_key : fst gone ∈ keys (take n sorted)).
  { destruct (decide (fst gone ∈ keys (take n sorted))) as [Hyes | Hno]; [exact Hyes | ].
    exfalso. apply Hdropped. apply elem_of_List_filter. split; [exact Hgone | ].
    by apply bool_decide_eq_true_2. }
  unfold keys in Hgone_key. apply list_elem_of_fmap in Hgone_key as ([k v] & Hk & Hv).
  simpl in Hk. destruct gone as [gk gv]. simpl in Hk. subst k.
  assert (v = gv) as -> by (eapply (keys_unique cache gk); eauto).
  assert (Hkept_drop : kept ∈ drop n sorted).
  { assert (Hs : kept ∈ sorted) by (by rewrite Hperm).
    rewrite <- (take_drop n sorted) in Hs. apply elem_of_app in Hs as [Htake | Hdrop];
      [ | exact Hdrop].
    exfalso. apply Hkept_key. unfold keys. by apply list_elem_of_fmap_2. }
  apply (ascending_take_drop (fun kv : string * T => timestamp_of (snd kv)) sorted
           (sort_ascending by_timestamp _ by_timestamp_measure cache) n _ _ Hv Hkept_drop).
Qed.

Lemma limitCacheSize_keeps_newest_witness :
  Z.of_nat (length (CacheService.limitCacheSize three_entries 1))
  = Z.min (Z.of_nat (length three_entries)) 1
  /\ sublist (CacheService.limitCacheSize three_entries 1) three_entries
  /\ forall gone kept,
       gone ∈ three_entries -> gone ∉ CacheService.limitCacheSize three_entries 1 ->
       kept ∈ CacheService.limitCacheSize three_entries 1 ->
       timestamp_of (snd gone) <= timestamp_of (snd kept).
Proof.
  apply (limitCacheSize_keeps_newest three_entries 1).
  - apply (bool_decide_unpack _). vm_compute. exact I.
  - lia.
Defined.

Section ImageEviction.
Import CacheService.

Lemma table_delete_sublist {T} (key : string) (t : Table T) : sublist (table_delete key t) t.
Proof. unfold table_delete. apply filter_sublist_of. Qed.

(** The loop of [limitImageCacheSize] stops at the first point where the
    entries left fit, and deletes from IndexedDB what it drops. *)
Lemma evictOldest_until_fit (rest : list ImageCacheEntry.t) :
  forall (cache : Table ImageCacheEntry.t) (st : State),
    NoDup (keys cache) -> keyed_by_url cache -> map snd cache ≡ₚ rest ->
    exists cache' st' evicted,
      evictOldest rest (sum_sizes rest) (Z.of_nat (length rest)) cache st = (Ok cache', st')
      /\ fits (drop evicted rest)
      /\ (forall k, (k < evicted)%nat -> ~ fits (drop k rest))
      /\ map snd cache' ≡ₚ drop evicted rest
      /\ sublist cache' cache
      /\ localStorage st' = localStorage st
      /\ openFault (indexedDB st') = openFault (indexedDB st)
      /\ (openFault (indexedDB st) = false ->
          images (indexedDB st')
          = foldl (fun m e => delete (ImageCacheEntry.url e) m) (images (indexedDB st))
              (take evicted rest)).
Proof.
  induction rest as [ | entry rest IH]; intros cache st Hnodup Hkeyed Hperm.
  - apply Permutation_nil_r in Hperm. destruct cache; [ | discriminate].
    exists [], st, 0%nat. split; [reflexivity | ]. split; [by split | ].
    split; [intros k Hk; lia | ]. by repeat split.
  - cbn [evictOldest].
    destruct ((sum_sizes (entry :: rest) <=? IMAGES_CONFIG.maxSize)
              && (Z.of_nat (length (entry :: rest)) <=? IMAGES_CONFIG.maxEntries)) eqn:Hfits.
    + apply andb_true_iff in Hfits as [Hsize Hcount].
      apply Z.leb_le in Hsize, Hcount.
      exists cache, st, 0%nat. split; [reflexivity | ]. split; [by split | ].
      split; [intros k Hk; lia | ]. by repeat split.
    + assert (Hin : (ImageCacheEntry.url entry, entry) ∈ cache).
      { assert (He : entry ∈ map snd cache) by (rewrite Hperm; left).
        apply list_elem_of_fmap in He as ([k e] & -> & Hke).
        unfold keyed_by_url in Hkeyed. rewrite Forall_forall in Hkeyed.
        by rewrite (Hkeyed _ Hke). }
      pose proof (table_delete_perm _ _ cache Hnodup Hin) as Hsplit.
      assert (Hperm' : map snd (table_delete (ImageCacheEntry.url entry) cache) ≡ₚ rest).
      { apply (Permutation_cons_inv (a := entry)). rewrite <- Hperm.
        by rewrite Hsplit at 2. }
      rewrite bind_unfold. unfold deleteImageFromIndexedDB at 1. unfold modify.
      set (st1 := if openFault (indexedDB st) then st else _).
      assert (Hst1 : localStorage st1 = localStorage st
                     /\ openFault (indexedDB st1) = openFault (indexedDB st)
                     /\ (openFault (indexedDB st) = false ->
                         images (indexedDB st1)
                         = delete (ImageCacheEntry.url entry) (images (indexedDB st)))).
      { subst st1. destruct (openFault (indexedDB st)) eqn:Hopen; by repeat split. }
      destruct Hst1 as (Hls1 & Hopen1 & Himages1).
      replace (sum_sizes (entry :: rest) - ImageCacheEntry.size entry)
        with (sum_sizes rest) by (simpl; lia).
      replace (Z.of_nat (length (entry :: rest)) - 1)
        with (Z.of_nat (length rest)) by (simpl; lia).
      destruct (IH (table_delete (ImageCacheEntry.url entry) cache) st1)
        as (cache' & st' & evicted & Hrun & Hfit & Hleast & Hrest & Hsub & Hls' & Hopen'
            & Himages');
        [by apply NoDup_keys_table_delete | by apply keyed_by_url_delete | exact Hperm' | ].
      exists cache', st', (S evicted). rewrite Hrun.
      split; [reflexivity | ]. split; [exact Hfit | ]. split.
      { intros [ | k] Hk.
        - intros [Hsize Hcount]. cbn [drop] in *.
          apply andb_false_iff in Hfits as [Hno | Hno];
            [apply Z.leb_gt in Hno | apply Z.leb_gt in Hno]; lia.
        - cbn [drop]. apply Hleast. lia. }
      split; [exact Hrest | ]. split.
      { etrans; [exact Hsub | apply table_delete_sublist]. }
      split; [congruence | ]. split; [congruence | ].
      intros Hopen. cbn [take foldl]. rewrite <- Himages1 by exact Hopen.
      apply Himages'. congruence.
Qed.

Lemma lookup_foldl_delete (gone : list ImageCacheEntry.t) :
  forall (m : gmap string ImageCacheEntry.t) (e : ImageCacheEntry.t),
    e ∈ gone ->
    foldl (fun m e => delete (ImageCacheEntry.url e) m) m gone !! ImageCacheEntry.url e = None.
Proof.
  induction gone as [ | x gone IH]; intros m e He.
  - by apply elem_of_nil in He.
  - cbn [foldl]. apply elem_of_cons in He as [-> | He]; [ | by apply IH].
    clear IH. revert m. induction gone as [ | y gone IH]; intros m.
    + apply lookup_delete_eq.
    + cbn [foldl]. rewrite delete_delete. apply IH.
Qed.

End ImageEviction.

(** X14. [limitImageCacheSize], on a table whose entries are under their
    own address: it drops the entries in the order of their timestamps, the
    oldest first, and stops as soon as what is left fits the two bounds (50
    MB and 100 entries), not before and not after.  What it keeps is in the
    order it was and within the bounds, no entry dropped is newer than an
    entry kept, each entry dropped is deleted from IndexedDB, and
    [localStorage] is not written. *)
Theorem limitImageCacheSize_evicts_until_fit (cache : Table ImageCacheEntry.t)
    (st : CacheService.State) :
  NoDup (keys cache) -> keyed_by_url cache ->
  exists cache' st' evicted,
    CacheService.limitImageCacheSize cache st = (Ok cache', st')
    /\ within_budget cache'
    /\ map snd cache' ≡ₚ drop evicted (sort oldest_first (map snd cache))
    /\ (forall k, (k < evicted)%nat -> ~ fits (drop k (sort oldest_first (map snd cache))))
    /\ sublist cache' cache
    /\ (forall gone kept,
          gone ∈ take evicted (sort oldest_first (map snd cache)) -> kept ∈ map snd cache' ->
          ImageCacheEntry.timestamp gone <= ImageCacheEntry.timestamp kept)
    /\ CacheService.localStorage st' = CacheService.localStorage st
    /\ (openFault (CacheService.indexedDB st) = false ->
        forall gone,
          gone ∈ take evicted (sort oldest_first (map snd cache)) ->
          images (CacheService.indexedDB st') !! ImageCacheEntry.url gone = None).
Proof.
  intros Hnodup Hkeyed. unfold CacheService.limitImageCacheSize.
  rewrite foldl_sum_sizes, Z.add_0_l.
  pose proof (sort_perm oldest_first (map snd cache)) as Hsorted.
  destruct ((sum_sizes (map snd cache) >? CacheService.IMAGES_CONFIG.maxSize)
            || (Z.of_nat (length (map snd cache)) >? CacheService.IMAGES_CONFIG.maxEntries))
    eqn:Hover.
  - rewrite <- (sum_sizes_perm _ _ Hsorted), <- (Permutation_length Hsorted).
    destruct (evictOldest_until_fit (sort oldest_first (map snd cache)) cache st
                Hnodup Hkeyed) as (cache' & st' & evicted & Hrun & Hfit & Hleast & Hrest
                                   & Hsub & Hls & _ & Himages); [by symmetry | ].
    exists cache', st', evicted. split; [exact Hrun | ].
    split.
    { destruct Hfit as [Hsize Hcount]. split.
      - by rewrite (sum_sizes_perm _ _ Hrest).
      - by rewrite <- (length_map snd), (Permutation_length Hrest). }
    split; [exact Hrest | ]. split; [exact Hleast | ]. split; [exact Hsub | ].
    split; [ | split; [exact Hls | ]].
    + intros gone kept Hgone Hkept. rewrite Hrest in Hkept.
      apply (ascending_take_drop ImageCacheEntry.timestamp _
               (sort_ascending oldest_first ImageCacheEntry.timestamp
                  (fun a b => eq_refl) (map snd cache)) evicted _ _ Hgone Hkept).
    + intros Hopen gone Hgone. rewrite (Himages Hopen). by apply lookup_foldl_delete.
  - apply orb_false_iff in Hover as [Hsize Hcount].
    exists cache, st, 0%nat. split; [reflexivity | ]. split.
    { split; [lia | ]. rewrite length_map in Hcount. lia. }
    split; [by symmetry | ]. split; [intros k Hk; lia | ]. split; [reflexivity | ].
    split; [ | split; [reflexivity | ]].
    + intros gone kept Hgone. by apply elem_of_nil in Hgone.
    + intros _ gone Hgone. by apply elem_of_nil in Hgone.
Qed.

Lemma limitImageCacheSize_evicts_until_fit_witness :
  exists cache' st' evicted,
    CacheService.limitImageCacheSize two_images fresh_cache = (Ok cache', st')
    /\ within_budget cache'
    /\ map snd cache' ≡ₚ drop evicted (sort oldest_first (map snd two_images))
    /\ (forall k, (k < evicted)%nat -> ~ fits (drop k (sort oldest_first (map snd two_images))))
    /\ sublist cache' two_images
    /\ (forall gone kept,
          gone ∈ take evicted (sort oldest_first (map snd two_images)) ->
          kept ∈ map snd cache' ->
          ImageCacheEntry.timestamp gone <= ImageCacheEntry.timestamp kept)
    /\ CacheService.localStorage st' = CacheService.localStorage fresh_cache
    /\ (openFault (CacheService.indexedDB fresh_cache) = false ->
        forall gone,
          gone ∈ take evicted (sort oldest_first (map snd two_images)) ->
          images (CacheService.indexedDB st') !! ImageCacheEntry.url gone = None).
Proof.
  apply (limitImageCacheSize_evicts_until_fit two_images fresh_cache).
  - apply (bool_decide_unpack _). vm_compute. exact I.
  - repeat constructor.
Defined.

(** ** CacheService: writing, reading and invalidating *)

Section CacheRoundTrip.
Import CacheService.

Lemma limitCacheSize_within {T} `{Timestamped T} (cache : Table T) (maxSize : Z) :
  Z.of_nat (length cache) <= maxSize -> limitCacheSize cache maxSize = cache.
Proof.
  intros Hfits. unfold limitCacheSize.
  destruct (Z.gtb_spec (Z.of_nat (length cache)) maxSize); [lia | reflexivity].
Qed.

Lemma assoc_table_set {T} (key key' : string) (value : T) (t : Table T) :
  assoc key' (table_set key value t)
  = if String.eqb key key' then Some value else assoc key' t.
Proof.
  induction t as [ | [k v] t IH]; cbn [table_set assoc].
  - reflexivity.
  - destruct (String.eqb_spec k key) as [-> | Hne]; cbn [assoc].
    + by destruct (String.eqb key key').
    + rewrite IH. destruct (String.eqb_spec k key') as [-> | Hne'].
      * destruct (String.eqb_spec key key'); [congruence | reflexivity].
      * reflexivity.
Qed.

Lemma view_table_set {T} (view : T -> StoredEntry) (key : string) (value : T) (t : Table T) :
  view_table view (table_set key value t) = table_set key (view value) (view_table view t).
Proof.
  unfold view_table. induction t as [ | [k v] t IH]; [reflexivity | ].
  cbn [table_set map fst snd]. destruct (String.eqb k key); cbn [map fst snd]; by rewrite ?IH.
Qed.

Lemma posts_put_get (key : string) (posts : list Json) (now later : Z) (st : State)
    (t : Table CacheEntry.t) :
  table_in POSTS_CACHE_KEY st = Some t ->
  healthy (localStorage st) ->
  Z.of_nat (length (table_set key
                      (CacheEntry.mk posts now (now + maxAge POSTS_CONFIG)
                         (version POSTS_CONFIG)) t)) <= maxSize POSTS_CONFIG ->
  exists st',
    cachePosts posts key now st = (Ok tt, st')
    /\ table_in POSTS_CACHE_KEY st'
       = Some (table_set key
                 (CacheEntry.mk posts now (now + maxAge POSTS_CONFIG) (version POSTS_CONFIG)) t)
    /\ getCachedPosts key later st'
       = (Ok (if later >? now + maxAge POSTS_CONFIG then None else Some posts),
          if later >? now + maxAge POSTS_CONFIG
          then snd (localStorage_setItem POSTS_CACHE_KEY
                      (JSON.stringify (to_json (table_delete key t))) st')
          else st').
Proof.
  intros Ht [Hread Hwrite] Hfits.
  destruct (cachePosts_run posts key now st t Ht Hread Hwrite) as (st' & Hrun & Ht').
  rewrite limitCacheSize_within in Ht' by exact Hfits.
  exists st'. split; [exact Hrun | ]. split; [exact Ht' | ].
  unfold getCachedPosts, getPostsCache.
  rewrite try_catch_unfold, bind_unfold, (getCache_typed _ _ _ Ht').
  cbn [use bind ret]. rewrite assoc_table_set, String.eqb_refl.
  cbn [CacheEntry.expiresAt CacheEntry.version CacheEntry.data].
  destruct (later >? now + maxAge POSTS_CONFIG); [ | reflexivity].
  rewrite bind_unfold.
  assert (Hdel : table_delete key
                   (table_set key
                      (CacheEntry.mk posts now (now + maxAge POSTS_CONFIG)
                         (version POSTS_CONFIG)) t) = table_delete key t).
  { clear. unfold table_delete. induction t as [ | [k v] t IH].
    - cbn. by rewrite String.eqb_refl.
    - cbn [table_set]. destruct (String.eqb_spec k key) as [-> | Hne].
      + cbn. by rewrite String.eqb_refl.
      + cbn [List.filter fst]. by rewrite IH. }
  rewrite Hdel.
  destruct (localStorage_setItem POSTS_CACHE_KEY
              (JSON.stringify (to_json (table_delete key t))) st') as [[[] | e] st''];
    reflexivity.
Qed.

Lemma queries_put_get (key : string) (posts : list Json) (bounds : option Json)
    (now later : Z) (st : State) (t : Table QueryCache.t) :
  table_in QUERIES_CACHE_KEY st = Some t ->
  healthy (localStorage st) ->
  Z.of_nat (length (table_set key
                      (QueryCache.mk key posts bounds now (now + maxAge QUERIES_CONFIG)) t))
  <= maxSize QUERIES_CONFIG ->
  exists st',
    cacheQuery key posts bounds now st = (Ok tt, st')
    /\ table_in QUERIES_CACHE_KEY st'
       = Some (table_set key
                 (QueryCache.mk key posts bounds now (now + maxAge QUERIES_CONFIG)) t)
    /\ exists st'',
         getCachedQuery key later st'
         = (Ok (if later >? now + maxAge QUERIES_CONFIG then None else Some posts), st'').
Proof.
  intros Ht [Hread Hwrite] Hfits.
  destruct (cacheQuery_run key posts bounds now st t Ht Hread Hwrite) as (st' & Hrun & Ht').
  rewrite limitCacheSize_within in Ht' by exact Hfits.
  exists st'. split; [exact Hrun | ]. split; [exact Ht' | ].
  unfold getCachedQuery, getQueriesCache.
  rewrite try_catch_unfold, bind_unfold, (getCache_typed _ _ _ Ht').
  cbn [use bind ret]. rewrite assoc_table_set, String.eqb_refl.
  cbn [QueryCache.expiresAt QueryCache.posts].
  destruct (later >? now + maxAge QUERIES_CONFIG); [ | by eexists].
  rewrite bind_unfold.
  match goal with |- context [localStorage_setItem ?k ?v st'] =>
    destruct (localStorage_setItem k v st') as [[[] | e] st''] end; by eexists.
Qed.

End CacheRoundTrip.

(** X15. Writing then reading.  On a store that takes every call and whose
    table is read as it was stored, when the table with the new entry is
    within the bound of the namespace, a writer of the cache puts the
    entry under its key, in the place of the entry that was there or after
    the others, and leaves the other entries as they were; the reader then
    returns what was written, at any time up to [maxAge] after the write
    (two minutes for the posts, one for the queries), that instant
    included, and [null] after it.  What was written is the JSON form of
    the posts, which is what [posts] stands for: a date of a post comes
    back as the text [JSON.stringify] made of it. *)
Theorem cache_put_then_get (ns : Namespace) (key : string) (posts : list Json)
    (now later : Z) (st : CacheService.State) (tbl : Table StoredEntry) :
  stored_entries ns st = Some tbl ->
  read_as_stored (storage_key ns) st = true ->
  healthy (CacheService.localStorage st) ->
  Z.of_nat (length (table_set (table_key ns key) (entry_put ns posts now) tbl))
  <= CacheService.maxSize (config_of ns) ->
  exists st',
    cache_put ns key posts now st = (Ok tt, st')
    /\ stored_entries ns st'
       = Some (table_set (table_key ns key) (entry_put ns posts now) tbl)
    /\ exists st'',
         cache_get ns key later st'
         = (Ok (if later >? now + CacheService.maxAge (config_of ns)
                then None else Some posts), st'').
Proof.
  intros Hstored _ Hhealthy Hfits. destruct ns; cbn [stored_entries] in Hstored.
  - destruct (table_in (T := CacheEntry.t) CacheService.POSTS_CACHE_KEY st)
      as [t | ] eqn:Ht; [ | discriminate].
    injection Hstored as <-.
    change (entry_put Posts posts now)
      with (view_entry (CacheEntry.mk posts now
                          (now + CacheService.maxAge CacheService.POSTS_CONFIG)
                          (CacheService.version CacheService.POSTS_CONFIG))) in *.
    rewrite <- view_table_set in *. rewrite length_view_table in Hfits.
    destruct (posts_put_get (table_key Posts key) posts now later st t Ht Hhealthy Hfits)
      as (st' & Hrun & Ht' & Hget).
    exists st'. split; [exact Hrun | ]. cbn [stored_entries]. rewrite Ht'.
    split; [reflexivity | ]. eexists. exact Hget.
  - destruct (table_in (T := CacheEntry.t) CacheService.POSTS_CACHE_KEY st)
      as [t | ] eqn:Ht; [ | discriminate].
    injection Hstored as <-.
    change (entry_put UserPosts posts now)
      with (view_entry (CacheEntry.mk posts now
                          (now + CacheService.maxAge CacheService.POSTS_CONFIG)
                          (CacheService.version CacheService.POSTS_CONFIG))) in *.
    rewrite <- view_table_set in *. rewrite length_view_table in Hfits.
    destruct (posts_put_get (table_key UserPosts key) posts now later st t Ht Hhealthy Hfits)
      as (st' & Hrun & Ht' & Hget).
    exists st'. split; [exact Hrun | ]. cbn [stored_entries]. rewrite Ht'.
    split; [reflexivity | ]. eexists. exact Hget.
  - destruct (table_in (T := QueryCache.t) CacheService.QUERIES_CACHE_KEY st)
      as [t | ] eqn:Ht; [ | discriminate].
    injection Hstored as <-.
    change (entry_put Queries posts now)
      with (view_query (QueryCache.mk (table_key Queries key) posts None now
                          (now + CacheService.maxAge CacheService.QUERIES_CONFIG))) in *.
    rewrite <- view_table_set in *. rewrite length_view_table in Hfits.
    destruct (queries_put_get (table_key Queries key) posts None now later st t Ht
                Hhealthy Hfits) as (st' & Hrun & Ht' & st'' & Hget).
    exists st'. split; [exact Hrun | ]. cbn [stored_entries]. rewrite Ht'.
    split; [reflexivity | ]. exists st''. exact Hget.
Qed.

Lemma cache_put_then_get_witness :
  exists st',
    cache_put UserPosts "u1" [JStr "post-3"] 5000 feed_cached = (Ok tt, st')
    /\ stored_entries UserPosts st'
       = Some (table_set (table_key UserPosts "u1") (entry_put UserPosts [JStr "post-3"] 5000)
                 [(CacheService.default_cacheKey,
                   mkStoredEntry [JStr "post-1"; JStr "post-2"] 1000 121000 (Some "1.0.0"))])
    /\ exists st'',
         cache_get UserPosts "u1" 125000 st'
         = (Ok (if 125000 >? 5000 + CacheService.maxAge (config_of UserPosts)
                then None else Some [JStr "post-3"]), st'').
Proof.
  apply (cache_put_then_get UserPosts "u1" [JStr "post-3"] 5000 125000 feed_cached
           [(CacheService.default_cacheKey,
             mkStoredEntry [JStr "post-1"; JStr "post-2"] 1000 121000 (Some "1.0.0"))]).
  - vm_compute. reflexivity.
  - vm_compute. reflexivity.
  - split; reflexivity.
  - vm_compute. discriminate.
Defined.

Section CacheStore.
Import CacheService.

Lemma localStorage_setItem_run (key value : string) (st : State) :
  localStorage_setItem key value st
  = if writeFault (localStorage st)
    then (Throw (mkExn "QuotaExceededError" "localStorage is full"), st)
    else (Ok tt,
          mkState (mkLocalStorage (<[key := value]> (items (localStorage st)))
                     (readFault (localStorage st)) (writeFault (localStorage st)))
            (indexedDB st)).
Proof.
  unfold localStorage_setItem, zoom, setItem.
  destruct (writeFault (localStorage st)); [by rewrite set_localStorage_same | reflexivity].
Qed.

Lemma localStorage_removeItem_run (key : string) (st : State) :
  localStorage_removeItem key st
  = if readFault (localStorage st)
    then (Throw (mkExn "SecurityError" "localStorage is not available"), st)
    else (Ok tt,
          mkState (mkLocalStorage (delete key (items (localStorage st)))
                     (readFault (localStorage st)) (writeFault (localStorage st)))
            (indexedDB st)).
Proof.
  unfold localStorage_removeItem, zoom, removeItem.
  destruct (readFault (localStorage st)); [by rewrite set_localStorage_same | reflexivity].
Qed.

(** What [getCache] returns depends on the text under its key and on
    whether the store can be read, and on nothing else. *)
Lemma getCache_frame {T} `{Encodable T} (storageKey : string) (st st' : State) :
  readFault (localStorage st') = readFault (localStorage st) ->
  items (localStorage st') !! storageKey = items (localStorage st) !! storageKey ->
  fst (getCache (T := T) storageKey st') = fst (getCache (T := T) storageKey st).
Proof.
  intros Hread Hitem. unfold getCache, JSON_parse.
  rewrite !try_catch_unfold, !bind_unfold, !localStorage_getItem_run, Hread, Hitem.
  destruct (readFault (localStorage st)); [reflexivity | ].
  destruct (truthy_text (items (localStorage st) !! storageKey)) as [text | ];
    [ | reflexivity].
  rewrite !bind_unfold. destruct (JSON.parse text); reflexivity.
Qed.

Lemma table_in_frame {T} `{Encodable T} (storageKey : string) (st st' : State) :
  readFault (localStorage st') = readFault (localStorage st) ->
  items (localStorage st') !! storageKey = items (localStorage st) !! storageKey ->
  table_in (T := T) storageKey st' = table_in (T := T) storageKey st.
Proof. intros Hread Hitem. unfold table_in. by rewrite (getCache_frame _ st st'). Qed.

Lemma table_in_absent {T} `{Encodable T} (storageKey : string) (st : State) :
  items (localStorage st) !! storageKey = None -> table_in (T := T) storageKey st = Some [].
Proof.
  intros Habsent. unfold table_in, getCache.
  rewrite try_catch_unfold, bind_unfold, localStorage_getItem_run, Habsent.
  by destruct (readFault (localStorage st)).
Qed.

Lemma table_in_text {T} `{EncodableLaw T} (storageKey : string) (st : State) (t : Table T) :
  items (localStorage st) !! storageKey = Some (JSON.stringify (to_json t)) ->
  table_in storageKey st = Some (if readFault (localStorage st) then [] else t).
Proof.
  intros Hitem. unfold table_in, getCache, JSON_parse.
  rewrite try_catch_unfold, bind_unfold, localStorage_getItem_run, Hitem.
  destruct (readFault (localStorage st)); [reflexivity | ].
  rewrite truthy_text_stringify, bind_unfold, parse_stringify.
  cbn [ret fst]. by rewrite (revive_to_json t).
Qed.

Lemma table_in_empty_text {T} `{Encodable T} (storageKey : string) (st : State) :
  items (localStorage st) !! storageKey
  = Some (JSON.stringify (to_json ([] : Table T))) ->
  table_in (T := T) storageKey st = Some [].
Proof.
  intros Hitem. unfold table_in, getCache, JSON_parse.
  rewrite try_catch_unfold, bind_unfold, localStorage_getItem_run, Hitem.
  destruct (readFault (localStorage st)); [reflexivity | ].
  rewrite truthy_text_stringify, bind_unfold, parse_stringify. reflexivity.
Qed.

Lemma table_in_read_fault {T} `{Encodable T} (storageKey : string) (st : State)
    (t : Table T) :
  readFault (localStorage st) = true -> table_in storageKey st = Some t -> t = [].
Proof.
  intros Hfault. unfold table_in, getCache.
  rewrite try_catch_unfold, bind_unfold, localStorage_getItem_run, Hfault.
  cbn. congruence.
Qed.

Lemma getCachedImageBlob_missing (url : string) (now : Z) (st : State)
    (t : Table ImageCacheEntry.t) :
  table_in IMAGES_CACHE_KEY st = Some t -> assoc url t = None ->
  getCachedImageBlob url now st = (Ok None, st).
Proof.
  intros Ht Hassoc. unfold getCachedImageBlob, getImagesCache.
  rewrite try_catch_unfold, bind_unfold, (getCache_typed _ _ _ Ht).
  cbn [use bind ret]. rewrite Hassoc. reflexivity.
Qed.

End CacheStore.

(** X16. [invalidatePostsCache] on a store that takes every call and whose
    table of the posts is read as it was stored.  With a
    key it leaves the table of the posts without the entry of that key and
    with the others as they were.  With no key, or with the empty key,
    which [if (cacheKey)] takes for none, it removes the whole table, and
    with it the posts of every user, which are entries of the same table.
    The table of the queries and the images are not touched. *)
Theorem invalidatePostsCache_drops (cacheKey : option string) (st : CacheService.State)
    (tbl : Table StoredEntry) :
  stored_entries Posts st = Some tbl ->
  read_as_stored CacheService.POSTS_CACHE_KEY st = true ->
  healthy (CacheService.localStorage st) ->
  exists st',
    CacheService.invalidatePostsCache cacheKey st = (Ok tt, st')
    /\ stored_entries Posts st'
       = Some match cacheKey with
              | None | Some EmptyString => []
              | Some key => table_delete key tbl
              end
    /\ stored_entries UserPosts st' = stored_entries Posts st'
    /\ stored_entries Queries st' = stored_entries Queries st
    /\ CacheService.indexedDB st' = CacheService.indexedDB st.
Proof.
  intros Hstored _ [Hread Hwrite]. cbn [stored_entries] in Hstored.
  destruct (table_in (T := CacheEntry.t) CacheService.POSTS_CACHE_KEY st)
    as [t | ] eqn:Ht; [ | discriminate].
  injection Hstored as <-. unfold CacheService.invalidatePostsCache.
  rewrite try_catch_unfold.
  assert (Hall : exists st',
             CacheService.localStorage_removeItem CacheService.POSTS_CACHE_KEY st
             = (Ok tt, st')
             /\ stored_entries Posts st' = Some []
             /\ stored_entries Queries st' = stored_entries Queries st
             /\ CacheService.indexedDB st' = CacheService.indexedDB st).
  { rewrite localStorage_removeItem_run, Hread. eexists. split; [reflexivity | ].
    cbn [stored_entries]. split; [ | split; [ | reflexivity]].
    - rewrite table_in_absent; [reflexivity | ]. cbn. apply lookup_delete_eq.
    - f_equal. apply table_in_frame; [cbn; congruence | ]. cbn. by apply lookup_delete_ne. }
  destruct cacheKey as [[ | c key] | ]; cbn [truthy_text].
  - destruct Hall as (st' & -> & ? & ? & ?). by exists st'.
  - rewrite bind_unfold. unfold CacheService.getPostsCache.
    rewrite (getCache_typed _ _ _ Ht). cbn [use bind ret].
    destruct (table_in_written CacheService.POSTS_CACHE_KEY st
                (table_delete (String c key) t) Hread Hwrite)
      as (st' & Hrun & Ht' & Hdb & _).
    rewrite Hrun. exists st'. split; [reflexivity | ]. cbn [stored_entries].
    rewrite Ht'. cbn. rewrite view_table_delete. split; [reflexivity | ].
    split; [reflexivity | ]. split; [ | exact Hdb].
    f_equal. rewrite localStorage_setItem_run, Hwrite in Hrun. injection Hrun as <-.
    apply table_in_frame; [cbn; congruence | ]. cbn. by apply lookup_insert_ne.
  - destruct Hall as (st' & -> & ? & ? & ?). by exists st'.
Qed.

Lemma invalidatePostsCache_drops_witness :
  exists st',
    CacheService.invalidatePostsCache (Some EmptyString) feed_cached = (Ok tt, st')
    /\ stored_entries Posts st' = Some []
    /\ stored_entries UserPosts st' = stored_entries Posts st'
    /\ stored_entries Queries st' = stored_entries Queries feed_cached
    /\ CacheService.indexedDB st' = CacheService.indexedDB feed_cached.
Proof.
  apply (invalidatePostsCache_drops (Some EmptyString) feed_cached
           [(CacheService.default_cacheKey,
             mkStoredEntry [JStr "post-1"; JStr "post-2"] 1000 121000 (Some "1.0.0"))]).
  - vm_compute. reflexivity.
  - vm_compute. reflexivity.
  - split; reflexivity.
Defined.

(** X17. [clearAllCache] on a store that can be read, with IndexedDB
    available: afterwards every reader of the cache misses, for every key
    and at every time.  The images in IndexedDB stay: the database it
    deletes, [SpotShareImageCache], is not the one the images are kept in,
    [AlertaIloImageCache]. *)
Theorem clearAllCache_leaves_the_images (st : CacheService.State) :
  readFault (CacheService.localStorage st) = false ->
  openFault (CacheService.indexedDB st) = false ->
  exists st',
    CacheService.clearAllCache st = (Ok tt, st')
    /\ (forall ns key now, cache_get ns key now st' = (Ok None, st'))
    /\ (forall url now, CacheService.getCachedImageBlob url now st' = (Ok None, st'))
    /\ CacheService.indexedDB st' = CacheService.indexedDB st.
Proof.
  intros Hread Hopen. unfold CacheService.clearAllCache.
  rewrite bind_unfold, localStorage_removeItem_run, Hread.
  rewrite bind_unfold, localStorage_removeItem_run. cbn [CacheService.localStorage readFault].
  rewrite bind_unfold, localStorage_removeItem_run. cbn [CacheService.localStorage readFault].
  rewrite bind_unfold, localStorage_removeItem_run. cbn [CacheService.localStorage readFault].
  unfold CacheService.indexedDB_deleteDatabase.
  cbn [CacheService.indexedDB CacheService.localStorage items readFault writeFault].
  rewrite Hopen.
  replace (String.eqb "SpotShareImageCache" CacheService.IMAGE_DATABASE) with false
    by reflexivity.
  eexists. split; [reflexivity | ].
  match goal with |- context [CacheService.mkState (mkLocalStorage ?m _ _) _] =>
    set (cleared := m) end.
  assert (Hposts : cleared !! CacheService.POSTS_CACHE_KEY = None).
  { subst cleared. rewrite !lookup_delete_ne by discriminate. apply lookup_delete_eq. }
  assert (Himages : cleared !! CacheService.IMAGES_CACHE_KEY = None).
  { subst cleared. rewrite !lookup_delete_ne by discriminate. apply lookup_delete_eq. }
  assert (Hqueries : cleared !! CacheService.QUERIES_CACHE_KEY = None).
  { subst cleared. rewrite !lookup_delete_ne by discriminate. apply lookup_delete_eq. }
  split; [ | split; [ | reflexivity]].
  - intros [ | | ] key now; cbn [cache_get]; unfold CacheService.getCachedUserPosts.
    + apply (getCachedPosts_missing _ _ _ []); [by apply table_in_absent | reflexivity].
    + apply (getCachedPosts_missing _ _ _ []); [by apply table_in_absent | reflexivity].
    + apply (getCachedQuery_missing _ _ _ []); [by apply table_in_absent | reflexivity].
  - intros url now.
    apply (getCachedImageBlob_missing _ _ _ []); [by apply table_in_absent | reflexivity].
Qed.

Lemma clearAllCache_leaves_the_images_witness :
  exists st',
    CacheService.clearAllCache two_photos = (Ok tt, st')
    /\ (forall ns key now, cache_get ns key now st' = (Ok None, st'))
    /\ (forall url now, CacheService.getCachedImageBlob url now st' = (Ok None, st'))
    /\ CacheService.indexedDB st' = CacheService.indexedDB two_photos.
Proof.
  apply (clearAllCache_leaves_the_images two_photos); reflexivity.
Defined.

(** ** CacheService: the sweep *)

Section Sweep.
Import CacheService.
Context {T : Type} (expired : T -> bool) (dropped : string -> M State unit).
Hypothesis dropped_ok :
  forall key st, exists st',
    dropped key st = (Ok tt, st') /\ localStorage st' = localStorage st.

(** The sweep leaves [localStorage] alone, whatever it returns. *)
Lemma sweep_frame (todo : list string) :
  forall (cache : Table T) (st : State),
    localStorage (snd (sweep expired dropped todo cache st)) = localStorage st.
Proof.
  induction todo as [ | key todo IH]; intros cache st; [reflexivity | ].
  cbn [sweep]. destruct (assoc key cache) as [entry | ]; [ | reflexivity].
  destruct (expired entry); [ | apply IH].
  rewrite bind_unfold. destruct (dropped_ok key st) as (st1 & -> & Hls).
  rewrite IH. exact Hls.
Qed.

(** On a table with keys of its own the sweep returns the entries that
    are not expired, in their order. *)
Lemma sweep_filter (rest : Table T) :
  forall (kept : Table T) (st : State),
    NoDup (keys (kept ++ rest)) ->
    fst (sweep expired dropped (map fst rest) (kept ++ rest) st)
    = Ok (kept ++ List.filter (fun kv => negb (expired (snd kv))) rest).
Proof.
  induction rest as [ | [key entry] rest IH]; intros kept st Hnodup.
  - reflexivity.
  - cbn [map fst sweep].
    assert (Hkeys : (key ∉ keys kept) /\ (key ∉ keys rest) /\ NoDup (keys (kept ++ rest))).
    { unfold keys in *. rewrite fmap_app in Hnodup. cbn [fmap list_fmap fst] in Hnodup.
      apply NoDup_app in Hnodup as (Hkept & Hapart & Hrest).
      apply NoDup_cons in Hrest as [Hfresh Hrest].
      split; [ | split; [exact Hfresh | ]].
      - intros Hin. apply (Hapart _ Hin). left.
      - rewrite fmap_app. apply NoDup_app. split; [exact Hkept | ].
        split; [ | exact Hrest]. intros k Hk Hk'. apply (Hapart _ Hk). by right. }
    destruct Hkeys as (Hkept & Hrest & Hnodup').
    assert (Hassoc : assoc key (kept ++ (key, entry) :: rest) = Some entry).
    { clear -Hkept. induction kept as [ | [k v] kept IHk]; cbn [app assoc].
      - by rewrite String.eqb_refl.
      - simpl in Hkept. apply not_elem_of_cons in Hkept as [Hne Hkept].
        destruct (String.eqb_spec k key); [congruence | by apply IHk]. }
    rewrite Hassoc. cbn [List.filter snd]. destruct (expired entry); cbn [negb].
    + rewrite bind_unfold. destruct (dropped_ok key st) as (st1 & -> & _).
      assert (Hdel : table_delete key (kept ++ (key, entry) :: rest) = kept ++ rest).
      { unfold table_delete. rewrite List.filter_app. cbn [List.filter fst].
        rewrite String.eqb_refl. cbn [negb].
        fold (table_delete key kept). fold (table_delete key rest).
        by rewrite !table_delete_absent. }
      rewrite Hdel. by apply IH.
    + rewrite (cons_middle (key, entry) kept rest), app_assoc, IH.
      * by rewrite <- app_assoc.
      * rewrite <- app_assoc. exact Hnodup.
Qed.

End Sweep.

Section SweepStages.
Import CacheService.

Lemma cleanExpiredEntries_stages (now : Z) (st : State) :
  cleanExpiredEntries now st
  = (sweep_stage POSTS_CACHE_KEY (fun entry => now >? CacheEntry.expiresAt entry)
       (fun key => ret tt) ;;;
     sweep_stage IMAGES_CACHE_KEY
       (fun entry => now - ImageCacheEntry.timestamp entry >? IMAGES_CONFIG.maxAge)
       deleteImageFromIndexedDB ;;;
     sweep_stage QUERIES_CACHE_KEY (fun entry => now >? QueryCache.expiresAt entry)
       (fun key => ret tt)) st.
Proof.
  unfold cleanExpiredEntries, sweep_stage, getPostsCache, getImagesCache, getQueriesCache.
  rewrite !bind_unfold.
  destruct (getCache POSTS_CACHE_KEY st) as [[d | e] s]; [ | reflexivity].
  rewrite !bind_unfold. destruct (use _ d s) as [[t | e] s0]; [ | reflexivity].
  rewrite !bind_unfold. destruct (sweep _ _ _ t s0) as [[t' | e] s1]; [ | reflexivity].
  rewrite !bind_unfold. destruct (localStorage_setItem _ _ s1) as [[[] | e] s2];
    [ | reflexivity].
  rewrite !bind_unfold.
  destruct (getCache IMAGES_CACHE_KEY s2) as [[d2 | e] s3]; [ | reflexivity].
  rewrite !bind_unfold. destruct (use _ d2 s3) as [[t2 | e] s4]; [ | reflexivity].
  rewrite !bind_unfold. destruct (sweep _ _ _ t2 s4) as [[t2' | e] s5]; [ | reflexivity].
  rewrite !bind_unfold. destruct (localStorage_setItem _ _ s5) as [[[] | e] s6]; reflexivity.
Qed.

Section Stage.
Context {T : Type} `{Encodable T} (storageKey : string) (expired : T -> bool)
  (dropped : string -> M State unit).
Hypothesis dropped_ok :
  forall key st, exists st',
    dropped key st = (Ok tt, st') /\ localStorage st' = localStorage st.

Lemma sweep_stage_ok (st st' : State) :
  sweep_stage storageKey expired dropped st = (Ok tt, st') ->
  exists t t',
    table_in storageKey st = Some t
    /\ fst (sweep expired dropped (map fst t) t st) = Ok t'
    /\ writeFault (localStorage st) = false
    /\ localStorage st'
       = mkLocalStorage (<[storageKey := JSON.stringify (to_json t')]>
                           (items (localStorage st)))
           (readFault (localStorage st)) false.
Proof.
  unfold sweep_stage. rewrite bind_unfold.
  destruct (getCache_run (T := T) storageKey st) as [Hget [d Hd]]. rewrite Hget, Hd.
  destruct d as [t | j]; cbn [use bind ret throw]; [ | discriminate].
  rewrite bind_unfold.
  pose proof (sweep_frame expired dropped dropped_ok (map fst t) t st) as Hls.
  destruct (sweep expired dropped (map fst t) t st) as [[t' | e] s1] eqn:Hsweep;
    [ | discriminate].
  cbn [snd] in Hls. rewrite localStorage_setItem_run, Hls.
  destruct (writeFault (localStorage st)) eqn:Hwrite; [discriminate | ].
  intros [= <-]. exists t, t'. split.
  { unfold table_in. by rewrite Hd. }
  split; [by rewrite Hsweep | ]. split; [reflexivity | ]. reflexivity.
Qed.

Lemma sweep_stage_full (st : State) :
  writeFault (localStorage st) = true ->
  exists e st',
    sweep_stage storageKey expired dropped st = (Throw e, st')
    /\ localStorage st' = localStorage st.
Proof.
  intros Hfull. unfold sweep_stage. rewrite bind_unfold.
  destruct (getCache_run (T := T) storageKey st) as [Hget [d Hd]]. rewrite Hget, Hd.
  destruct d as [t | j]; cbn [use bind ret throw]; [ | by eexists _, _].
  rewrite bind_unfold.
  pose proof (sweep_frame expired dropped dropped_ok (map fst t) t st) as Hls.
  destruct (sweep expired dropped (map fst t) t st) as [[t' | e] s1]; cbn [snd] in Hls.
  - rewrite localStorage_setItem_run, Hls, Hfull. by eexists _, _.
  - by eexists _, _.
Qed.

End Stage.

Lemma no_drop_ok (key : string) (st : State) :
  exists st', ret (S := State) tt st = (Ok tt, st') /\ localStorage st' = localStorage st.
Proof. by exists st. Qed.

Lemma deleteImageFromIndexedDB_ok (key : string) (st : State) :
  exists st',
    deleteImageFromIndexedDB key st = (Ok tt, st') /\ localStorage st' = localStorage st.
Proof.
  unfold deleteImageFromIndexedDB, modify. eexists. split; [reflexivity | ].
  by destruct (openFault (indexedDB st)).
Qed.

Lemma filter_view_table {T} (view : T -> StoredEntry) (P : StoredEntry -> bool)
    (t : Table T) :
  view_table view (List.filter (fun kv => P (view (snd kv))) t)
  = List.filter (fun kv => P (snd kv)) (view_table view t).
Proof.
  unfold view_table. induction t as [ | [k v] t IH]; [reflexivity | ].
  cbn [List.filter map fst snd]. destruct (P (view v)); cbn [map fst snd]; by rewrite IH.
Qed.

End SweepStages.

(** X18. When [cleanExpiredEntries] returns, on a store whose three tables
    are read as they were stored, each table of the cache of results (with
    keys of its own) holds the entries that were not expired at the time
    of the sweep, that instant included, in the order they had, and no
    other.  The sweep tests the expiry alone: an entry of an older version
    stays, until a reader finds it. *)
Theorem cleanExpiredEntries_keeps_unexpired (now : Z) (st st' : CacheService.State)
    (ns : Namespace) (tbl : Table StoredEntry) :
  CacheService.cleanExpiredEntries now st = (Ok tt, st') ->
  tables_read_as_stored st = true ->
  stored_entries ns st = Some tbl ->
  NoDup (keys tbl) ->
  stored_entries ns st' = Some (List.filter (unexpired now) tbl).
Proof.
  intros Hrun _ Hstored Hnodup. rewrite cleanExpiredEntries_stages in Hrun.
  rewrite bind_unfold in Hrun.
  destruct (sweep_stage CacheService.POSTS_CACHE_KEY _ _ st) as [[[] | e] s1] eqn:Hposts;
    [ | discriminate].
  rewrite bind_unfold in Hrun.
  destruct (sweep_stage CacheService.IMAGES_CACHE_KEY _ _ s1) as [[[] | e] s2] eqn:Himages;
    [ | discriminate].
  apply (sweep_stage_ok _ _ _ no_drop_ok) in Hposts
    as (t1 & t1' & Ht1 & Hsweep1 & Hwrite1 & Hls1).
  apply (sweep_stage_ok _ _ _ deleteImageFromIndexedDB_ok) in Himages
    as (t2 & t2' & Ht2 & Hsweep2 & Hwrite2 & Hls2).
  apply (sweep_stage_ok _ _ _ no_drop_ok) in Hrun
    as (t3 & t3' & Ht3 & Hsweep3 & Hwrite3 & Hls3).
  rewrite Hls2, Hls1 in Hls3. cbn [items readFault] in Hls3.
  assert (Hread' : readFault (CacheService.localStorage st')
                   = readFault (CacheService.localStorage st)) by (by rewrite Hls3).
  destruct ns; cbn [stored_entries] in *.
  - rewrite Ht1 in Hstored. injection Hstored as <-. rewrite keys_view_table in Hnodup.
    rewrite (sweep_filter _ _ no_drop_ok t1 [] st Hnodup) in Hsweep1.
    injection Hsweep1 as <-.
    rewrite (table_in_text _ st'
               (List.filter (fun kv => negb (now >? CacheEntry.expiresAt (snd kv))) t1)).
    2:{ rewrite Hls3. cbn [items]. rewrite !lookup_insert_ne by discriminate.
        apply lookup_insert_eq. }
    rewrite Hread'. cbn [fmap option_fmap option_map]. f_equal.
    destruct (readFault (CacheService.localStorage st)) eqn:Hread.
    + by rewrite (table_in_read_fault _ st t1 Hread Ht1).
    + apply (filter_view_table view_entry (fun e => negb (now >? stored_expiresAt e))).
  - rewrite Ht1 in Hstored. injection Hstored as <-. rewrite keys_view_table in Hnodup.
    rewrite (sweep_filter _ _ no_drop_ok t1 [] st Hnodup) in Hsweep1.
    injection Hsweep1 as <-.
    rewrite (table_in_text _ st'
               (List.filter (fun kv => negb (now >? CacheEntry.expiresAt (snd kv))) t1)).
    2:{ rewrite Hls3. cbn [items]. rewrite !lookup_insert_ne by discriminate.
        apply lookup_insert_eq. }
    rewrite Hread'. cbn [fmap option_fmap option_map]. f_equal.
    destruct (readFault (CacheService.localStorage st)) eqn:Hread.
    + by rewrite (table_in_read_fault _ st t1 Hread Ht1).
    + apply (filter_view_table view_entry (fun e => negb (now >? stored_expiresAt e))).
  - assert (Ht3' : table_in (T := QueryCache.t) CacheService.QUERIES_CACHE_KEY s2
                   = table_in (T := QueryCache.t) CacheService.QUERIES_CACHE_KEY st).
    { apply table_in_frame.
      - by rewrite Hls2, Hls1.
      - rewrite Hls2, Hls1. cbn [items]. by rewrite !lookup_insert_ne by discriminate. }
    rewrite Ht3' in Ht3. rewrite Ht3 in Hstored. injection Hstored as <-.
    rewrite keys_view_table in Hnodup.
    rewrite (sweep_filter _ _ no_drop_ok t3 [] s2 Hnodup) in Hsweep3.
    injection Hsweep3 as <-.
    rewrite (table_in_text _ st'
               (List.filter (fun kv => negb (now >? QueryCache.expiresAt (snd kv))) t3)).
    2:{ rewrite Hls3. cbn [items]. apply lookup_insert_eq. }
    rewrite Hread'. cbn [fmap option_fmap option_map]. f_equal.
    destruct (readFault (CacheService.localStorage st)) eqn:Hread.
    + by rewrite (table_in_read_fault _ st t3 Hread Ht3).
    + apply (filter_view_table view_query (fun e => negb (now >? stored_expiresAt e))).
Qed.

Lemma cleanExpiredEntries_keeps_unexpired_witness :
  stored_entries Posts (snd (CacheService.cleanExpiredEntries 121000 feed_cached))
  = Some (List.filter (unexpired 121000)
            [(CacheService.default_cacheKey,
              mkStoredEntry [JStr "post-1"; JStr "post-2"] 1000 121000 (Some "1.0.0"))]).
Proof.
  apply (cleanExpiredEntries_keeps_unexpired 121000 feed_cached
           (snd (CacheService.cleanExpiredEntries 121000 feed_cached)) Posts).
  - vm_compute. reflexivity.
  - vm_compute. reflexivity.
  - vm_compute. reflexivity.
  - apply (bool_decide_unpack _). vm_compute. exact I.
Defined.

(** X19. [cleanExpiredEntries] has no [try] around it: on a store that takes
    no write (a full store) it throws, whatever the store holds, and so
    does the constructor of the service, which sweeps first.  Nothing is
    written. *)
Theorem cleanExpiredEntries_throws_on_full_store (now : Z) (st : CacheService.State) :
  writeFault (CacheService.localStorage st) = true ->
  exists e st',
    CacheService.cleanExpiredEntries now st = (Throw e, st')
    /\ CacheService.new (CacheService.localStorage st) (CacheService.indexedDB st) now
       = (Throw e, st')
    /\ CacheService.localStorage st' = CacheService.localStorage st.
Proof.
  intros Hfull. unfold CacheService.new.
  replace (CacheService.mkState (CacheService.localStorage st) (CacheService.indexedDB st))
    with st by (by destruct st).
  rewrite cleanExpiredEntries_stages, bind_unfold.
  destruct (sweep_stage_full CacheService.POSTS_CACHE_KEY
              (fun entry => now >? CacheEntry.expiresAt entry) (fun key => ret tt)
              no_drop_ok st Hfull) as (e & st' & -> & Hls).
  by exists e, st'.
Qed.

Lemma cleanExpiredEntries_throws_on_full_store_witness :
  exists e st',
    CacheService.cleanExpiredEntries 5000 (full_store feed_cached) = (Throw e, st')
    /\ CacheService.new (CacheService.localStorage (full_store feed_cached))
         (CacheService.indexedDB (full_store feed_cached)) 5000
       = (Throw e, st')
    /\ CacheService.localStorage st' = CacheService.localStorage (full_store feed_cached).
Proof.
  apply (cleanExpiredEntries_throws_on_full_store 5000 (full_store feed_cached)).
  reflexivity.
Defined.

(** ** CacheService: the images *)

Section ImagesReadBack.
Import CacheService.

Lemma decode_revived (j : Json) (entry : ImageCacheEntry.t) :
  ImageCacheEntry.decode j = Some entry -> ImageCacheEntry.blob entry = Blob.Revived.
Proof.
  unfold ImageCacheEntry.decode. intros Hdecode.
  repeat case_match; try discriminate. by injection Hdecode as <-.
Qed.

Lemma sequence_Some {A} (P : A -> Prop) (l : list (option A)) (r : list A) :
  Forall (fun o => forall a, o = Some a -> P a) l -> sequence l = Some r -> Forall P r.
Proof.
  revert r. induction l as [ | o l IH]; intros r Hall Hseq.
  - injection Hseq as <-. constructor.
  - apply Forall_cons in Hall as [Ho Hall]. cbn [sequence] in Hseq.
    destruct o as [a | ]; [ | discriminate].
    destruct (sequence l) as [r' | ]; [ | discriminate].
    injection Hseq as <-. constructor; [by apply Ho | by apply IH].
Qed.

(** No entry of a table of images read from the store holds a [Blob]. *)
Lemma images_read_back (st : State) (t : Table ImageCacheEntry.t) :
  fst (getImagesCache st) = Ok (Typed t) ->
  Forall (fun kv => ImageCacheEntry.blob (snd kv) = Blob.Revived) t.
Proof.
  unfold getImagesCache, getCache, JSON_parse.
  rewrite try_catch_unfold, bind_unfold, localStorage_getItem_run.
  destruct (readFault (localStorage st)).
  { cbn. intros [= <-]. constructor. }
  destruct (truthy_text (items (localStorage st) !! IMAGES_CACHE_KEY)) as [text | ].
  2:{ cbn. intros [= <-]. constructor. }
  rewrite bind_unfold. destruct (JSON.parse text) as [j | ].
  2:{ cbn. intros [= <-]. constructor. }
  cbn [ret throw fst]. unfold revive.
  destruct (of_json j) as [t' | ] eqn:Hof; [ | discriminate].
  intros [= ->]. cbn in Hof. unfold table_of_json in Hof.
  destruct j as [ | | | | | members]; try discriminate.
  eapply sequence_Some; [ | exact Hof].
  apply Forall_forall. intros o Ho kv ->.
  apply list_elem_of_fmap in Ho as ([k jv] & Hkv & _). cbn [fst snd] in Hkv.
  destruct (of_json jv) as [entry | ] eqn:Hentry; [ | discriminate].
  injection Hkv as ->. cbn [snd]. by apply (decode_revived jv).
Qed.

End ImagesReadBack.

(** X20. The cache of images never serves an image.  Whatever the store
    holds, what [getCachedImageBlob] returns is [null] or the object that
    [JSON.parse] made of a blob written as JSON, which is not a [Blob]; and
    [getCachedImageUrl] returns [null] or throws on that object: it never
    returns an address. *)
Theorem cached_image_is_never_served (st : CacheService.State) (made url : string)
    (now : Z) :
  (exists st',
      CacheService.getCachedImageBlob url now st = (Ok None, st')
      \/ CacheService.getCachedImageBlob url now st = (Ok (Some Blob.Revived), st'))
  /\ (exists st',
        CacheService.getCachedImageUrl made url now st = (Ok None, st')
        \/ exists e, CacheService.getCachedImageUrl made url now st = (Throw e, st')).
Proof.
  assert (Hblob : exists st',
             CacheService.getCachedImageBlob url now st = (Ok None, st')
             \/ CacheService.getCachedImageBlob url now st = (Ok (Some Blob.Revived), st')).
  { unfold CacheService.getCachedImageBlob.
    rewrite try_catch_unfold, bind_unfold.
    pose proof (images_read_back st) as Hrevived.
    unfold CacheService.getImagesCache in *.
    destruct (getCache_run (T := ImageCacheEntry.t) CacheService.IMAGES_CACHE_KEY st)
      as [Hget [d Hd]].
    rewrite Hget, Hd. rewrite Hd in Hrevived.
    destruct d as [t | j]; cbn [use bind ret throw]; [ | by eexists; left].
    specialize (Hrevived t eq_refl).
    destruct (assoc url t) as [entry | ] eqn:Hassoc; [ | by eexists; left].
    destruct (now - ImageCacheEntry.timestamp entry >? CacheService.IMAGES_CONFIG.maxAge).
    - unfold CacheService.deleteImageFromIndexedDB. cbn [bind ret modify]. by eexists; left.
    - exists st. right. do 3 f_equal.
      clear -Hassoc Hrevived. induction t as [ | [k v] t IH]; [discriminate | ].
      apply Forall_cons in Hrevived as [Hv Hrevived]. cbn [assoc] in Hassoc.
      destruct (String.eqb k url); [by injection Hassoc as <- | by apply IH]. }
  split; [exact Hblob | ].
  destruct Hblob as (st' & [Hnone | Hrevived]); unfold CacheService.getCachedImageUrl;
    rewrite bind_unfold.
  - rewrite Hnone. exists st'. by left.
  - rewrite Hrevived. exists st'. right. by eexists.
Qed.

Section Framing.
Import CacheService.

Lemma keeps_images_refl (st : State) : keeps_images st st.
Proof. by repeat split. Qed.

Lemma keeps_images_trans (st1 st2 st3 : State) :
  keeps_images st1 st2 -> keeps_images st2 st3 -> keeps_images st1 st3.
Proof. unfold keeps_images. intros (? & ? & ?) (? & ? & ?). repeat split; congruence. Qed.

Lemma framed_ret {A} (a : A) : framed (ret a).
Proof. intros st. apply keeps_images_refl. Qed.

Lemma framed_throw {A} (e : Exn) : framed (throw (A := A) e).
Proof. intros st. apply keeps_images_refl. Qed.

Lemma framed_bind {A B} (m : M State A) (k : A -> M State B) :
  framed m -> (forall a, framed (k a)) -> framed (bind m k).
Proof.
  intros Hm Hk st. rewrite bind_unfold. specialize (Hm st).
  destruct (m st) as [[a | e] s1]; cbn [snd] in *; [ | exact Hm].
  eapply keeps_images_trans; [exact Hm | apply Hk].
Qed.

Lemma framed_try_catch {A} (body : M State A) (handler : Exn -> M State A) :
  framed body -> (forall e, framed (handler e)) -> framed (try_catch body handler).
Proof.
  intros Hbody Hhandler st. rewrite try_catch_unfold. specialize (Hbody st).
  destruct (body st) as [[a | e] s1]; cbn [snd] in *; [exact Hbody | ].
  eapply keeps_images_trans; [exact Hbody | apply Hhandler].
Qed.

Lemma framed_getCache {T} `{Encodable T} (storageKey : string) :
  framed (getCache (T := T) storageKey).
Proof.
  intros st. destruct (getCache_run (T := T) storageKey st) as [-> _].
  apply keeps_images_refl.
Qed.

Lemma framed_use {T} (complaint : string) (d : Dyn T) : framed (use complaint d).
Proof. destruct d; [apply framed_ret | apply framed_throw]. Qed.

Lemma framed_setItem (key value : string) :
  key <> IMAGES_CACHE_KEY -> framed (localStorage_setItem key value).
Proof.
  intros Hkey st. rewrite localStorage_setItem_run.
  destruct (writeFault (localStorage st)); [apply keeps_images_refl | ].
  split; [reflexivity | ]. split; [ | reflexivity]. cbn. by apply lookup_insert_ne.
Qed.

Lemma framed_removeItem (key : string) :
  key <> IMAGES_CACHE_KEY -> framed (localStorage_removeItem key).
Proof.
  intros Hkey st. rewrite localStorage_removeItem_run.
  destruct (readFault (localStorage st)) eqn:Hread; [apply keeps_images_refl | ].
  split; [by cbn | ]. split; [ | reflexivity]. cbn. by apply lookup_delete_ne.
Qed.

Lemma framed_sweep {T} (expired : T -> bool) (todo : list string) :
  forall cache : Table T, framed (sweep expired (fun key => ret tt) todo cache).
Proof.
  induction todo as [ | key todo IH]; intros cache; cbn [sweep]; [apply framed_ret | ].
  destruct (assoc key cache) as [entry | ]; [ | apply framed_throw].
  destruct (expired entry); [ | apply IH].
  apply framed_bind; [apply framed_ret | intros _; apply IH].
Qed.

Lemma framed_sweep_stage {T} `{Encodable T} (storageKey : string) (expired : T -> bool) :
  storageKey <> IMAGES_CACHE_KEY ->
  framed (sweep_stage storageKey expired (fun key => ret tt)).
Proof.
  intros Hkey. unfold sweep_stage.
  apply framed_bind; [apply framed_getCache | intros stored].
  apply framed_bind; [apply framed_use | intros cache].
  apply framed_bind; [apply framed_sweep | intros cache'].
  by apply framed_setItem.
Qed.

End Framing.

Ltac framed :=
  repeat first
    [ apply framed_ret | apply framed_throw | apply framed_getCache | apply framed_use
    | apply framed_setItem; discriminate | apply framed_removeItem; discriminate
    | apply framed_try_catch; [ | intros ?]
    | apply framed_bind; [ | intros ?]
    | case_match ].

Section Session.
Import CacheService.

Lemma framed_cachePosts (posts : list Json) (key : string) (now : Z) :
  framed (cachePosts posts key now).
Proof. unfold cachePosts, getPostsCache. framed. Qed.

Lemma framed_getCachedPosts (key : string) (now : Z) : framed (getCachedPosts key now).
Proof. unfold getCachedPosts, getPostsCache. framed. Qed.

Lemma framed_cacheQuery (key : string) (posts : list Json) (bounds : option Json) (now : Z) :
  framed (cacheQuery key posts bounds now).
Proof. unfold cacheQuery, getQueriesCache. framed. Qed.

Lemma framed_getCachedQuery (key : string) (now : Z) : framed (getCachedQuery key now).
Proof. unfold getCachedQuery, getQueriesCache. framed. Qed.

Lemma framed_invalidatePostsCache (key : option string) : framed (invalidatePostsCache key).
Proof. unfold invalidatePostsCache, getPostsCache. framed. Qed.

Lemma keeps_images_untracked (st st' : State) :
  keeps_images st st' -> images_untracked st ->
  images_untracked st' /\ images_stay st st'.
Proof.
  intros (Hread & Hitem & Hdb) Huntracked. split.
  - unfold images_untracked in *. by rewrite (table_in_frame _ st st').
  - intros url. by rewrite Hdb.
Qed.

Lemma getImagesCache_untracked (st : State) :
  images_untracked st -> getImagesCache st = (Ok (Typed []), st).
Proof. intros Huntracked. by apply getCache_typed. Qed.

Lemma images_stay_refl (st : State) : images_stay st st.
Proof. by intros url. Qed.

Lemma images_stay_trans (st1 st2 st3 : State) :
  images_stay st1 st2 -> images_stay st2 st3 -> images_stay st1 st3.
Proof. intros H12 H23 url Hurl. by apply H23, H12. Qed.

(** What [cacheImage] leaves when the table it reads is empty:
    [localStorage] as it was, and in IndexedDB the images that were there,
    with the new one when it was fetched. *)
Lemma cacheImage_untracked_keeps (net : Network) (url : string) (now : Z) (st : State) :
  images_untracked st ->
  localStorage (snd (cacheImage net url now st)) = localStorage st
  /\ images_stay st (snd (cacheImage net url now st)).
Proof.
  intros Huntracked. unfold cacheImage. rewrite try_catch_unfold.
  destruct (String.prefix "blob:" url); [split; [reflexivity | apply images_stay_refl] | ].
  rewrite bind_unfold, (getCachedImageBlob_missing url now st [] Huntracked eq_refl).
  rewrite bind_unfold. unfold fetch.
  destruct (net url) as [response | e]; cbn [ret throw]; [ | split; [reflexivity | apply images_stay_refl]].
  rewrite bind_unfold.
  destruct (ok response); cbn [ret throw]; [ | split; [reflexivity | apply images_stay_refl]].
  rewrite bind_unfold. unfold response_blob.
  destruct (body response) as [size | e]; cbn [ret throw]; [ | split; [reflexivity | apply images_stay_refl]].
  rewrite bind_unfold, (getImagesCache_untracked st Huntracked).
  cbn [use bind ret table_set blob_size].
  unfold limitImageCacheSize.
  cbn [map snd foldl length ImageCacheEntry.size].
  assert (Hsave : forall s : State,
             localStorage s = localStorage st ->
             (openFault (indexedDB s) = true -> images_stay st s) ->
             (forall u, u <> url -> is_Some (images (indexedDB st) !! u) ->
                        is_Some (images (indexedDB s) !! u)) ->
             localStorage
               (snd (saveImageToIndexedDB url
                       (ImageCacheEntry.mk url (Blob.Data size) now size) s))
             = localStorage st
             /\ images_stay st
                  (snd (saveImageToIndexedDB url
                          (ImageCacheEntry.mk url (Blob.Data size) now size) s))).
  { intros s Hls Hfault Hothers. unfold saveImageToIndexedDB, modify. cbn [snd].
    destruct (openFault (indexedDB s)); [split; [exact Hls | by apply Hfault] | ].
    split; [exact Hls | ]. intros u Hu. cbn [indexedDB images ImageCacheEntry.url].
    destruct (decide (u = url)) as [-> | Hne].
    - rewrite lookup_insert_eq. by eexists.
    - rewrite lookup_insert_ne by congruence. by apply Hothers. }
  assert (Hrun : forall s : State,
             saveImageToIndexedDB url (ImageCacheEntry.mk url (Blob.Data size) now size) s
             = (Ok tt,
                snd (saveImageToIndexedDB url
                       (ImageCacheEntry.mk url (Blob.Data size) now size) s)))
    by reflexivity.
  assert (Hsame : localStorage
                    (snd (saveImageToIndexedDB url
                            (ImageCacheEntry.mk url (Blob.Data size) now size) st))
                  = localStorage st
                  /\ images_stay st
                       (snd (saveImageToIndexedDB url
                               (ImageCacheEntry.mk url (Blob.Data size) now size) st))).
  { apply Hsave; [reflexivity | intros _; apply images_stay_refl | by intros u _ Hu]. }
  destruct ((0 + size >? IMAGES_CONFIG.maxSize) || (Z.of_nat 1 >? IMAGES_CONFIG.maxEntries)).
  - cbn [sort foldr insert_sorted evictOldest].
    destruct ((0 + size <=? IMAGES_CONFIG.maxSize)
              && (Z.of_nat 1 <=? IMAGES_CONFIG.maxEntries)).
    + rewrite bind_unfold. cbn [ret]. rewrite Hrun. cbv beta iota. cbn [snd].
      exact Hsame.
    + cbn [ImageCacheEntry.url ImageCacheEntry.size evictOldest].
      rewrite !bind_unfold. unfold deleteImageFromIndexedDB, modify, ret.
      cbv beta iota. rewrite Hrun. cbv beta iota. cbn [snd].
      destruct (openFault (indexedDB st)) eqn:Hopen; [exact Hsame | ].
      apply Hsave.
      * reflexivity.
      * cbn [indexedDB openFault]. congruence.
      * intros u Hne Hu. cbn [indexedDB images]. by rewrite lookup_delete_ne by congruence.
  - rewrite bind_unfold. cbn [ret]. rewrite Hrun. cbv beta iota. cbn [snd].
    exact Hsame.
Qed.

Lemma cleanExpiredEntries_untracked (now : Z) (st : State) :
  images_untracked st ->
  images_untracked (snd (cleanExpiredEntries now st))
  /\ images_stay st (snd (cleanExpiredEntries now st)).
Proof.
  intros Huntracked. rewrite cleanExpiredEntries_stages, bind_unfold.
  pose proof (framed_sweep_stage POSTS_CACHE_KEY
                (fun entry : CacheEntry.t => now >? CacheEntry.expiresAt entry)
                ltac:(discriminate) st) as Hposts.
  destruct (sweep_stage POSTS_CACHE_KEY _ _ st) as [[[] | e] s1]; cbn [snd] in *.
  2:{ by apply keeps_images_untracked. }
  destruct (keeps_images_untracked st s1 Hposts Huntracked) as [Huntracked1 Hstay1].
  rewrite bind_unfold.
  assert (Himages :
    exists r s2,
      sweep_stage IMAGES_CACHE_KEY
        (fun entry : ImageCacheEntry.t =>
           now - ImageCacheEntry.timestamp entry >? IMAGES_CONFIG.maxAge)
        deleteImageFromIndexedDB s1 = (r, s2)
      /\ images_untracked s2 /\ indexedDB s2 = indexedDB s1).
  { unfold sweep_stage. rewrite bind_unfold.
    fold getImagesCache. rewrite (getImagesCache_untracked s1 Huntracked1).
    cbn [use bind ret map sweep]. rewrite localStorage_setItem_run.
    destruct (writeFault (localStorage s1)); [by eexists _, _ | ].
    eexists _, _. split; [reflexivity | ]. split; [ | reflexivity].
    apply table_in_empty_text. cbn. apply lookup_insert_eq. }
  destruct Himages as (r & s2 & -> & Huntracked2 & Hdb2).
  assert (Hstay2 : images_stay st s2).
  { intros url Hurl. rewrite Hdb2. by apply Hstay1. }
  destruct r as [[] | e]; cbn [snd]; [ | by split].
  pose proof (framed_sweep_stage QUERIES_CACHE_KEY
                (fun entry : QueryCache.t => now >? QueryCache.expiresAt entry)
                ltac:(discriminate) s2) as Hqueries.
  destruct (keeps_images_untracked s2 _ Hqueries Huntracked2) as [Huntracked3 Hstay3].
  split; [exact Huntracked3 | by eapply images_stay_trans].
Qed.

Lemma clearAllCache_untracked (st : State) :
  images_untracked st ->
  images_untracked (snd (clearAllCache st)) /\ images_stay st (snd (clearAllCache st)).
Proof.
  intros Huntracked. unfold clearAllCache.
  rewrite bind_unfold, localStorage_removeItem_run.
  destruct (readFault (localStorage st)) eqn:Hread;
    [split; [exact Huntracked | apply images_stay_refl] | ].
  rewrite bind_unfold, localStorage_removeItem_run. cbn [localStorage readFault].
  rewrite bind_unfold, localStorage_removeItem_run. cbn [localStorage readFault].
  rewrite bind_unfold, localStorage_removeItem_run. cbn [localStorage readFault].
  unfold indexedDB_deleteDatabase. cbn [indexedDB localStorage items readFault writeFault].
  replace (String.eqb "SpotShareImageCache" IMAGE_DATABASE) with false by reflexivity.
  assert (Hgone : forall db,
             images_untracked
               (mkState
                  (mkLocalStorage
                     (delete USER_POSTS_CACHE_KEY
                        (delete QUERIES_CACHE_KEY
                           (delete IMAGES_CACHE_KEY
                              (delete POSTS_CACHE_KEY (items (localStorage st))))))
                     false (writeFault (localStorage st))) db)).
  { intros db. apply table_in_absent. cbn.
    rewrite !lookup_delete_ne by discriminate. apply lookup_delete_eq. }
  destruct (openFault (indexedDB st)); cbn [snd]; split; try apply Hgone; by intros url.
Qed.

End Session.

(** X21. The service loses track of every image it caches, and never
    deletes one.  From a store whose table of images is empty (a new
    profile, for one), after any calls of the service, made at any times
    and whatever they return, of [cacheImage] on any network included: the
    table of images that the service reads is still empty, so that
    [getCachedImageBlob] misses for every address; and every image that was
    in IndexedDB is still there. *)
Theorem images_are_never_tracked (calls : list (CacheCall * Z)) (st : CacheService.State) :
  images_untracked st ->
  images_untracked (after_calls calls st)
  /\ images_stay st (after_calls calls st)
  /\ forall url now,
       CacheService.getCachedImageBlob url now (after_calls calls st)
       = (Ok None, after_calls calls st).
Proof.
  intros Huntracked.
  assert (Hinv : images_untracked (after_calls calls st)
                 /\ images_stay st (after_calls calls st)).
  { revert st Huntracked. induction calls as [ | [call now] calls IH]; intros st Huntracked.
    - split; [exact Huntracked | apply images_stay_refl].
    - unfold after_calls in *. cbn [foldl fst snd].
      assert (Hstep : images_untracked (after_call call now st)
                      /\ images_stay st (after_call call now st)).
      { destruct call; cbn [after_call];
          unfold CacheService.cacheUserPosts, CacheService.getCachedUserPosts.
        - apply keeps_images_untracked; [apply framed_cachePosts | exact Huntracked].
        - apply keeps_images_untracked; [apply framed_getCachedPosts | exact Huntracked].
        - apply keeps_images_untracked; [apply framed_cachePosts | exact Huntracked].
        - apply keeps_images_untracked; [apply framed_getCachedPosts | exact Huntracked].
        - apply keeps_images_untracked;
            [apply framed_invalidatePostsCache | exact Huntracked].
        - destruct (cacheImage_untracked_keeps net url now st Huntracked) as [Hls Hstay].
          split; [ | exact Hstay]. unfold images_untracked in *.
          rewrite (table_in_frame _ st); [exact Huntracked | | ]; by rewrite Hls.
        - rewrite (getCachedImageBlob_missing url now st [] Huntracked eq_refl).
          split; [exact Huntracked | apply images_stay_refl].
        - apply keeps_images_untracked; [apply framed_cacheQuery | exact Huntracked].
        - apply keeps_images_untracked; [apply framed_getCachedQuery | exact Huntracked].
        - by apply cleanExpiredEntries_untracked.
        - by apply clearAllCache_untracked. }
      destruct Hstep as [Huntracked1 Hstay1].
      destruct (IH _ Huntracked1) as [Huntracked' Hstay'].
      split; [exact Huntracked' | by eapply images_stay_trans]. }
  destruct Hinv as [Huntracked' Hstay]. split; [exact Huntracked' | ].
  split; [exact Hstay | ]. intros url now.
  by apply (getCachedImageBlob_missing url now _ []).
Qed.

Lemma images_are_never_tracked_witness :
  images_untracked
    (after_calls
       [(CacheImage photo_host "https://firebasestorage.example/a.jpg", 1000);
        (CleanExpiredEntries, 2000);
        (GetCachedImageBlob "https://firebasestorage.example/a.jpg", 3000)] fresh_cache)
  /\ images_stay fresh_cache
       (after_calls
          [(CacheImage photo_host "https://firebasestorage.example/a.jpg", 1000);
           (CleanExpiredEntries, 2000);
           (GetCachedImageBlob "https://firebasestorage.example/a.jpg", 3000)] fresh_cache)
  /\ forall url now,
       CacheService.getCachedImageBlob url now
         (after_calls
            [(CacheImage photo_host "https://firebasestorage.example/a.jpg", 1000);
             (CleanExpiredEntries, 2000);
             (GetCachedImageBlob "https://firebasestorage.example/a.jpg", 3000)] fresh_cache)
       = (Ok None,
          after_calls
            [(CacheImage photo_host "https://firebasestorage.example/a.jpg", 1000);
             (CleanExpiredEntries, 2000);
             (GetCachedImageBlob "https://firebasestorage.example/a.jpg", 3000)] fresh_cache).
Proof.
  apply (images_are_never_tracked
           [(CacheImage photo_host "https://firebasestorage.example/a.jpg", 1000);
            (CleanExpiredEntries, 2000);
            (GetCachedImageBlob "https://firebasestorage.example/a.jpg", 3000)] fresh_cache).
  vm_compute. reflexivity.
Defined.

(** X22. What [cacheImage] does with an image that is within the budget
    on its own, on a store whose table of images is empty and read as it
    was stored.  It always returns.  For a [blob:] address, when the
    request fails, when the answer is not [ok] and when the body cannot be
    read, it changes nothing.  Otherwise nothing is evicted, and it puts
    the image in IndexedDB under its address, with the time of the call
    and the size of the blob, in the place of an image that was under that
    address; [localStorage] is not written.  When IndexedDB cannot be
    opened nothing changes either. *)
Theorem cacheImage_stores_what_it_fetched (net : Network) (url : string) (now : Z)
    (st : CacheService.State) :
  images_untracked st ->
  read_as_stored CacheService.IMAGES_CACHE_KEY st = true ->
  within_budget_alone (fetched net url) = true ->
  CacheService.cacheImage net url now st
  = (Ok tt,
     match fetched net url with
     | None => st
     | Some size =>
         if openFault (CacheService.indexedDB st) then st
         else CacheService.mkState (CacheService.localStorage st)
                (mkIndexedDB
                   (<[url := ImageCacheEntry.mk url (Blob.Data size) now size]>
                      (images (CacheService.indexedDB st)))
                   false)
     end).
Proof.
  intros Huntracked _. unfold CacheService.cacheImage, fetched. rewrite try_catch_unfold.
  destruct (String.prefix "blob:" url); [reflexivity | ].
  rewrite bind_unfold, (getCachedImageBlob_missing url now st [] Huntracked eq_refl).
  rewrite bind_unfold. unfold CacheService.fetch.
  destruct (net url) as [response | e]; cbn [ret throw]; [ | reflexivity].
  rewrite bind_unfold.
  destruct (ok response); cbn [ret throw]; [ | reflexivity].
  rewrite bind_unfold. unfold CacheService.response_blob.
  destruct (body response) as [size | e]; cbn [ret throw]; [ | reflexivity].
  unfold within_budget_alone. intros Hfits. apply Z.leb_le in Hfits.
  rewrite bind_unfold, (getImagesCache_untracked st Huntracked).
  cbn [use bind ret table_set CacheService.blob_size].
  unfold CacheService.limitImageCacheSize, CacheService.saveImageToIndexedDB.
  cbn [map snd foldl length ImageCacheEntry.size ImageCacheEntry.url].
  replace (0 + size >? CacheService.IMAGES_CONFIG.maxSize) with false
    by (symmetry; rewrite Z.gtb_ltb; apply Z.ltb_ge; lia).
  change (Z.of_nat 1 >? CacheService.IMAGES_CONFIG.maxEntries) with false.
  cbn [orb]. unfold ret, bind, modify.
  by destruct (openFault (CacheService.indexedDB st)) eqn:Hopen.
Qed.

Lemma cacheImage_stores_what_it_fetched_witness :
  CacheService.cacheImage photo_host "https://firebasestorage.example/a.jpg" 1000 fresh_cache
  = (Ok tt,
     match fetched photo_host "https://firebasestorage.example/a.jpg" with
     | None => fresh_cache
     | Some size =>
         if openFault (CacheService.indexedDB fresh_cache) then fresh_cache
         else CacheService.mkState (CacheService.localStorage fresh_cache)
                (mkIndexedDB
                   (<["https://firebasestorage.example/a.jpg"
                      := ImageCacheEntry.mk "https://firebasestorage.example/a.jpg"
                           (Blob.Data size) 1000 size]>
                      (images (CacheService.indexedDB fresh_cache)))
                   false)
     end).
Proof.
  apply (cacheImage_stores_what_it_fetched photo_host "https://firebasestorage.example/a.jpg"
           1000 fresh_cache).
  - vm_compute. reflexivity.
  - vm_compute. reflexivity.
  - vm_compute. reflexivity.
Defined.
